(** * AI code reviewer: diff decomposition, resumable pipeline, comment validation

    A shallow embedding of the TypeScript action (the version with progress
    tracking): the patch chunker ([splitLargeFilePatch], [splitByLines]),
    the checkpoint store ([loadProgress], [saveProgress], [clearProgress]),
    the file-by-file diff assembly ([getIndividualFileDiffs]), the response
    parser ([getAIResponse]), the analysis loop ([analyzeCode]), the line
    validator ([validateCommentLine]) and the submission batcher
    ([postReviewComments]); then the incremental diff of an update
    ([getIncrementalChanges]), the progress commands
    ([handleProgressCommands]), the details of the pull request
    ([getPRDetails]) and the part of [main] that leads from the diff
    text to the submission.

    Conventions.
    - A JavaScript string is the list of its UTF-16 code units ([jsstring]).
    - Array lengths, loop indices and counters are [nat].
    - Line numbers and other [number]-typed data are IEEE doubles ([float]);
      [===] on them is [PrimFloat.eqb].
    - Functions of the JavaScript runtime that the program calls but does
      not define ([JSON.parse], [Number], number-to-string conversion of
      a double) and the two remote services are parameters. *)

From Stdlib Require Import Strings.String Strings.Ascii.
From Stdlib Require Import List NArith ZArith Bool Arith Lia PrimFloat.
From Stdlib Require Floats.SpecFloat Floats.FloatOps Floats.FloatAxioms.
Import ListNotations.

(* ------------------------------------------------------------------ *)
(** ** JavaScript strings *)

Module JsString.

Definition jsstring := list N.

(** An ASCII literal of the source as a list of code units. *)
Definition lit (s : string) : jsstring :=
  map N_of_ascii (list_ascii_of_string s).

Definition nl : jsstring := [10%N].
Definition dq : jsstring := [34%N].
Definition backtick : N := 96%N.

Definition str_eqb (a b : jsstring) : bool :=
  if list_eq_dec N.eq_dec a b then true else false.

Definition is_empty (s : jsstring) : bool :=
  match s with [] => true | _ => false end.

(** [Boolean(s)] for a string. *)
Definition nonempty (s : jsstring) : bool := negb (is_empty s).

(** [\d] *)
Definition is_digit (c : N) : bool := (48 <=? c)%N && (c <=? 57)%N.

(** LineTerminator of the regular-expression grammar: what [.] rejects. *)
Definition is_line_terminator (c : N) : bool :=
  (c =? 10)%N || (c =? 13)%N || (c =? 8232)%N || (c =? 8233)%N.

(** WhiteSpace and LineTerminator: what [trim] strips. *)
Definition is_whitespace (c : N) : bool :=
  (c =? 9)%N || (c =? 10)%N || (c =? 11)%N || (c =? 12)%N || (c =? 13)%N
  || (c =? 32)%N || (c =? 160)%N || (c =? 5760)%N
  || ((8192 <=? c)%N && (c <=? 8202)%N)
  || (c =? 8232)%N || (c =? 8233)%N || (c =? 8239)%N || (c =? 8287)%N
  || (c =? 12288)%N || (c =? 65279)%N.

Fixpoint dropWhile (p : N -> bool) (s : jsstring) : jsstring :=
  match s with
  | [] => []
  | c :: s' => if p c then dropWhile p s' else s
  end.

(** The longest prefix whose code units satisfy [p], and the rest. *)
Fixpoint span (p : N -> bool) (s : jsstring) : jsstring * jsstring :=
  match s with
  | [] => ([], [])
  | c :: s' =>
      if p c then let (a, b) := span p s' in (c :: a, b) else ([], s)
  end.

Definition dropWhileEnd (p : N -> bool) (s : jsstring) : jsstring :=
  rev (dropWhile p (rev s)).

(** [s.trim()] *)
Definition trim (s : jsstring) : jsstring :=
  dropWhileEnd is_whitespace (dropWhile is_whitespace s).

(** [s.startsWith(p)], returning what follows the prefix. *)
Fixpoint strip_prefix (p s : jsstring) : option jsstring :=
  match p, s with
  | [], _ => Some s
  | a :: p', b :: s' => if (a =? b)%N then strip_prefix p' s' else None
  | _ :: _, [] => None
  end.

Definition startsWith (s p : jsstring) : bool :=
  match strip_prefix p s with Some _ => true | None => false end.

(** [s.includes(p)] *)
Fixpoint includes (s p : jsstring) : bool :=
  startsWith s p ||
  match s with
  | [] => false
  | _ :: s' => includes s' p
  end.

(** [s.split('\n')], with the current piece accumulated in reverse. *)
Fixpoint split_nl_from (piece : jsstring) (s : jsstring) : list jsstring :=
  match s with
  | [] => [rev piece]
  | c :: s' =>
      if (c =? 10)%N then rev piece :: split_nl_from [] s'
      else split_nl_from (c :: piece) s'
  end.

Definition split_nl (s : jsstring) : list jsstring := split_nl_from [] s.

(** [l.join(sep)] *)
Fixpoint join (sep : jsstring) (l : list jsstring) : jsstring :=
  match l with
  | [] => []
  | [a] => a
  | a :: l' => a ++ sep ++ join sep l'
  end.

(** [l.slice(i, j)] for [0 <= i <= j]. *)
Definition slice {A} (i j : nat) (l : list A) : list A :=
  firstn (j - i) (skipn i l).

Fixpoint uint_codes (d : Decimal.uint) : jsstring :=
  match d with
  | Decimal.Nil => []
  | Decimal.D0 d => 48%N :: uint_codes d
  | Decimal.D1 d => 49%N :: uint_codes d
  | Decimal.D2 d => 50%N :: uint_codes d
  | Decimal.D3 d => 51%N :: uint_codes d
  | Decimal.D4 d => 52%N :: uint_codes d
  | Decimal.D5 d => 53%N :: uint_codes d
  | Decimal.D6 d => 54%N :: uint_codes d
  | Decimal.D7 d => 55%N :: uint_codes d
  | Decimal.D8 d => 56%N :: uint_codes d
  | Decimal.D9 d => 57%N :: uint_codes d
  end.

(** A non-negative integer in a template literal. *)
Definition dec (n : nat) : jsstring := uint_codes (Nat.to_uint n).

(** The index values of [for (let i = 0; i < n; i += step)]. *)
Fixpoint loop_indices_from (fuel i step n : nat) : list nat :=
  match fuel with
  | O => []
  | S fuel' =>
      if i <? n then i :: loop_indices_from fuel' (i + step) step n else []
  end.

Definition loop_indices (step n : nat) : list nat :=
  loop_indices_from n 0 step n.

(** [Math.ceil(a / b)] on array lengths. *)
Definition ceil_div (a b : nat) : nat := (a + b - 1) / b.

End JsString.
Import JsString.

(* ------------------------------------------------------------------ *)
(** ** Patch chunker *)

Module Chunker.

Definition maxLinesPerChunk : nat := 5000.

Definition bind_opt {A B} (o : option A) (k : A -> option B) : option B :=
  match o with Some a => k a | None => None end.

Notation "x <- e ;; k" := (bind_opt e (fun x => k))
  (at level 61, e at next level, right associativity).
Notation "' p <- e ;; k" := (bind_opt e (fun x => let 'p := x in k))
  (at level 61, p pattern, e at next level, right associativity).

(** [\d+]: a non-empty run of digits. The run is followed in the pattern by
    a character that is not a digit, so taking the longest run loses no
    match. *)
Definition digits1 (s : jsstring) : option (jsstring * jsstring) :=
  let (d, r) := span is_digit s in
  if is_empty d then None else Some (d, r).

(** A match of [/@@ -\d+,\d+ \+\d+,\d+ @@.*/] anchored at the start of
    [s]: the matched text and what follows it. *)
Definition match_header (s : jsstring) : option (jsstring * jsstring) :=
  r1 <- strip_prefix (lit "@@ -") s ;;
  '(d1, r2) <- digits1 r1 ;;
  r3 <- strip_prefix (lit ",") r2 ;;
  '(d2, r4) <- digits1 r3 ;;
  r5 <- strip_prefix (lit " +") r4 ;;
  '(d3, r6) <- digits1 r5 ;;
  r7 <- strip_prefix (lit ",") r6 ;;
  '(d4, r8) <- digits1 r7 ;;
  r9 <- strip_prefix (lit " @@") r8 ;;
  let (tail, rest) := span (fun c => negb (is_line_terminator c)) r9 in
  Some (lit "@@ -" ++ d1 ++ lit "," ++ d2 ++ lit " +" ++ d3 ++ lit ","
          ++ d4 ++ lit " @@" ++ tail, rest).

(** [patch.split(hunkRegex)] with the one capture group of [hunkRegex]:
    scanning from the left, each match closes the piece before it and is
    itself the next element. Every match is non-empty, so every step
    consumes a code unit and [fuel] above the length never runs out. *)
Fixpoint regex_split_from (fuel : nat) (piece : jsstring) (s : jsstring)
  : list jsstring :=
  match fuel with
  | O => [rev piece ++ s]
  | S fuel' =>
      match s with
      | [] => [rev piece]
      | c :: s' =>
          match match_header s with
          | Some (hdr, rest) =>
              rev piece :: hdr :: regex_split_from fuel' [] rest
          | None => regex_split_from fuel' (c :: piece) s'
          end
      end
  end.

Definition regex_split (s : jsstring) : list jsstring :=
  regex_split_from (S (length s)) [] s.

(** The number of hunk boundaries the pattern finds in a text. *)
Definition boundaries (s : jsstring) : nat :=
  (length (regex_split s) - 1) / 2.

(** The synthetic file header put before every chunk. *)
Definition fileHeader (filename : jsstring) : jsstring :=
  lit "diff --git a/" ++ filename ++ lit " b/" ++ filename ++ nl
  ++ lit "--- a/" ++ filename ++ nl
  ++ lit "+++ b/" ++ filename ++ nl.

(** The marker line of the [k]-th of [total] fixed windows. *)
Definition chunkMarker (k total : nat) : jsstring :=
  lit "@@ Chunk " ++ dec k ++ lit "/" ++ dec total ++ lit " @@" ++ nl.

Definition splitByLines (filename patch : jsstring) : list jsstring :=
  let lines := split_nl patch in
  map (fun i =>
         let chunkLines := slice i (i + maxLinesPerChunk) lines in
         fileHeader filename
         ++ chunkMarker (i / maxLinesPerChunk + 1)
              (ceil_div (length lines) maxLinesPerChunk)
         ++ join nl chunkLines)
      (loop_indices maxLinesPerChunk (length lines)).

(** The pairing loop: [hunks[i] + hunks[i+1]] for [i = 0, 2, 4, ...]. *)
Fixpoint properHunks (hunks : list jsstring) : list jsstring :=
  match hunks with
  | a :: b :: rest => (a ++ b) :: properHunks rest
  | [a] => [a]
  | [] => []
  end.

Record PackState := {
  chunks : list jsstring;
  currentChunk : jsstring;
  currentChunkLines : nat
}.

Definition hunkLines (hunk : jsstring) : nat := length (split_nl hunk).

(** One iteration of [for (const hunk of properHunks)]. *)
Definition pack_step (filename : jsstring) (st : PackState) (hunk : jsstring)
  : PackState :=
  if (maxLinesPerChunk <? currentChunkLines st + hunkLines hunk)
     && nonempty (currentChunk st)
  then {| chunks := chunks st ++ [fileHeader filename ++ currentChunk st];
          currentChunk := hunk;
          currentChunkLines := hunkLines hunk |}
  else {| chunks := chunks st;
          currentChunk := currentChunk st ++ hunk;
          currentChunkLines := currentChunkLines st + hunkLines hunk |}.

Definition pack_init : PackState :=
  {| chunks := []; currentChunk := []; currentChunkLines := 0 |}.

Definition pack_finish (filename : jsstring) (st : PackState) : list jsstring :=
  if nonempty (currentChunk st)
  then chunks st ++ [fileHeader filename ++ currentChunk st]
  else chunks st.

Definition splitLargeFilePatch (filename patch : jsstring) : list jsstring :=
  let hunks := filter nonempty (regex_split patch) in
  if length hunks <=? 1 then splitByLines filename patch
  else pack_finish filename
         (fold_left (pack_step filename) (properHunks hunks) pack_init).

End Chunker.
Import Chunker.

(* ------------------------------------------------------------------ *)
(** ** Values of the data model *)

Module Data.

(** A JavaScript value as [JSON.parse] builds it, with [undefined] for an
    absent property. The fields of an object are its own properties, one
    entry for each key. *)
#[local] Unset Elimination Schemes.
Inductive JsValue :=
| JUndefined
| JNull
| JBool (b : bool)
| JNum (x : float)
| JStr (s : jsstring)
| JArr (items : list JsValue)
| JObj (fields : list (jsstring * JsValue)).
#[local] Set Elimination Schemes.

(** [a === b] on numbers: IEEE equality, false on NaN. *)
Definition strict_eq (a b : float) : bool := PrimFloat.eqb a b.

(** [Boolean(v)] *)
Definition truthy (v : JsValue) : bool :=
  match v with
  | JUndefined | JNull => false
  | JBool b => b
  | JNum x => negb (PrimFloat.eqb x 0 || PrimFloat.is_nan x)
  | JStr s => nonempty s
  | JArr _ | JObj _ => true
  end.

(** [v.key] for a key that no built-in prototype defines: [None] is the
    TypeError of reading a property of [null] or [undefined]. *)
Definition get_prop (v : JsValue) (key : jsstring) : option JsValue :=
  match v with
  | JUndefined | JNull => None
  | JObj fields =>
      match find (fun kv => str_eqb (fst kv) key) fields with
      | Some kv => Some (snd kv)
      | None => Some JUndefined
      end
  | _ => Some JUndefined
  end.

Record ReviewComment := {
  body : JsValue;
  path : jsstring;
  line : float
}.

Record ReviewProgress := {
  prNumber : float;
  repository : jsstring;
  processedFiles : list jsstring;
  allComments : list ReviewComment;
  currentBatch : nat;
  totalFiles : nat;
  timestamp : jsstring;
  completed : bool
}.

Record PRDetails := {
  owner : jsstring;
  repo : jsstring;
  pull_number : float;
  title : jsstring;
  description : jsstring
}.

(** A change record of the diff parser: [ln] of an addition is its line in
    the new file, [ln] of a deletion its line in the old file, a context
    line carries both. *)
Inductive Change :=
| AddChange (ln : float) (content : jsstring)
| DeleteChange (ln : float) (content : jsstring)
| NormalChange (ln1 ln2 : float) (content : jsstring).

Record Chunk := {
  chunk_content : jsstring;
  changes : list Change
}.

Record ParsedFile := {
  chunks : list Chunk;
  from : option jsstring;
  to : option jsstring
}.

(** An entry of the changed-files listing. *)
Record ChangedFile := {
  filename : jsstring;
  patch : option jsstring
}.

End Data.
Import Data.

(* ------------------------------------------------------------------ *)
(** ** Checkpoint store *)

Module Checkpoint.

(** The progress file: absent, present but not decodable, or holding a
    saved record. *)
Inductive StoredFile :=
| Missing
| Unreadable
| Saved (p : ReviewProgress).

(** [writable = false] is a file system on which [writeFileSync] and
    [unlinkSync] throw; both callers catch and log. *)
Record FileSystem := {
  progress_file : StoredFile;
  writable : bool
}.

Definition loadProgress (fs : FileSystem) : option ReviewProgress :=
  match progress_file fs with
  | Saved p => Some p
  | Missing | Unreadable => None
  end.

Definition saveProgress (progress : ReviewProgress) (fs : FileSystem)
  : FileSystem :=
  if writable fs
  then {| progress_file := Saved progress; writable := true |}
  else fs.

Definition clearProgress (fs : FileSystem) : FileSystem :=
  match progress_file fs with
  | Missing => fs
  | Unreadable | Saved _ =>
      if writable fs
      then {| progress_file := Missing; writable := true |}
      else fs
  end.

Definition createInitialProgress (prNumber : float) (repository : jsstring)
  (totalFiles : nat) (now : jsstring) : ReviewProgress :=
  {| prNumber := prNumber;
     repository := repository;
     processedFiles := [];
     allComments := [];
     currentBatch := 0;
     totalFiles := totalFiles;
     timestamp := now;
     completed := false |}.

End Checkpoint.
Import Checkpoint.

(* ------------------------------------------------------------------ *)
(** ** File-by-file diff assembly *)

Module Assembler.

(** What a run reads from its environment: the [LOCAL_TESTING] toggle,
    the answer of the changed-files listing ([None] when the call throws)
    and the clock at session creation and at completion. *)
Record Env := {
  LOCAL_TESTING : bool;
  listFiles : option (list ChangedFile);
  startTime : jsstring;
  endTime : jsstring
}.

(** The state threaded through a run once its session object exists. The
    source guards every use of [progress] with [if (progress)]; from the
    point where the session is initialised the guard always holds.
    [history] records the session object after each mutation and
    [handled] the file names the per-file callback was run on. *)
Record Run := {
  progress : ReviewProgress;
  fs : FileSystem;
  history : list ReviewProgress;
  handled : list jsstring
}.

Definition mutate (f : ReviewProgress -> ReviewProgress) (r : Run) : Run :=
  let p := f (progress r) in
  {| progress := p; fs := fs r;
     history := history r ++ [p]; handled := handled r |}.

Definition save (r : Run) : Run :=
  {| progress := progress r; fs := saveProgress (progress r) (fs r);
     history := history r; handled := handled r |}.

Definition push_processed (name : jsstring) (p : ReviewProgress)
  : ReviewProgress :=
  {| prNumber := prNumber p; repository := repository p;
     processedFiles := processedFiles p ++ [name];
     allComments := allComments p; currentBatch := currentBatch p;
     totalFiles := totalFiles p; timestamp := timestamp p;
     completed := completed p |}.

Definition set_currentBatch (n : nat) (p : ReviewProgress) : ReviewProgress :=
  {| prNumber := prNumber p; repository := repository p;
     processedFiles := processedFiles p;
     allComments := allComments p; currentBatch := n;
     totalFiles := totalFiles p; timestamp := timestamp p;
     completed := completed p |}.

Definition set_totalFiles (n : nat) (p : ReviewProgress) : ReviewProgress :=
  {| prNumber := prNumber p; repository := repository p;
     processedFiles := processedFiles p;
     allComments := allComments p; currentBatch := currentBatch p;
     totalFiles := n; timestamp := timestamp p;
     completed := completed p |}.

Definition mark_completed (now : jsstring) (p : ReviewProgress)
  : ReviewProgress :=
  {| prNumber := prNumber p; repository := repository p;
     processedFiles := processedFiles p;
     allComments := allComments p; currentBatch := currentBatch p;
     totalFiles := totalFiles p; timestamp := now;
     completed := true |}.

Definition reconstructDiffFromProgress (p : ReviewProgress) : jsstring :=
  lit "# Previously processed " ++ dec (length (processedFiles p))
  ++ lit " files" ++ nl
  ++ lit "# Files: " ++ join (lit ", ") (processedFiles p) ++ nl.

Definition placeholder (name note : jsstring) : jsstring :=
  lit "diff --git a/" ++ name ++ lit " b/" ++ name ++ nl
  ++ lit "--- a/" ++ name ++ nl
  ++ lit "+++ b/" ++ name ++ nl
  ++ note.

(** "Track processed file": the push and the checkpoint after it. *)
Definition track (name : jsstring) (r : Run) : Run :=
  let r1 := save (mutate (push_processed name) r) in
  {| progress := progress r1; fs := fs r1; history := history r1;
     handled := handled r1 ++ [name] |}.

(** The callback of [batch.map]. Nothing in its [try] block throws, so
    the [catch] arm (an error placeholder) is not reached. The three
    statistics counters only feed the closing log line. *)
Definition process_file (r : Run) (file : ChangedFile) : Run * jsstring :=
  let name := filename file in
  let minimal :=
    (track name r,
     placeholder name (lit "@@ File change detected, but diff not available @@")) in
  match patch file with
  | Some p =>
      if nonempty p then
        if (15000 <? N.of_nat (length (split_nl p)))%N
        then (track name r, join nl (splitLargeFilePatch name p))
        else (track name r,
              lit "diff --git a/" ++ name ++ lit " b/" ++ name ++ nl ++ p)
      else minimal
  | None => minimal
  end.

(** [Promise.all(batch.map(...))]: the callbacks contain no [await], so
    each runs to completion, in order, while [map] builds the array. *)
Fixpoint process_all (r : Run) (batch : list ChangedFile)
  : Run * list jsstring :=
  match batch with
  | [] => (r, [])
  | file :: rest =>
      let (r1, text) := process_file r file in
      let (r2, texts) := process_all r1 rest in
      (r2, text :: texts)
  end.

Definition batchSize : nat := 10.

(** One iteration of the batch loop at index [i]. *)
Definition process_batch (filesToProcess : list ChangedFile)
  (acc : Run * jsstring) (i : nat) : Run * jsstring :=
  let (r, combinedDiff) := acc in
  let batch := slice i (i + batchSize) filesToProcess in
  let batchNumber := currentBatch (progress r) + i / batchSize + 1 in
  let (r1, batchResults) := process_all r batch in
  let r2 := save (mutate (set_currentBatch batchNumber) r1) in
  (r2, combinedDiff ++ join nl batchResults).

Definition shouldResume (loaded : option ReviewProgress)
  (pull_number : float) (repository : jsstring) : bool :=
  match loaded with
  | Some p =>
      strict_eq (Data.prNumber p) pull_number
      && str_eqb (Data.repository p) repository
      && negb (completed p)
  | None => false
  end.

(** The resume decision at the top of the run: whether to resume, and the
    file system after an unusable record has been cleared. *)
Definition resumeDecision (pull_number : float) (repository : jsstring)
  (fs0 : FileSystem) : bool * FileSystem :=
  let loaded := loadProgress fs0 in
  if shouldResume loaded pull_number repository then (true, fs0)
  else (false, match loaded with
               | Some _ => clearProgress fs0
               | None => fs0
               end).

(** What a run leaves: the text it returns, the session object it worked
    on (the resumed one or the one it created, if any), the file system,
    the successive states of that session object and the names of the
    files it handled. *)
Record Outcome := {
  diff : jsstring;
  session : option ReviewProgress;
  disk : FileSystem;
  snapshots : list ReviewProgress;
  fetched : list jsstring
}.

Definition finish (text : jsstring) (r : Run) : Outcome :=
  {| diff := text; session := Some (progress r); disk := fs r;
     snapshots := history r; fetched := handled r |}.

(** Lines 262 to 388: the run once the files are listed and the session
    object [progress0] is chosen. *)
Definition assemble (env : Env) (resume : bool) (progress0 : ReviewProgress)
  (fs1 : FileSystem) (files : list ChangedFile) : Outcome :=
  let r0 := {| progress := progress0; fs := fs1;
               history := [progress0]; handled := [] |} in
  let sliced := if LOCAL_TESTING env then slice 0 20 files else files in
  let r1 := if LOCAL_TESTING env
            then mutate (set_totalFiles (length sliced)) r0
            else r0 in
  let filesToProcess :=
    if resume
    then filter (fun file =>
                   negb (existsb (str_eqb (filename file))
                           (processedFiles (progress r1))))
                sliced
    else sliced in
  if length filesToProcess =? 0
  then finish (reconstructDiffFromProgress (progress r1)) r1
  else
    let combined0 :=
      if resume then reconstructDiffFromProgress (progress r1) else [] in
    let (r2, combinedDiff) :=
      fold_left (process_batch filesToProcess)
        (loop_indices batchSize (length filesToProcess))
        (r1, combined0) in
    let r3 :=
      if totalFiles (progress r2) <=? length (processedFiles (progress r2))
      then save (mutate (mark_completed (endTime env)) r2)
      else r2 in
    finish combinedDiff r3.

Definition getIndividualFileDiffs (env : Env) (owner repo : jsstring)
  (pull_number : float) (fs0 : FileSystem) : Outcome :=
  let repository := owner ++ lit "/" ++ repo in
  let loaded := loadProgress fs0 in
  let (resume, fs1) := resumeDecision pull_number repository fs0 in
  match listFiles env with
  | None =>
      (* the outer catch: save whatever [progress] holds, return the
         empty string *)
      {| diff := [];
         session := if resume then loaded else None;
         disk := match loaded with
                 | Some p => saveProgress p fs1
                 | None => fs1
                 end;
         snapshots := [];
         fetched := [] |}
  | Some files =>
      if length files =? 0 then
        {| diff := []; session := if resume then loaded else None;
           disk := fs1; snapshots := []; fetched := [] |}
      else
        let progress0 :=
          match loaded with
          | Some p =>
              if resume then p
              else createInitialProgress pull_number repository
                     (length files) (startTime env)
          | None =>
              createInitialProgress pull_number repository
                (length files) (startTime env)
          end in
        assemble env resume progress0 fs1 files
  end.

End Assembler.
Import Assembler.

(* ------------------------------------------------------------------ *)
(** ** Analysis response parser and analysis loop *)

Module Parser.

(** The answer of the completion service: the call throws (or the reply
    has no first choice), or it carries a message whose content may be
    absent. *)
Inductive Completion :=
| CallFailed
| Message (content : option jsstring).

Definition fence : jsstring := lit "```".

Definition last_line (lines : list jsstring) : option jsstring :=
  match lines with
  | [] => None
  | _ => Some (last lines [])
  end.

(** The body shared by the two fence branches: drop the first line, drop
    the last one if it is a closing fence, join and trim. [None] is the
    TypeError of [lines[lines.length - 1].trim()] when nothing is left
    after the first line. *)
Definition strip_fence (res : jsstring) : option jsstring :=
  let lines := tl (split_nl res) in
  l <- last_line lines ;;
  let lines := if str_eqb (trim l) fence then removelast lines else lines in
  Some (trim (join nl lines)).

(** [res.replace(/^`+|`+$/g, '')] *)
Definition strip_backticks (res : jsstring) : jsstring :=
  dropWhileEnd (N.eqb backtick) (dropWhile (N.eqb backtick) res).

(** Lines 560 to 587: the text handed to [JSON.parse]. *)
Definition cleanResponse (content : option jsstring) : option jsstring :=
  let res :=
    match content with
    | Some c => if nonempty (trim c) then trim c else lit "{}"
    | None => lit "{}"
    end in
  res1 <- (if startsWith res (lit "```json") then strip_fence res
           else if startsWith res fence then strip_fence res
           else Some res) ;;
  Some (trim (strip_backticks res1)).

Section Runtime.

Set Implicit Arguments.

Variable JSON_parse : jsstring -> option JsValue.
Variable Number : JsValue -> float.
Variable NumberToString : float -> jsstring.

(** From the reply's content to the returned value; [JNull] is the
    [null] returned by either [catch]. *)
Definition decodeResponse (content : option jsstring) : JsValue :=
  match cleanResponse content with
  | None => JNull
  | Some res =>
      match JSON_parse res with
      | None => JNull
      | Some parsed =>
          match get_prop parsed (lit "reviews") with
          | None => JNull
          | Some reviews => if truthy reviews then reviews else parsed
          end
      end
  end.

Variable AI : Type.
Variable complete : AI -> jsstring -> AI * Completion.

Definition getAIResponse (ai : AI) (prompt : jsstring) : AI * JsValue :=
  let (ai', reply) := complete ai prompt in
  (ai', match reply with
        | CallFailed => JNull
        | Message content => decodeResponse content
        end).

Definition show_opt (s : option jsstring) : jsstring :=
  match s with Some s => s | None => lit "undefined" end.

(** [`${c.ln ? c.ln : c.ln2} ${c.content}`] *)
Definition change_line (c : Change) : jsstring :=
  match c with
  | AddChange ln content | DeleteChange ln content =>
      (if truthy (JNum ln) then NumberToString ln else lit "undefined")
      ++ lit " " ++ content
  | NormalChange _ ln2 content => NumberToString ln2 ++ lit " " ++ content
  end.

Definition createPrompt (file : ParsedFile) (chunk : Chunk)
  (prDetails : PRDetails) : jsstring :=
  lit "Your task is to review pull requests. Instructions:" ++ nl
  ++ lit "- Provide the response in following JSON format:  {" ++ dq
  ++ lit "reviews" ++ dq ++ lit ": [{" ++ dq ++ lit "lineNumber" ++ dq
  ++ lit ":  <line_number>, " ++ dq ++ lit "reviewComment" ++ dq ++ lit ": "
  ++ dq ++ lit "<review comment>" ++ dq ++ lit "}]}" ++ nl
  ++ lit "- Do not give positive comments or compliments." ++ nl
  ++ lit "- Provide comments and suggestions ONLY if there is something to improve, otherwise "
  ++ dq ++ lit "reviews" ++ dq ++ lit " should be an empty array." ++ nl
  ++ lit "- Write the comment in GitHub Markdown format." ++ nl
  ++ lit "- Use the given description only for the overall context and only comment the code."
  ++ nl
  ++ lit "- IMPORTANT: NEVER suggest adding comments to the code." ++ nl
  ++ nl
  ++ lit "Review the following code diff in the file " ++ dq
  ++ show_opt (to file) ++ dq
  ++ lit " and take the pull request title and description into account when writing the response."
  ++ nl
  ++ lit "  " ++ nl
  ++ lit "Pull request title: " ++ title prDetails ++ nl
  ++ lit "Pull request description:" ++ nl
  ++ nl
  ++ lit "---" ++ nl
  ++ description prDetails ++ nl
  ++ lit "---" ++ nl
  ++ nl
  ++ lit "Git diff to review:" ++ nl
  ++ nl
  ++ lit "```diff" ++ nl
  ++ chunk_content chunk ++ nl
  ++ join nl (map change_line (changes chunk)) ++ nl
  ++ lit "```" ++ nl.

(** [!file.to] *)
Definition to_falsy (file : ParsedFile) : bool :=
  match to file with Some s => is_empty s | None => true end.

(** The callback of [flatMap] on one element; [None] is the TypeError of
    reading a property of [null]. *)
Definition comment_of (file : ParsedFile) (aiResponse : JsValue)
  : option (list ReviewComment) :=
  if to_falsy file then Some []
  else
    reviewComment <- get_prop aiResponse (lit "reviewComment") ;;
    lineNumber <- get_prop aiResponse (lit "lineNumber") ;;
    Some [{| body := reviewComment;
             path := show_opt (to file);
             line := Number lineNumber |}].

Fixpoint flatMap_opt {A B} (f : A -> option (list B)) (l : list A)
  : option (list B) :=
  match l with
  | [] => Some []
  | a :: l' =>
      bs <- f a ;;
      rest <- flatMap_opt f l' ;;
      Some (bs ++ rest)
  end.

(** [None] is a TypeError: the value has no [flatMap], or an element is
    [null]. *)
Definition createComment (file : ParsedFile) (chunk : Chunk)
  (aiResponses : JsValue) : option (list ReviewComment) :=
  match aiResponses with
  | JArr items => flatMap_opt (comment_of file) items
  | _ => None
  end.

(** The inner loop of [analyzeCode] over the chunks of one file. The
    second component is [None] when an exception leaves the function. *)
Fixpoint analyze_chunks (file : ParsedFile) (prDetails : PRDetails)
  (l : list Chunk) (ai : AI) (comments : list ReviewComment)
  : AI * option (list ReviewComment) :=
  match l with
  | [] => (ai, Some comments)
  | chunk :: rest =>
      let prompt := createPrompt file chunk prDetails in
      let (ai', aiResponse) := getAIResponse ai prompt in
      if truthy aiResponse then
        match createComment file chunk aiResponse with
        | Some newComments =>
            analyze_chunks file prDetails rest ai' (comments ++ newComments)
        | None => (ai', None)
        end
      else analyze_chunks file prDetails rest ai' comments
  end.

Definition is_deleted (file : ParsedFile) : bool :=
  match to file with
  | Some s => str_eqb s (lit "/dev/null")
  | None => false
  end.

Fixpoint analyze_files (prDetails : PRDetails) (l : list ParsedFile)
  (ai : AI) (comments : list ReviewComment)
  : AI * option (list ReviewComment) :=
  match l with
  | [] => (ai, Some comments)
  | file :: rest =>
      if is_deleted file then analyze_files prDetails rest ai comments
      else
        match analyze_chunks file prDetails (chunks file) ai comments with
        | (ai', Some comments') => analyze_files prDetails rest ai' comments'
        | (ai', None) => (ai', None)
        end
  end.

Definition analyzeCode (parsedDiff : list ParsedFile) (prDetails : PRDetails)
  (ai : AI) : AI * option (list ReviewComment) :=
  analyze_files prDetails parsedDiff ai [].

Unset Implicit Arguments.

End Runtime.

End Parser.
Import Parser.

(* ------------------------------------------------------------------ *)
(** ** Comment validator *)

Module Validator.

Definition path_is (p : option jsstring) (q : jsstring) : bool :=
  match p with Some s => str_eqb s q | None => false end.

(** The predicate of [parsedDiff.find]. *)
Definition file_matches (comment : ReviewComment) (file : ParsedFile) : bool :=
  path_is (to file) (path comment) || path_is (from file) (path comment).

(** The test applied to one change record. *)
Definition change_matches (n : float) (change : Change) : bool :=
  match change with
  | AddChange ln _ => strict_eq ln n
  | DeleteChange ln _ => strict_eq ln n
  | NormalChange ln1 ln2 _ => strict_eq ln1 n || strict_eq ln2 n
  end.

(** The two nested loops that set [lineExists], leaving at the first
    match. *)
Definition lineExists (comment : ReviewComment) (file : ParsedFile) : bool :=
  existsb (fun chunk => existsb (change_matches (line comment)) (changes chunk))
          (chunks file).

Definition keeps (parsedDiff : list ParsedFile) (comment : ReviewComment)
  : bool :=
  match find (file_matches comment) parsedDiff with
  | None => false
  | Some fileInDiff => lineExists comment fileInDiff
  end.

Definition validateCommentLine (comments : list ReviewComment)
  (parsedDiff : list ParsedFile) : list ReviewComment :=
  filter (keeps parsedDiff) comments.

End Validator.
Import Validator.

(* ------------------------------------------------------------------ *)
(** ** Submission batcher *)

Module Batcher.

(** The answer of the review-submission call: accepted, or an exception
    whose [message] may be absent. *)
Inductive ApiOutcome :=
| Accepted
| Rejected (message : option jsstring).

Inductive Event :=
| Submit (batchComments : list ReviewComment) (outcome : ApiOutcome)
| Sleep (ms : N).

(** [batchError.message?.includes('rate limit')] *)
Definition rate_limited (message : option jsstring) : bool :=
  match message with
  | Some m => includes m (lit "rate limit")
  | None => false
  end.

Definition add_comments (comments : list ReviewComment) (p : ReviewProgress)
  : ReviewProgress :=
  {| prNumber := prNumber p; repository := repository p;
     processedFiles := processedFiles p;
     allComments := allComments p ++ comments;
     currentBatch := currentBatch p;
     totalFiles := totalFiles p; timestamp := timestamp p;
     completed := completed p |}.

Section Service.

Set Implicit Arguments.

Variable GitHub : Type.
Variable createReview : GitHub -> list ReviewComment -> GitHub * ApiOutcome.

Record PostState := {
  github : GitHub;
  successCount : nat;
  events : list Event
}.

Definition batchSize : nat := 5.

(** One iteration of the submission loop at index [i]. *)
Definition post_batch (comments : list ReviewComment) (st : PostState)
  (i : nat) : PostState :=
  let batchComments := slice i (i + batchSize) comments in
  let (gh, outcome) := createReview (github st) batchComments in
  match outcome with
  | Accepted =>
      {| github := gh;
         successCount := successCount st + length batchComments;
         events := events st ++ Submit batchComments outcome
                   :: (if i + batchSize <? length comments
                       then [Sleep 3000] else []) |}
  | Rejected message =>
      {| github := gh;
         successCount := successCount st;
         events := events st ++ Submit batchComments outcome
                   :: (if rate_limited message
                       then [Sleep 10000] else []) |}
  end.

Record PostResult := {
  returned : bool;
  posted : PostState;
  stored : FileSystem
}.

(** [posted] carries the count that the closing log line reports; the
    function itself returns [true]. *)
Definition postReviewComments (local_testing : bool) (fs0 : FileSystem)
  (gh : GitHub) (comments : list ReviewComment) : PostResult :=
  let fs1 :=
    match loadProgress fs0 with
    | Some progress => saveProgress (add_comments comments progress) fs0
    | None => fs0
    end in
  let st0 := {| github := gh; successCount := 0; events := [] |} in
  if local_testing
  then {| returned := true; posted := st0; stored := fs1 |}
  else {| returned := true;
          posted := fold_left (post_batch comments)
                      (loop_indices batchSize (length comments)) st0;
          stored := fs1 |}.

(** [None]: nothing valid to post, the batcher is not called. *)
Definition createReviewComment (local_testing : bool) (fs0 : FileSystem)
  (gh : GitHub) (comments : list ReviewComment)
  (parsedDiff : list ParsedFile) : option PostResult :=
  let validComments := validateCommentLine comments parsedDiff in
  if length validComments =? 0 then None
  else Some (postReviewComments local_testing fs0 gh validComments).

Unset Implicit Arguments.

End Service.

End Batcher.
Import Batcher.

(* ------------------------------------------------------------------ *)
(** ** Vocabulary of the properties *)

Module Props.

(** A change record that addresses line [n]: an addition by its new-file
    line, a deletion by its old-file line, a context line by either. *)
Inductive addresses (n : float) : Change -> Prop :=
| addr_add ln content :
    strict_eq ln n = true -> addresses n (AddChange ln content)
| addr_del ln content :
    strict_eq ln n = true -> addresses n (DeleteChange ln content)
| addr_old ln1 ln2 content :
    strict_eq ln1 n = true -> addresses n (NormalChange ln1 ln2 content)
| addr_new ln1 ln2 content :
    strict_eq ln2 n = true -> addresses n (NormalChange ln1 ln2 content).

(** The parsed diff has a file with the comment's path as new or old path
    and, in it, a change record addressing the comment's line. *)
Definition anchored (parsedDiff : list ParsedFile) (c : ReviewComment) : Prop :=
  exists file chunk change,
    In file parsedDiff
    /\ (to file = Some (path c) \/ from file = Some (path c))
    /\ In chunk (chunks file)
    /\ In change (changes chunk)
    /\ addresses (line c) change.

(** The fixed-size batches of the submission loop. *)
Definition batches (comments : list ReviewComment)
  : list (list ReviewComment) :=
  map (fun i => slice i (i + Batcher.batchSize) comments)
      (loop_indices Batcher.batchSize (length comments)).

(** The submission calls of a trace, in order, with their outcomes. *)
Fixpoint submissions (evs : list Event)
  : list (list ReviewComment * ApiOutcome) :=
  match evs with
  | [] => []
  | Submit b o :: evs' => (b, o) :: submissions evs'
  | Sleep _ :: evs' => submissions evs'
  end.

(** The number of comments in the accepted submissions. *)
Fixpoint accepted_count (subs : list (list ReviewComment * ApiOutcome))
  : nat :=
  match subs with
  | [] => 0
  | (b, Accepted) :: subs' => length b + accepted_count subs'
  | (_, Rejected _) :: subs' => accepted_count subs'
  end.

(** The shape of a trace of the submission loop: every call is followed
    by at most one pause, the cooldown exactly after a rate-limited
    rejection, and then by the next call. *)
Inductive batch_trace : list Event -> Prop :=
| bt_nil : batch_trace []
| bt_accept b evs :
    batch_trace evs -> batch_trace (Submit b Accepted :: evs)
| bt_accept_wait b evs :
    batch_trace evs ->
    batch_trace (Submit b Accepted :: Sleep 3000 :: evs)
| bt_reject b m evs :
    rate_limited m = false ->
    batch_trace evs -> batch_trace (Submit b (Rejected m) :: evs)
| bt_cooldown b m evs :
    rate_limited m = true ->
    batch_trace evs ->
    batch_trace (Submit b (Rejected m) :: Sleep 10000 :: evs).

(** A trace is over or goes on with a submission call. *)
Definition next_is_submit (evs : list Event) : Prop :=
  evs = [] \/ exists b o evs', evs = Submit b o :: evs'.

(** A non-empty run of digits. *)
Definition digit_run (d : jsstring) : Prop :=
  d <> [] /\ Forall (fun c => is_digit c = true) d.

(** A hunk header as the pattern reads it: [@@ -a,b +c,d @@] and the rest
    of its line. *)
Definition header_text (h : jsstring) : Prop :=
  exists d1 d2 d3 d4 tail,
    h = lit "@@ -" ++ d1 ++ lit "," ++ d2 ++ lit " +" ++ d3 ++ lit ","
        ++ d4 ++ lit " @@" ++ tail
    /\ digit_run d1 /\ digit_run d2 /\ digit_run d3 /\ digit_run d4
    /\ Forall (fun c => is_line_terminator c = false) tail.

(** A text that is empty or starts with a line terminator. *)
Definition at_line_end (r : jsstring) : Prop :=
  forall c, hd_error r = Some c -> is_line_terminator c = true.

(** The pattern matches at none of the first [n] positions of [s]. *)
Definition no_match_before (n : nat) (s : jsstring) : Prop :=
  forall q, q < n -> match_header (skipn q s) = None.

(** The pieces [b0; h1; b1; ...; hn; bn] that scanning a text yields:
    each [h] is a match found at the first position where there is one,
    each [b] the text before the next match. *)
Inductive scanned : jsstring -> list jsstring -> Prop :=
| scanned_end s :
    no_match_before (length s) s -> scanned s [s]
| scanned_match b h r pieces :
    no_match_before (length b) (b ++ h ++ r) ->
    match_header (h ++ r) = Some (h, r) ->
    scanned r pieces ->
    scanned (b ++ h ++ r) (b :: h :: pieces).

(** The hunks of a text that starts with the header [h] and goes on with
    the pieces [b1; h2; b2; ...]: each header with the body after it. *)
Fixpoint hunks_from (h : jsstring) (pieces : list jsstring)
  : list jsstring :=
  match pieces with
  | [] => [h]
  | [b] => [h ++ b]
  | b :: h' :: pieces' => (h ++ b) :: hunks_from h' pieces'
  end.

(** One whole hunk: a header at the start, then a body in which the
    pattern finds no further boundary. *)
Definition whole_hunk (hunk : jsstring) : Prop :=
  exists h body, header_text h /\ regex_split hunk = [[]; h; body].

(** The line count the packing loop keeps for a group of hunks. *)
Definition lines_of (group : list jsstring) : nat :=
  list_sum (map hunkLines group).

(** A group of hunks that respects the ceiling, or is one hunk that
    exceeds it alone. *)
Definition within_ceiling (group : list jsstring) : Prop :=
  lines_of group <= maxLinesPerChunk
  \/ exists hunk, group = [hunk] /\ maxLinesPerChunk < hunkLines hunk.

(** Greedy packing: a group was closed only because the first hunk of
    the next group did not fit. *)
Definition greedy (groups : list (list jsstring)) : Prop :=
  forall i g1 g2 hunk,
    nth_error groups i = Some g1 ->
    nth_error groups (S i) = Some g2 ->
    hd_error g2 = Some hunk ->
    maxLinesPerChunk < lines_of g1 + hunkLines hunk.

(** The packing loop on groups of hunks instead of their text. *)
Record GroupState := {
  closed : list (list jsstring);
  current : list jsstring
}.

Definition group_step (st : GroupState) (hunk : jsstring) : GroupState :=
  if (maxLinesPerChunk <? lines_of (current st) + hunkLines hunk)
     && negb (match current st with [] => true | _ => false end)
  then {| closed := closed st ++ [current st]; current := [hunk] |}
  else {| closed := closed st; current := current st ++ [hunk] |}.

Definition groups_of (hunks : list jsstring) : list (list jsstring) :=
  let st := fold_left group_step hunks {| closed := []; current := [] |} in
  match current st with
  | [] => closed st
  | _ => closed st ++ [current st]
  end.

Definition is_nil {A} (l : list A) : bool :=
  match l with [] => true | _ => false end.

(** The loop on text and the loop on groups go in step. *)
Definition in_step (filename : jsstring) (gs : GroupState) (ps : PackState)
  : Prop :=
  Chunker.chunks ps
  = map (fun g => fileHeader filename ++ concat g) (closed gs)
  /\ currentChunk ps = concat (current gs)
  /\ currentChunkLines ps = lines_of (current gs)
  /\ Forall (fun hunk => hunk <> []) (current gs).

(** What the loop on groups maintains. *)
Definition packed (done : list jsstring) (st : GroupState) : Prop :=
  concat (closed st) ++ current st = done
  /\ Forall (fun g => g <> []) (closed st)
  /\ Forall within_ceiling (closed st)
  /\ (current st = [] \/ within_ceiling (current st))
  /\ greedy (closed st ++ [current st])
  /\ (current st = [] -> closed st = []).

(** The effect of the per-file callback on the run's state, for a list of
    file names. *)
Definition track_all (names : list jsstring) (r : Run) : Run :=
  fold_left (fun r name => track name r) names r.

(** The effect of one iteration of the batch loop on the run's state. *)
Definition batch_state (files : list ChangedFile) (r : Run) (i : nat) : Run :=
  save (mutate
          (set_currentBatch
             (currentBatch (progress r) + i / Assembler.batchSize + 1))
          (track_all
             (map filename (slice i (i + Assembler.batchSize) files)) r)).

(** The operations a run applies to its session object. *)
Inductive session_op : ReviewProgress -> ReviewProgress -> Prop :=
| op_push name p : session_op p (push_processed name p)
| op_batch n p : session_op p (set_currentBatch n p)
| op_total n p :
    completed p = false -> session_op p (set_totalFiles n p)
| op_complete now p :
    totalFiles p <= length (processedFiles p) ->
    session_op p (mark_completed now p).

(** The two operations of the batch loop. *)
Inductive work_op : ReviewProgress -> ReviewProgress -> Prop :=
| work_push name p : work_op p (push_processed name p)
| work_batch n p : work_op p (set_currentBatch n p).

(** [steps R p l q]: starting from [p], the states [l] follow one
    another by [R] and end in [q]. *)
Inductive steps (R : ReviewProgress -> ReviewProgress -> Prop)
  : ReviewProgress -> list ReviewProgress -> ReviewProgress -> Prop :=
| steps_nil p : steps R p [] p
| steps_cons p q l p' :
    R p q -> steps R q l p' -> steps R p (q :: l) p'.

(** [r'] is reached from [r] by handling the files [names]. *)
Definition reached (names : list jsstring) (r r' : Run) : Prop :=
  processedFiles (progress r') = processedFiles (progress r) ++ names
  /\ handled r' = handled r ++ names
  /\ exists l, history r' = history r ++ l
               /\ steps work_op (progress r) l (progress r').

(** The work items of a run: the listed files, cut to twenty under
    local testing. *)
Definition work_items (env : Env) (files : list ChangedFile)
  : list ChangedFile :=
  if LOCAL_TESTING env then slice 0 20 files else files.

(** The work items a resumed run still has to handle. *)
Definition remaining (p : ReviewProgress) (items : list ChangedFile)
  : list ChangedFile :=
  filter (fun file =>
            negb (existsb (str_eqb (filename file)) (processedFiles p)))
         items.

(** A reply wrapped in a code fence: the opening fence with any tag that
    stays on its line, the content on lines of its own, the closing
    fence. *)
Definition fenced (tag content : jsstring) : jsstring :=
  fence ++ tag ++ nl ++ content ++ nl ++ fence.

(** Content that, once trimmed, is not empty and neither starts nor ends
    with a backtick. Every JSON text is such: it starts with a brace, a
    bracket, a quote, a sign, a digit or a letter and ends likewise. *)
Definition plain (content : jsstring) : Prop :=
  trim content <> []
  /\ hd_error (trim content) <> Some backtick
  /\ hd_error (rev (trim content)) <> Some backtick.

(** A decoded value without a usable [reviews] property. *)
Definition lacks_reviews (parsed : JsValue) : Prop :=
  match parsed with
  | JObj fields => forall v, ~ In (lit "reviews", v) fields
  | JUndefined => False
  | _ => True
  end.

(** The text [{"reviews":[]}] and the value it denotes. *)
Definition empty_reviews_text : jsstring :=
  lit "{" ++ dq ++ lit "reviews" ++ dq ++ lit ":[]}".

Definition empty_reviews_value : JsValue :=
  JObj [(lit "reviews", JArr [])].

(** A stand-in decoder for the examples: it knows three texts and rejects
    all others. The theorems hold for every decoder. *)
Definition sample_decoder (text : jsstring) : option JsValue :=
  if str_eqb text empty_reviews_text then Some empty_reviews_value
  else if str_eqb text (lit "[]") then Some (JArr [])
  else if str_eqb text (lit "{}") then Some (JObj [])
  else None.

(** A stand-in completion service for the examples: the state is the list
    of prompts received so far and every call is answered with the same
    reply. *)
Definition logging_service (reply : Completion) (log : list jsstring)
  (prompt : jsstring) : list jsstring * Completion :=
  (log ++ [prompt], reply).

End Props.
Import Props.

(* ------------------------------------------------------------------ *)
(** ** Sample data for the examples *)

Module Samples.

Definition text_c : jsstring := lit "c.txt".

(** A parsed file with a context line, a deleted line (old line 7) and an
    added line (new line 2). *)
Definition file_c : ParsedFile :=
  {| chunks := [ {| chunk_content := lit "@@ -1,7 +1,2 @@";
                    changes := [ NormalChange 1 1 (lit " a");
                                 DeleteChange 7 (lit "-b");
                                 AddChange 2 (lit "+c") ] |} ];
     from := Some text_c;
     to := Some text_c |}.

Definition deleted_file : ParsedFile :=
  {| chunks := [ {| chunk_content := lit "@@ -1,1 +0,0 @@";
                    changes := [ DeleteChange 1 (lit "-x") ] |} ];
     from := Some (lit "old.txt");
     to := Some (lit "/dev/null") |}.

Definition comment_at (n : float) : ReviewComment :=
  {| body := JStr (lit "check this"); path := text_c; line := n |}.

Definition details : PRDetails :=
  {| owner := lit "o"; repo := lit "r"; pull_number := 7;
     title := lit "t"; description := lit "d" |}.

Definition sample_number (v : JsValue) : float :=
  match v with JNum x => x | _ => nan end.

Definition sample_number_text (x : float) : jsstring := lit "n".

(** A review service that counts its calls and rejects the second one
    with a rate-limit message. *)
Definition second_call_limited (calls : nat) (batch : list ReviewComment)
  : nat * ApiOutcome :=
  (S calls,
   if calls =? 1
   then Rejected (Some (lit "You have exceeded a secondary rate limit"))
   else Accepted).

Definition eleven_comments : list ReviewComment :=
  map (fun _ => comment_at 2) (seq 0 11).

(** Two hunks of a few lines. *)
Definition two_hunks : jsstring :=
  lit "@@ -1,2 +1,2 @@ fn" ++ nl ++ lit " a" ++ nl ++ lit "+b" ++ nl
  ++ lit "@@ -10,2 +10,3 @@" ++ nl ++ lit "+c".



(** One hunk: a header and a body line. *)
Definition one_hunk : jsstring :=
  lit "@@ -1,1 +1,1 @@" ++ nl ++ lit "+a".

(** [n] added lines, each after a line break. *)
Definition plus_lines (n : nat) : jsstring :=
  concat (repeat (nl ++ lit "+x") n).

Definition long_header : jsstring := lit "@@ -1,1 +1,5000 @@".

(** One hunk of 5001 lines: the header line and 5000 added lines. *)
Definition long_hunk : jsstring := long_header ++ plus_lines 5000.

Definition file_named (name : string) : ChangedFile :=
  {| filename := lit name; patch := None |}.

Definition session_a : ReviewProgress :=
  {| prNumber := 7; repository := lit "o/r";
     processedFiles := [lit "a"]; allComments := [];
     currentBatch := 0; totalFiles := 3;
     timestamp := lit "t0"; completed := false |}.

(** A record of another change set of the same repository. *)
Definition session_other : ReviewProgress :=
  {| prNumber := 8; repository := lit "o/r";
     processedFiles := [lit "a"]; allComments := [];
     currentBatch := 1; totalFiles := 1;
     timestamp := lit "t0"; completed := true |}.

Definition three_files : list ChangedFile :=
  [file_named "a"; file_named "b"; file_named "c"].

Definition env_of (files : list ChangedFile) : Env :=
  {| LOCAL_TESTING := false; listFiles := Some files;
     startTime := lit "t0"; endTime := lit "t1" |}.

Definition store_of (p : ReviewProgress) : FileSystem :=
  {| progress_file := Saved p; writable := true |}.

Definition empty_store : FileSystem :=
  {| progress_file := Missing; writable := true |}.

(** A first run on two files, and the record on disk if that run is cut
    short after its first file. *)
Definition first_run : Outcome :=
  getIndividualFileDiffs (env_of [file_named "a"; file_named "b"])
    (lit "o") (lit "r") 7 empty_store.

Definition after_first_file : ReviewProgress :=
  nth 1 (snapshots first_run) session_a.

(** The state of that first run once its first file is tracked. *)
Definition first_run_cut_short : Run :=
  track (lit "a")
    {| progress := createInitialProgress 7 (lit "o/r") 2 (lit "t0");
       fs := empty_store;
       history := [createInitialProgress 7 (lit "o/r") 2 (lit "t0")];
       handled := [] |}.

(** The next run, on a change set that has grown to four files. *)
Definition second_run : Outcome :=
  getIndividualFileDiffs
    (env_of [file_named "a"; file_named "b"; file_named "c"; file_named "d"])
    (lit "o") (lit "r") 7 (store_of after_first_file).

End Samples.
Import Samples.

(* ------------------------------------------------------------------ *)
(** ** Incremental changes between two commits *)

Module Incremental.

(** The answer of the commit comparison: the call throws, or it carries
    the list of changed files, which may be absent. *)
Inductive Comparison :=
| CompareFailed
| Compared (files : option (list ChangedFile)).

(** What one file adds to the combined text. *)
Definition incremental_block (file : ChangedFile) : jsstring :=
  let name := filename file in
  let minimal :=
    placeholder name (lit "@@ File change detected, but diff not available @@")
    ++ nl in
  match patch file with
  | Some p =>
      if nonempty p
      then lit "diff --git a/" ++ name ++ lit " b/" ++ name ++ nl ++ p ++ nl
      else minimal
  | None => minimal
  end.

(** [None] is an exception leaving the function: [substring] on a commit
    id that is not a string, before the comparison is requested, or the
    comparison's own failure, thrown again by the handler. The [try]
    block inside the loop has nothing that throws. *)
Definition getIncrementalChanges (baseSha headSha : JsValue)
  (comparison : Comparison) : option jsstring :=
  match baseSha, headSha with
  | JStr _, JStr _ =>
      match comparison with
      | CompareFailed => None
      | Compared None => Some []
      | Compared (Some files) =>
          if length files =? 0 then Some []
          else Some (trim (fold_left
                             (fun combinedDiff file =>
                                combinedDiff ++ incremental_block file)
                             files []))
      end
  | _, _ => None
  end.

End Incremental.
Import Incremental.

(* ------------------------------------------------------------------ *)
(** ** Command-line handling of the progress file *)

Module Cli.

(** What a progress command leaves: whether a command was handled, the
    file system, and the comments written to the export file, if it was
    written. *)
Record CliOutcome := {
  cli_handled : bool;
  cli_store : FileSystem;
  cli_export : option (list ReviewComment)
}.

(** [args.includes(flag)] *)
Definition has_flag (args : list jsstring) (flag : jsstring) : bool :=
  existsb (fun a => str_eqb a flag) args.

(** [None] is the exception of [writeFileSync] on the export file, which
    nothing in the function catches. Console output is left out. *)
Definition handleProgressCommands (argv : list jsstring) (fs0 : FileSystem)
  : option CliOutcome :=
  let args := skipn 2 argv in
  if has_flag args (lit "--clear-progress") then
    Some {| cli_handled := true; cli_store := clearProgress fs0;
            cli_export := None |}
  else if has_flag args (lit "--show-progress") then
    Some {| cli_handled := true; cli_store := fs0; cli_export := None |}
  else if has_flag args (lit "--export-comments") then
    match loadProgress fs0 with
    | Some progress =>
        if 0 <? length (allComments progress) then
          if writable fs0
          then Some {| cli_handled := true; cli_store := fs0;
                       cli_export := Some (allComments progress) |}
          else None
        else Some {| cli_handled := true; cli_store := fs0;
                     cli_export := None |}
    | None =>
        Some {| cli_handled := true; cli_store := fs0; cli_export := None |}
    end
  else Some {| cli_handled := false; cli_store := fs0; cli_export := None |}.

End Cli.
Import Cli.

(* ------------------------------------------------------------------ *)
(** ** Details of the pull request *)

Module Details.

(** [v?.key]: [undefined] where [v.key] would throw. *)
Definition opt_prop (v : JsValue) (key : jsstring) : JsValue :=
  match get_prop v key with
  | Some x => x
  | None => JUndefined
  end.

(** The answer of the pull-request request: the call throws, or it
    carries a title and a body, either of which may be absent. *)
Inductive PullAnswer :=
| PullFailed
| Pull (title body : option jsstring).

(** The details as the event data give them: owner, repository name and
    number are whatever values the event holds. *)
Record RawDetails := {
  raw_owner : JsValue;
  raw_repo : JsValue;
  raw_number : JsValue;
  raw_title : jsstring;
  raw_description : jsstring
}.

Section Event.

Variable JSON_parse : jsstring -> option JsValue.

(** [parseInt(s, 10)] *)
Variable parseInt : jsstring -> float.

Variable pulls_get : JsValue -> JsValue -> JsValue -> PullAnswer.

(** The number of the pull request: the manual input if it is not blank,
    else the event's [number], else its [pull_request.number]. [None] is
    an exception. *)
Definition prNumber_of (manualPRNumber : jsstring) (eventData : JsValue)
  : option JsValue :=
  if nonempty manualPRNumber && nonempty (trim manualPRNumber) then
    let prNumber := parseInt manualPRNumber in
    if is_nan prNumber || (prNumber <=? 0)%float then None
    else Some (JNum prNumber)
  else
    number <- get_prop eventData (lit "number") ;;
    if truthy number then Some number
    else
      pull_request <- get_prop eventData (lit "pull_request") ;;
      let number' := opt_prop pull_request (lit "number") in
      if truthy number' then Some number' else None.

(** [eventFile] is the content of the event file, [None] when it cannot
    be read. [None] as result is an exception, thrown again by the
    handler. *)
Definition getPRDetails (manualPRNumber : jsstring)
  (eventFile : option jsstring) : option RawDetails :=
  text <- eventFile ;;
  eventData <- JSON_parse text ;;
  prNumber <- prNumber_of manualPRNumber eventData ;;
  repository <- get_prop eventData (lit "repository") ;;
  let login := opt_prop (opt_prop repository (lit "owner")) (lit "login") in
  let name := opt_prop repository (lit "name") in
  if truthy login && truthy name then
    match pulls_get login name prNumber with
    | PullFailed => None
    | Pull title body =>
        Some {| raw_owner := login;
                raw_repo := name;
                raw_number := prNumber;
                raw_title := match title with Some t => t | None => [] end;
                raw_description :=
                  match body with Some b => b | None => [] end |}
    end
  else None.

End Event.

End Details.
Import Details.

(* ------------------------------------------------------------------ *)
(** ** From the diff text to the submission *)

Module Pipeline.

(** [s.split(",")], with the current piece accumulated in reverse. *)
Fixpoint split_comma_from (piece : jsstring) (s : jsstring)
  : list jsstring :=
  match s with
  | [] => [rev piece]
  | c :: s' =>
      if (c =? 44)%N then rev piece :: split_comma_from [] s'
      else split_comma_from (c :: piece) s'
  end.

Definition split_comma (s : jsstring) : list jsstring :=
  split_comma_from [] s.

(** [core.getInput("exclude").split(",").map((s) => s.trim())] *)
Definition excludePatterns (input : jsstring) : list jsstring :=
  map trim (split_comma input).

Section Main.

Set Implicit Arguments.

Variable parseDiff : jsstring -> list ParsedFile.
Variable minimatch : jsstring -> jsstring -> bool.
Variable JSON_parse : jsstring -> option JsValue.
Variable Number : JsValue -> float.
Variable NumberToString : float -> jsstring.
Variable AI : Type.
Variable complete : AI -> jsstring -> AI * Completion.
Variable GitHub : Type.
Variable createReview : GitHub -> list ReviewComment -> GitHub * ApiOutcome.

(** The predicate of [parsedDiff.filter]. *)
Definition not_excluded (patterns : list jsstring) (file : ParsedFile)
  : bool :=
  negb (existsb (fun pattern =>
                   minimatch (match to file with Some s => s | None => [] end)
                     pattern)
          patterns).

(** What the run leaves: the state of the completion service, whether an
    exception ended the run, and the result of the submission, if the
    batcher was called. *)
Record Reviewed := {
  service : AI;
  crashed : bool;
  submission : option (PostResult GitHub)
}.

(** Lines 904 to 956 of [main]: parse the diff, drop the excluded files,
    analyse, submit. *)
Definition reviewDiff (exclude : jsstring) (local_testing : bool)
  (fs0 : FileSystem) (gh : GitHub) (ai : AI) (prDetails : PRDetails)
  (diff : jsstring) : Reviewed :=
  let stop := {| service := ai; crashed := false; submission := None |} in
  if is_empty (trim diff) then stop
  else
    let parsedDiff := parseDiff diff in
    if length parsedDiff =? 0 then stop
    else
      let filteredDiff :=
        filter (not_excluded (excludePatterns exclude)) parsedDiff in
      if length filteredDiff =? 0 then stop
      else
        match analyzeCode JSON_parse Number NumberToString complete
                filteredDiff prDetails ai with
        | (ai', None) =>
            {| service := ai'; crashed := true; submission := None |}
        | (ai', Some comments) =>
            {| service := ai'; crashed := false;
               submission :=
                 if 0 <? length comments
                 then createReviewComment createReview local_testing fs0 gh
                        comments parsedDiff
                 else None |}
        end.

Unset Implicit Arguments.

End Main.

End Pipeline.
Import Pipeline.

(* ------------------------------------------------------------------ *)
(** ** Vocabulary of the further properties *)

Module Derived.

(** The windows of [splitByLines]: the lines of the patch, cut every
    [maxLinesPerChunk] lines. *)
Definition windows (patch : jsstring) : list (list jsstring) :=
  map (fun i => slice i (i + maxLinesPerChunk) (split_nl patch))
      (loop_indices maxLinesPerChunk (length (split_nl patch))).

(** The text of the batch loop for the files [todo]: the texts of the
    files of one batch joined by line breaks, the batches put one after
    the other. The text of a file does not depend on the run's state
    [r0]. *)
Definition batches_text (r0 : Run) (todo : list ChangedFile) : jsstring :=
  concat
    (map (fun i =>
            join nl (map (fun file => snd (process_file r0 file))
                       (slice i (i + Assembler.batchSize) todo)))
       (loop_indices Assembler.batchSize (length todo))).

(** The state in which [assemble] enters the batch loop. *)
Definition loop_entry (env : Env) (progress0 : ReviewProgress)
  (fs1 : FileSystem) (files : list ChangedFile) : Run :=
  let r0 := {| progress := progress0; fs := fs1;
               history := [progress0]; handled := [] |} in
  if LOCAL_TESTING env
  then mutate (set_totalFiles (length (work_items env files))) r0
  else r0.

(** The stored session that a run resumes, if it resumes one. *)
Definition resumed (fs0 : FileSystem) (pull_number : float)
  (repository : jsstring) : option ReviewProgress :=
  if shouldResume (loadProgress fs0) pull_number repository
  then loadProgress fs0 else None.

(** The files a run has to process: the work items, less those that the
    resumed session records as processed. *)
Definition todo_of (env : Env) (stored : option ReviewProgress)
  (files : list ChangedFile) : list ChangedFile :=
  match stored with
  | Some p => remaining p (work_items env files)
  | None => work_items env files
  end.

(** The text a run starts from. *)
Definition seed_of (stored : option ReviewProgress) : jsstring :=
  match stored with
  | Some p => reconstructDiffFromProgress p
  | None => []
  end.

(** The value of [currentBatch] a run starts from. *)
Definition counter_of (stored : option ReviewProgress) : nat :=
  match stored with
  | Some p => currentBatch p
  | None => 0
  end.

(** A completion service that also keeps the prompts it is called with,
    in call order. *)
Definition recording {AI : Type}
  (complete : AI -> jsstring -> AI * Completion)
  (st : AI * list jsstring) (prompt : jsstring)
  : (AI * list jsstring) * Completion :=
  let (ai', reply) := complete (fst st) prompt in
  ((ai', snd st ++ [prompt]), reply).

(** The prompts of a parsed diff: one for each chunk of each file that is
    not a deleted one, in diff order. *)
Definition prompts_of (NumberToString : float -> jsstring)
  (prDetails : PRDetails) (parsedDiff : list ParsedFile) : list jsstring :=
  flat_map (fun file =>
              if is_deleted file then []
              else map (fun chunk =>
                          createPrompt NumberToString file chunk prDetails)
                     (Data.chunks file))
           parsedDiff.

(** A blank reply: no content, or white space only. *)
Definition blank (content : option jsstring) : Prop :=
  match content with
  | Some c => Forall (fun x => is_whitespace x = true) c
  | None => True
  end.

(** The comment is on a file of the diff that is analysed: its path is
    the new path of a file that is not deleted. *)
Definition on_analysed_file (parsedDiff : list ParsedFile)
  (c : ReviewComment) : Prop :=
  exists file,
    In file parsedDiff /\ to file = Some (path c)
    /\ path c <> [] /\ is_deleted file = false.

(** The time a trace of the submission loop spends waiting, in
    milliseconds. *)
Fixpoint pause_total (evs : list Event) : N :=
  match evs with
  | [] => 0
  | Sleep ms :: evs' => ms + pause_total evs'
  | Submit _ _ :: evs' => pause_total evs'
  end.

(** A patch that the file-by-file path passes on whole. *)
Definition small_patch (file : ChangedFile) : Prop :=
  match patch file with
  | Some p => (N.of_nat (length (split_nl p)) <= 15000)%N
  | None => True
  end.

End Derived.
Import Derived.

(* ------------------------------------------------------------------ *)
(** ** Sample data for the further examples *)

Module MoreSamples.

(** A stand-in decoder that reads every reply as one review item on
    line 2. *)
Definition one_review_decoder (text : jsstring) : option JsValue :=
  Some (JObj [(lit "reviews",
               JArr [JObj [(lit "lineNumber", JNum 2);
                           (lit "reviewComment", JStr (lit "check this"))]])]).

(** A newly added file. *)
Definition generated_file : ParsedFile :=
  {| Data.chunks := [ {| chunk_content := lit "@@ -0,0 +1,1 @@";
                         changes := [ AddChange 1 (lit "+g") ] |} ];
     from := Some (lit "/dev/null");
     to := Some (lit "gen.js") |}.

(** A stand-in diff parser: whatever the text, the diff of the added
    file and of [file_c]. *)
Definition sample_parseDiff (text : jsstring) : list ParsedFile :=
  [generated_file; file_c].

(** A stand-in pattern matcher: a pattern matches the path equal to it. *)
Definition sample_minimatch (path pattern : jsstring) : bool :=
  str_eqb path pattern.

(** A review service that counts its calls and accepts them all. *)
Definition always_accept (calls : nat) (batch : list ReviewComment)
  : nat * ApiOutcome :=
  (S calls, Accepted).

(** Stand-ins for the event: every event file decodes to the event of
    pull request 7 of [o/r], and [parseInt] knows the text [12]. *)
Definition sample_event (text : jsstring) : option JsValue :=
  Some (JObj [(lit "number", JNum 7);
              (lit "repository",
               JObj [(lit "owner", JObj [(lit "login", JStr (lit "o"))]);
                     (lit "name", JStr (lit "r"))])]).

Definition sample_parseInt (text : jsstring) : float :=
  if str_eqb (trim text) (lit "12") then 12%float else nan.

Definition sample_pull (owner repo number : JsValue) : PullAnswer :=
  Pull (Some (lit "t")) None.

(** [n] changed files without patch data, named by their index. *)
Definition numbered_files (n : nat) : list ChangedFile :=
  map (fun i => {| filename := dec i; patch := None |}) (seq 0 n).

(** An environment whose listing call throws. *)
Definition env_without_listing : Env :=
  {| LOCAL_TESTING := false; listFiles := None;
     startTime := lit "t0"; endTime := lit "t1" |}.

(** A patch whose first hunk header has no line counts, so that the
    pattern first matches at the second header. *)
Definition uncounted_hunk : jsstring :=
  lit "@@ -1 +1 @@" ++ nl ++ lit "-a" ++ nl ++ lit "+b" ++ nl.

(** A header that the pattern matches, and the body after it. *)
Definition counted_header : jsstring := lit "@@ -5,2 +5,2 @@".

Definition counted_body : jsstring := nl ++ lit " x".

End MoreSamples.
Import MoreSamples.

(* ------------------------------------------------------------------ *)
(** ** Strings and lists: basic facts *)

Lemma str_eqb_eq (a b : jsstring) : str_eqb a b = true <-> a = b.
Proof.
  unfold str_eqb. destruct (list_eq_dec N.eq_dec a b); split; congruence.
Qed.

Lemma str_eqb_refl (a : jsstring) : str_eqb a a = true.
Proof. now apply str_eqb_eq. Qed.

Lemma slice_incl {A} (i j : nat) (l : list A) : incl (slice i j l) l.
Proof.
  unfold slice. intros x Hx.
  rewrite <- (firstn_skipn i l). apply in_or_app. right.
  rewrite <- (firstn_skipn (j - i) (skipn i l)). apply in_or_app. now left.
Qed.

(* ------------------------------------------------------------------ *)
(** ** Comment validator *)

Section ValidatorFacts.

Lemma path_is_eq (p : option jsstring) (q : jsstring) :
  path_is p q = true <-> p = Some q.
Proof.
  destruct p as [s|]; simpl.
  - rewrite str_eqb_eq. split; congruence.
  - split; discriminate.
Qed.

Lemma change_matches_addresses (n : float) (change : Change) :
  change_matches n change = true <-> addresses n change.
Proof.
  destruct change as [ln c|ln c|ln1 ln2 c]; simpl; split; intros H.
  - now constructor.
  - now inversion H.
  - now constructor.
  - now inversion H.
  - apply orb_true_iff in H as [H|H]; [now apply addr_old | now apply addr_new].
  - apply orb_true_iff. inversion H; subst; auto.
Qed.

Lemma lineExists_spec (c : ReviewComment) (file : ParsedFile) :
  lineExists c file = true <->
  exists chunk change,
    In chunk (chunks file) /\ In change (changes chunk)
    /\ addresses (line c) change.
Proof.
  unfold lineExists. rewrite existsb_exists. split.
  - intros (chunk & Hin & H). apply existsb_exists in H as (change & Hc & Hm).
    exists chunk, change. now rewrite <- change_matches_addresses.
  - intros (chunk & change & Hin & Hc & Hm). exists chunk. split; [easy|].
    apply existsb_exists. exists change. now rewrite change_matches_addresses.
Qed.

(** What the validator decides for one comment: the first file of the
    diff that carries the comment's path has a record for its line. *)
Lemma keeps_spec (parsedDiff : list ParsedFile) (c : ReviewComment) :
  keeps parsedDiff c = true <->
  exists file, find (file_matches c) parsedDiff = Some file
               /\ lineExists c file = true.
Proof.
  unfold keeps. destruct (find (file_matches c) parsedDiff) as [f|]; split.
  - intros H. now exists f.
  - now intros (f' & [= <-] & H).
  - discriminate.
  - now intros (f' & [=] & _).
Qed.

Lemma keeps_anchored (parsedDiff : list ParsedFile) (c : ReviewComment) :
  keeps parsedDiff c = true -> anchored parsedDiff c.
Proof.
  intros H. apply keeps_spec in H as (file & Hfind & Hline).
  apply find_some in Hfind as [Hin Hm].
  apply lineExists_spec in Hline as (chunk & change & H1 & H2 & H3).
  exists file, chunk, change. repeat split; try assumption.
  unfold file_matches in Hm. apply orb_true_iff in Hm.
  now rewrite !path_is_eq in Hm.
Qed.

End ValidatorFacts.

(* ------------------------------------------------------------------ *)
(** ** Submission batcher: what is submitted *)

Section BatcherFacts.

Variable GitHub : Type.
Variable createReview : GitHub -> list ReviewComment -> GitHub * ApiOutcome.

Lemma post_batch_events_incl (comments : list ReviewComment)
  (st : PostState GitHub) (i : nat) batch outcome :
  In (Submit batch outcome) (events (post_batch createReview comments st i)) ->
  In (Submit batch outcome) (events st) \/ incl batch comments.
Proof.
  unfold post_batch.
  destruct (createReview (github st) _) as [gh o].
  destruct o as [|m]; simpl; intros H; apply in_app_or in H as [H|H]; auto;
    right; simpl in H; destruct H as [H|H].
  - injection H as <- _. apply slice_incl.
  - destruct (_ <? _); simpl in H; [destruct H as [H|[]]|destruct H];
      discriminate.
  - injection H as <- _. apply slice_incl.
  - destruct (rate_limited m); simpl in H; [destruct H as [H|[]]|destruct H];
      discriminate.
Qed.

Lemma post_loop_events_incl (comments : list ReviewComment) (idx : list nat) :
  forall (st : PostState GitHub) batch outcome,
    In (Submit batch outcome)
       (events (fold_left (post_batch createReview comments) idx st)) ->
    In (Submit batch outcome) (events st) \/ incl batch comments.
Proof.
  induction idx as [|i idx IH]; simpl; intros st batch outcome H; [now left|].
  apply IH in H as [H|H]; [|now right].
  now apply post_batch_events_incl in H.
Qed.

Lemma submitted_incl (local : bool) (fs0 : FileSystem) (gh : GitHub)
  (comments : list ReviewComment) batch outcome :
  In (Submit batch outcome)
     (events (posted (postReviewComments createReview local fs0 gh comments))) ->
  incl batch comments.
Proof.
  unfold postReviewComments. destruct local; simpl; [now intros []|].
  intros H. apply post_loop_events_incl in H as [[]|H]. exact H.
Qed.

End BatcherFacts.

(** C1. [validateCommentLine] returns a comment only if it is one of the
    candidates and the parsed diff has a file whose new or old path is the
    comment's path with a change record for the comment's line (an
    addition by its new-line number, a deletion by its old-line number, a
    context line by either); a candidate without such a record is dropped;
    and every comment of every batch that [createReviewComment] submits is
    such a validated comment. *)
Theorem validateCommentLine_sound
  (GitHub : Type)
  (createReview : GitHub -> list ReviewComment -> GitHub * ApiOutcome)
  (comments : list ReviewComment) (parsedDiff : list ParsedFile) :
  (forall c, In c (validateCommentLine comments parsedDiff) ->
             In c comments /\ anchored parsedDiff c)
  /\ (forall c, ~ anchored parsedDiff c ->
                ~ In c (validateCommentLine comments parsedDiff))
  /\ (forall local fs0 gh result batch outcome c,
        createReviewComment createReview local fs0 gh comments parsedDiff
          = Some result ->
        In (Submit batch outcome) (events (posted result)) ->
        In c batch ->
        In c comments /\ anchored parsedDiff c).
Proof.
  assert (Hsound : forall c, In c (validateCommentLine comments parsedDiff) ->
                             In c comments /\ anchored parsedDiff c).
  { intros c Hc. apply filter_In in Hc as [Hin Hk].
    split; [assumption | now apply keeps_anchored]. }
  split; [exact Hsound|]. split.
  - intros c Hno Hin. apply Hno. now apply Hsound.
  - intros local fs0 gh result batch outcome c Hrun Hev Hc.
    unfold createReviewComment in Hrun.
    destruct (length _ =? 0); [discriminate|]. injection Hrun as <-.
    apply submitted_incl in Hev. apply Hsound. now apply Hev.
Qed.

(* ------------------------------------------------------------------ *)
(** ** The index loop *)

Lemma ceil_div_step (m step : nat) :
  0 < step -> 0 < m -> ceil_div m step = S (ceil_div (m - step) step).
Proof.
  intros Hs Hm. unfold ceil_div.
  destruct (Nat.le_gt_cases m step) as [Hle|Hgt].
  - replace (m - step) with 0 by lia. simpl.
    rewrite (Nat.div_small (step - 1) step) by lia.
    symmetry. apply Nat.div_unique with (r := m - 1); lia.
  - replace (m + step - 1) with ((m - step + step - 1) + 1 * step) by lia.
    rewrite Nat.div_add by lia. lia.
Qed.

Lemma ceil_div_0 (step : nat) : 0 < step -> ceil_div 0 step = 0.
Proof. intros H. unfold ceil_div. simpl. apply Nat.div_small. lia. Qed.

(** With fuel for every remaining element the loop visits
    [i, i + step, i + 2 step, ...] below [n]. *)
Lemma loop_indices_from_eq (step n : nat) :
  0 < step ->
  forall fuel i, n - i <= fuel ->
    loop_indices_from fuel i step n
    = map (fun k => i + k * step) (seq 0 (ceil_div (n - i) step)).
Proof.
  intros Hs. induction fuel as [|fuel IH]; intros i Hf; simpl.
  - replace (n - i) with 0 by lia. now rewrite ceil_div_0.
  - destruct (Nat.ltb_spec i n) as [Hlt|Hge].
    + rewrite (ceil_div_step (n - i) step) by lia.
      rewrite IH by lia. simpl. f_equal; [lia|].
      rewrite <- seq_shift, map_map.
      replace (n - (i + step)) with (n - i - step) by lia.
      apply map_ext. intros k. lia.
    + replace (n - i) with 0 by lia. now rewrite ceil_div_0.
Qed.

Lemma loop_indices_eq (step n : nat) :
  0 < step ->
  loop_indices step n = map (fun k => k * step) (seq 0 (ceil_div n step)).
Proof.
  intros Hs. unfold loop_indices.
  rewrite loop_indices_from_eq by lia. now rewrite Nat.sub_0_r.
Qed.

Lemma loop_indices_length (step n : nat) :
  0 < step -> length (loop_indices step n) = ceil_div n step.
Proof.
  intros Hs. now rewrite loop_indices_eq, length_map, length_seq.
Qed.

(** The slices taken at the loop's indices are a partition of the list. *)
Lemma slices_concat_from {A} (step : nat) (l : list A) :
  0 < step ->
  forall fuel i, length l - i <= fuel ->
    concat (map (fun i => slice i (i + step) l)
                (loop_indices_from fuel i step (length l)))
    = skipn i l.
Proof.
  intros Hs. induction fuel as [|fuel IH]; intros i Hf; simpl.
  - symmetry. apply skipn_all2. lia.
  - destruct (Nat.ltb_spec i (length l)) as [Hlt|Hge]; simpl.
    + rewrite IH by lia. unfold slice.
      replace (i + step - i) with step by lia.
      rewrite (Nat.add_comm i step), <- (skipn_skipn step i l).
      apply firstn_skipn.
    + symmetry. apply skipn_all2. lia.
Qed.

Lemma slices_concat {A} (step : nat) (l : list A) :
  0 < step ->
  concat (map (fun i => slice i (i + step) l) (loop_indices step (length l)))
  = l.
Proof.
  intros Hs. unfold loop_indices. rewrite slices_concat_from by lia.
  reflexivity.
Qed.

(* ------------------------------------------------------------------ *)
(** ** Submission batcher: the trace *)

Section BatcherTrace.

Variable GitHub : Type.
Variable createReview : GitHub -> list ReviewComment -> GitHub * ApiOutcome.

Lemma submissions_app (a b : list Event) :
  submissions (a ++ b) = submissions a ++ submissions b.
Proof.
  induction a as [|[bt o|ms] a IH]; simpl; [reflexivity| |assumption].
  now rewrite IH.
Qed.

Lemma accepted_count_app (a b : list (list ReviewComment * ApiOutcome)) :
  accepted_count (a ++ b) = accepted_count a + accepted_count b.
Proof.
  induction a as [|[bt [|m]] a IH]; simpl; lia.
Qed.

Lemma batch_trace_app (a b : list Event) :
  batch_trace a -> batch_trace b -> batch_trace (a ++ b).
Proof.
  intros Ha Hb. induction Ha; simpl; try assumption; now constructor.
Qed.

Lemma batch_trace_next (evs : list Event) :
  batch_trace evs -> next_is_submit evs.
Proof.
  intros H. destruct H; [now left|right; eauto..].
Qed.

(** After a rejected call: the cooldown and then the next call, or the
    next call at once. *)
Lemma batch_trace_after_reject (evs : list Event) :
  batch_trace evs ->
  forall pre b m post,
    evs = pre ++ Submit b (Rejected m) :: post ->
    if rate_limited m
    then exists post', post = Sleep 10000 :: post' /\ next_is_submit post'
    else next_is_submit post.
Proof.
  induction 1 as [|b0 evs H IH|b0 evs H IH|b0 m0 evs Hm H IH|b0 m0 evs Hm H IH];
    intros pre b m post E.
  - now destruct pre.
  - destruct pre as [|e pre]; [discriminate|].
    injection E as _ E. now apply IH in E.
  - destruct pre as [|e [|e' pre]]; try discriminate.
    injection E as _ _ E. now apply IH in E.
  - destruct pre as [|e pre].
    + injection E as <- <- <-. rewrite Hm. now apply batch_trace_next.
    + injection E as _ E. now apply IH in E.
  - destruct pre as [|e [|e' pre]]; try discriminate.
    + injection E as <- <- <-. rewrite Hm.
      eexists; split; [reflexivity|]. now apply batch_trace_next.
    + injection E as _ _ E. now apply IH in E.
Qed.

(** One iteration adds its own call, then at most one pause. *)
Lemma post_batch_step (comments : list ReviewComment)
  (st : PostState GitHub) (i : nat) :
  let st' := post_batch createReview comments st i in
  exists o pause,
    events st' = events st ++ Submit (slice i (i + Batcher.batchSize) comments) o
                              :: pause
    /\ batch_trace (Submit (slice i (i + Batcher.batchSize) comments) o :: pause)
    /\ submissions pause = []
    /\ successCount st'
       = successCount st
         + accepted_count [(slice i (i + Batcher.batchSize) comments, o)].
Proof.
  unfold post_batch. destruct (createReview (github st) _) as [gh [|m]]; simpl.
  - exists Accepted. destruct (_ <? _); eexists; (split; [reflexivity|]);
      repeat split; simpl; try lia.
    + apply bt_accept_wait. constructor.
    + apply bt_accept. constructor.
  - exists (Rejected m). destruct (rate_limited m) eqn:Hm;
      eexists; (split; [reflexivity|]); repeat split; simpl; try lia.
    + now apply bt_cooldown; [|constructor].
    + now apply bt_reject; [|constructor].
Qed.

Lemma post_loop_trace (comments : list ReviewComment) (idx : list nat) :
  forall st : PostState GitHub,
    batch_trace (events st) ->
    successCount st = accepted_count (submissions (events st)) ->
    let st' := fold_left (post_batch createReview comments) idx st in
    batch_trace (events st')
    /\ successCount st' = accepted_count (submissions (events st'))
    /\ map fst (submissions (events st'))
       = map fst (submissions (events st))
         ++ map (fun i => slice i (i + Batcher.batchSize) comments) idx.
Proof.
  induction idx as [|i idx IH]; intros st Ht Hc; simpl.
  - now rewrite app_nil_r.
  - destruct (post_batch_step comments st i) as (o & pause & He & Hb & Hp & Hs).
    destruct (IH (post_batch createReview comments st i)) as (H1 & H2 & H3).
    + rewrite He. now apply batch_trace_app.
    + rewrite Hs, He, Hc, submissions_app, accepted_count_app. simpl.
      rewrite Hp. reflexivity.
    + repeat split; try assumption.
      rewrite H3, He, submissions_app, map_app. simpl. rewrite Hp. simpl.
      now rewrite <- app_assoc.
Qed.

End BatcherTrace.

(** C9. Outside local testing, [postReviewComments] submits every
    fixed-size batch of the comment list exactly once and in order,
    whatever the outcomes of earlier batches: no failure ends the loop,
    no batch is submitted again. After a rejection that signals rate
    limiting the next event is the one cooldown of 10000 ms, after
    which the loop goes on with the next batch (or is over); after any
    other rejection the next batch follows at once. The success count is
    the number of comments in the accepted batches. *)
Theorem postReviewComments_forward_progress
  (GitHub : Type)
  (createReview : GitHub -> list ReviewComment -> GitHub * ApiOutcome)
  (fs0 : FileSystem) (gh : GitHub) (comments : list ReviewComment) :
  let r := postReviewComments createReview false fs0 gh comments in
  let evs := events (posted r) in
  concat (batches comments) = comments
  /\ map fst (submissions evs) = batches comments
  /\ (forall pre b m post,
        evs = pre ++ Submit b (Rejected m) :: post ->
        if rate_limited m
        then exists post', post = Sleep 10000 :: post' /\ next_is_submit post'
        else next_is_submit post)
  /\ successCount (posted r) = accepted_count (submissions evs)
  /\ returned r = true.
Proof.
  simpl.
  destruct (post_loop_trace GitHub createReview comments
              (loop_indices Batcher.batchSize (length comments))
              {| github := gh; successCount := 0; events := [] |})
    as (Ht & Hc & Hs); [constructor|reflexivity|].
  split; [apply slices_concat; unfold Batcher.batchSize; lia|].
  split; [exact Hs|].
  split; [|split; [exact Hc|reflexivity]].
  intros pre b m post E. now apply (batch_trace_after_reject _ Ht pre b m post).
Qed.

(* ------------------------------------------------------------------ *)
(** ** Trimming, splitting into lines, joining *)

Lemma dropWhile_id (p : N -> bool) (s : jsstring) :
  (forall c, hd_error s = Some c -> p c = false) -> dropWhile p s = s.
Proof.
  destruct s as [|c s]; simpl; [reflexivity|].
  intros H. now rewrite (H c eq_refl).
Qed.

Lemma dropWhile_hd (p : N -> bool) (s : jsstring) (c : N) :
  hd_error (dropWhile p s) = Some c -> p c = false.
Proof.
  induction s as [|a s IH]; simpl; [discriminate|].
  destruct (p a) eqn:E; [assumption|]. simpl. now intros [= <-].
Qed.

Lemma dropWhile_idem (p : N -> bool) (s : jsstring) :
  dropWhile p (dropWhile p s) = dropWhile p s.
Proof. apply dropWhile_id. intros c. apply dropWhile_hd. Qed.

Lemma dropWhileEnd_id (p : N -> bool) (s : jsstring) :
  (forall c, hd_error (rev s) = Some c -> p c = false) ->
  dropWhileEnd p s = s.
Proof.
  intros H. unfold dropWhileEnd. rewrite dropWhile_id by assumption.
  apply rev_involutive.
Qed.

Lemma dropWhileEnd_last (p : N -> bool) (s : jsstring) (c : N) :
  hd_error (rev (dropWhileEnd p s)) = Some c -> p c = false.
Proof.
  unfold dropWhileEnd. rewrite rev_involutive. apply dropWhile_hd.
Qed.

(** Dropping at the front stops before a last element that is kept. *)
Lemma dropWhile_snoc (p : N -> bool) (l : jsstring) (c : N) :
  p c = false -> exists u, dropWhile p (l ++ [c]) = u ++ [c].
Proof.
  intros Hc. induction l as [|a l [u IH]]; simpl.
  - rewrite Hc. now exists [].
  - destruct (p a); [now exists u|]. now exists (a :: l).
Qed.

Lemma dropWhileEnd_hd (p : N -> bool) (s : jsstring) (c : N) :
  hd_error s = Some c -> p c = false ->
  hd_error (dropWhileEnd p s) = Some c.
Proof.
  destruct s as [|a s]; simpl; [discriminate|]. intros [= ->] Hc.
  unfold dropWhileEnd. simpl.
  destruct (dropWhile_snoc p (rev s) c Hc) as [u ->].
  now rewrite rev_app_distr.
Qed.

Lemma trim_hd (s : jsstring) (c : N) :
  hd_error (trim s) = Some c -> is_whitespace c = false.
Proof.
  unfold trim. intros H.
  destruct (dropWhile is_whitespace s) as [|a t] eqn:E.
  - discriminate.
  - assert (Ha : is_whitespace a = false).
    { apply (dropWhile_hd is_whitespace s). now rewrite E. }
    rewrite (dropWhileEnd_hd is_whitespace (a :: t) a) in H by easy.
    now injection H as <-.
Qed.

Lemma trim_last (s : jsstring) (c : N) :
  hd_error (rev (trim s)) = Some c -> is_whitespace c = false.
Proof. apply dropWhileEnd_last. Qed.

Lemma trim_id (s : jsstring) :
  (forall c, hd_error s = Some c -> is_whitespace c = false) ->
  (forall c, hd_error (rev s) = Some c -> is_whitespace c = false) ->
  trim s = s.
Proof.
  intros H1 H2. unfold trim. rewrite dropWhile_id by assumption.
  now apply dropWhileEnd_id.
Qed.

Lemma trim_idem (s : jsstring) : trim (trim s) = trim s.
Proof. apply trim_id; intros c; [apply trim_hd | apply trim_last]. Qed.

Lemma split_nl_from_app (a b : jsstring) :
  forall piece,
    split_nl_from piece (a ++ 10%N :: b) = split_nl_from piece a ++ split_nl b.
Proof.
  induction a as [|c a IH]; intros piece; simpl; [reflexivity|].
  destruct (c =? 10)%N; [simpl; f_equal|]; apply IH.
Qed.

Lemma split_nl_app (a b : jsstring) :
  split_nl (a ++ nl ++ b) = split_nl a ++ split_nl b.
Proof. apply split_nl_from_app. Qed.

Lemma split_nl_from_line (a : jsstring) :
  Forall (fun c => c <> 10%N) a ->
  forall piece, split_nl_from piece a = [rev piece ++ a].
Proof.
  induction 1 as [|c a Hc _ IH]; intros piece; simpl.
  - now rewrite app_nil_r.
  - apply N.eqb_neq in Hc. rewrite Hc, IH. simpl. now rewrite <- app_assoc.
Qed.

Lemma split_nl_line (a : jsstring) :
  Forall (fun c => c <> 10%N) a -> split_nl a = [a].
Proof. intros H. apply (split_nl_from_line a H []). Qed.

Lemma split_nl_from_nonnil (s piece : jsstring) : split_nl_from piece s <> [].
Proof.
  revert piece. induction s as [|c s IH]; intros piece; simpl; [easy|].
  destruct (c =? 10)%N; [easy|apply IH].
Qed.

Lemma join_cons (sep a : jsstring) (l : list jsstring) :
  l <> [] -> join sep (a :: l) = a ++ sep ++ join sep l.
Proof. destruct l; [easy|reflexivity]. Qed.

(** [split('\n')] followed by [join('\n')] gives the text back. *)
Lemma join_split_nl_from (s : jsstring) :
  forall piece, join nl (split_nl_from piece s) = rev piece ++ s.
Proof.
  induction s as [|c s IH]; intros piece; simpl.
  - now rewrite app_nil_r.
  - destruct (N.eqb_spec c 10) as [->|Hc].
    + rewrite join_cons by apply split_nl_from_nonnil.
      now rewrite IH.
    + rewrite IH. simpl. now rewrite <- app_assoc.
Qed.

Lemma join_split_nl (s : jsstring) : join nl (split_nl s) = s.
Proof. apply (join_split_nl_from s []). Qed.

Lemma strip_prefix_app (p s : jsstring) : strip_prefix p (p ++ s) = Some s.
Proof.
  induction p as [|a p IH]; simpl; [reflexivity|]. now rewrite N.eqb_refl.
Qed.

Lemma startsWith_app (p s : jsstring) : startsWith (p ++ s) p = true.
Proof. unfold startsWith. now rewrite strip_prefix_app. Qed.

Lemma startsWith_hd (s p : jsstring) (c : N) :
  hd_error p = Some c -> hd_error s <> Some c -> startsWith s p = false.
Proof.
  destruct p as [|a p]; simpl; [discriminate|]. intros [= ->].
  destruct s as [|b s]; unfold startsWith; simpl; [reflexivity|].
  intros H. destruct (N.eqb_spec c b) as [->|]; [now destruct H|reflexivity].
Qed.

(* ------------------------------------------------------------------ *)
(** ** Response parser *)

Section ParserFacts.

Lemma strip_backticks_plain (x : jsstring) :
  plain x -> strip_backticks (trim x) = trim x.
Proof.
  intros (_ & Hh & Hl). unfold strip_backticks.
  rewrite dropWhile_id.
  - apply dropWhileEnd_id. intros c Hc.
    apply N.eqb_neq. intros <-. now apply Hl.
  - intros c Hc. apply N.eqb_neq. intros <-. now apply Hh.
Qed.

(** Unfenced plain content is handed to the decoder trimmed. *)
Lemma cleanResponse_plain (x : jsstring) :
  plain x -> cleanResponse (Some x) = Some (trim x).
Proof.
  intros Hp. pose proof Hp as (Hne & Hh & _). unfold cleanResponse.
  assert (E : nonempty (trim x) = true) by now destruct (trim x).
  rewrite E.
  rewrite (startsWith_hd (trim x) (lit "```json") backtick) by easy.
  rewrite (startsWith_hd (trim x) fence backtick) by easy.
  simpl. now rewrite strip_backticks_plain, trim_idem.
Qed.

Lemma fence_line : Forall (fun c => c <> 10%N) fence.
Proof. repeat constructor; discriminate. Qed.

Lemma fenced_trim (tag x : jsstring) : trim (fenced tag x) = fenced tag x.
Proof.
  apply trim_id; intros c.
  - now intros [= <-].
  - unfold fenced. rewrite !rev_app_distr. now intros [= <-].
Qed.

Lemma strip_fence_fenced (tag x : jsstring) :
  Forall (fun c => c <> 10%N) tag ->
  strip_fence (fenced tag x) = Some (trim x).
Proof.
  intros Htag. unfold strip_fence, fenced.
  rewrite (app_assoc fence tag).
  rewrite split_nl_app, split_nl_line
    by (apply Forall_app; split; [apply fence_line | assumption]).
  change ([fence ++ tag] ++ split_nl (x ++ nl ++ fence))
    with ((fence ++ tag) :: split_nl (x ++ nl ++ fence)).
  cbn [tl]. rewrite split_nl_app, (split_nl_line fence fence_line).
  assert (Hl : last_line (split_nl x ++ [fence]) = Some fence).
  { unfold last_line. destruct (split_nl x ++ [fence]) eqn:E.
    - now destruct (split_nl x).
    - rewrite <- E. now rewrite last_last. }
  rewrite Hl. simpl bind_opt.
  replace (str_eqb (trim fence) fence) with true by reflexivity.
  now rewrite removelast_last, join_split_nl.
Qed.

(** A fenced reply is handed to the decoder as its content, trimmed. *)
Lemma cleanResponse_fenced (tag x : jsstring) :
  Forall (fun c => c <> 10%N) tag ->
  plain x ->
  cleanResponse (Some (fenced tag x)) = Some (trim x).
Proof.
  intros Htag Hp. unfold cleanResponse. rewrite fenced_trim.
  replace (nonempty (fenced tag x)) with true by reflexivity.
  assert (E : (if startsWith (fenced tag x) (lit "```json")
               then strip_fence (fenced tag x)
               else if startsWith (fenced tag x) fence
                    then strip_fence (fenced tag x)
                    else Some (fenced tag x))
              = Some (trim x)).
  { destruct (startsWith (fenced tag x) (lit "```json"));
      [now apply strip_fence_fenced|].
    unfold fenced at 1. rewrite startsWith_app.
    now apply strip_fence_fenced. }
  rewrite E. simpl. now rewrite strip_backticks_plain, trim_idem.
Qed.

Lemma get_prop_lacks (parsed : JsValue) :
  lacks_reviews parsed ->
  get_prop parsed (lit "reviews") = None /\ parsed = JNull
  \/ get_prop parsed (lit "reviews") = Some JUndefined.
Proof.
  destruct parsed as [| | | | | |fields]; simpl; auto; [easy|].
  intros H. right.
  destruct (find _ fields) as [[k v]|] eqn:E; [|reflexivity].
  apply find_some in E as [Hin Hk]. simpl in Hk.
  apply str_eqb_eq in Hk as ->. now apply H in Hin.
Qed.

Lemma dropWhile_app_all (p : N -> bool) (w s : jsstring) :
  Forall (fun c => p c = true) w -> dropWhile p (w ++ s) = dropWhile p s.
Proof. induction 1 as [|c w Hc _ IH]; simpl; [reflexivity|now rewrite Hc]. Qed.

(** White space around a fenced reply is trimmed away. *)
Lemma fenced_trim_around (w1 w2 tag x : jsstring) :
  Forall (fun c => is_whitespace c = true) w1 ->
  Forall (fun c => is_whitespace c = true) w2 ->
  trim (w1 ++ fenced tag x ++ w2) = fenced tag x.
Proof.
  intros H1 H2. unfold trim. rewrite dropWhile_app_all by assumption.
  rewrite (dropWhile_id is_whitespace (fenced tag x ++ w2))
    by now intros c [= <-].
  unfold dropWhileEnd. rewrite rev_app_distr.
  rewrite dropWhile_app_all by now apply Forall_rev.
  fold (dropWhileEnd is_whitespace (fenced tag x)).
  apply dropWhileEnd_id. unfold fenced. rewrite !rev_app_distr.
  now intros c [= <-].
Qed.

(** The cleaning depends on the reply only through its trimmed text. *)
Lemma cleanResponse_trim (c c' : jsstring) :
  trim c = trim c' -> cleanResponse (Some c) = cleanResponse (Some c').
Proof. intros E. unfold cleanResponse. now rewrite E. Qed.

(** A decoded value without [reviews] is returned as it is. For the
    value [null] the read of [reviews] throws and the handler returns
    [null], the same value. *)
Lemma decodeResponse_lacks (JSON_parse : jsstring -> option JsValue)
  (content : option jsstring) (res : jsstring) (parsed : JsValue) :
  cleanResponse content = Some res ->
  JSON_parse res = Some parsed ->
  lacks_reviews parsed ->
  decodeResponse JSON_parse content = parsed.
Proof.
  intros Hc Hp Hl. unfold decodeResponse. rewrite Hc, Hp.
  destruct (get_prop_lacks parsed Hl) as [[-> ->]| ->]; reflexivity.
Qed.

Lemma decodeResponse_failure (JSON_parse : jsstring -> option JsValue)
  (content : option jsstring) (res : jsstring) :
  cleanResponse content = Some res ->
  JSON_parse res = None ->
  decodeResponse JSON_parse content = JNull.
Proof. intros Hc Hp. unfold decodeResponse. now rewrite Hc, Hp. Qed.

End ParserFacts.

(** C7. A reply made of plain content between an opening fence (with any
    tag on the fence's line, or none) and a closing fence, with or
    without white space around it, is parsed to the same value as the
    content alone, whatever the decoder; so [getAIResponse] returns for
    the fenced reply what the parser yields for the content. When the
    content decodes to the object whose [reviews] is the empty array,
    the fenced reply yields the empty list, which is not the failure
    value [null], and the caller makes no comment from it. *)
Theorem fenced_reply_parses_as_content
  (JSON_parse : jsstring -> option JsValue) (tag content : jsstring) :
  Forall (fun c => c <> 10%N) tag ->
  plain content ->
  decodeResponse JSON_parse (Some (fenced tag content))
  = decodeResponse JSON_parse (Some content)
  /\ (forall w1 w2 : jsstring,
        Forall (fun c => is_whitespace c = true) w1 ->
        Forall (fun c => is_whitespace c = true) w2 ->
        decodeResponse JSON_parse (Some (w1 ++ fenced tag content ++ w2))
        = decodeResponse JSON_parse (Some content))
  /\ (forall (AI : Type) (complete : AI -> jsstring -> AI * Completion)
        ai ai' prompt,
        complete ai prompt = (ai', Message (Some (fenced tag content))) ->
        getAIResponse JSON_parse complete ai prompt
        = (ai', decodeResponse JSON_parse (Some content)))
  /\ (JSON_parse (trim content) = Some empty_reviews_value ->
      decodeResponse JSON_parse (Some (fenced tag content)) = JArr []
      /\ JArr [] <> JNull
      /\ truthy (JArr []) = true
      /\ forall Number file chunk,
           createComment Number file chunk (JArr []) = Some []).
Proof.
  intros Htag Hp.
  assert (E : decodeResponse JSON_parse (Some (fenced tag content))
              = decodeResponse JSON_parse (Some content)).
  { unfold decodeResponse.
    now rewrite cleanResponse_fenced, cleanResponse_plain. }
  split; [exact E|]. split; [|split].
  - intros w1 w2 H1 H2. rewrite <- E.
    assert (C : cleanResponse (Some (w1 ++ fenced tag content ++ w2))
                = cleanResponse (Some (fenced tag content))).
    { apply cleanResponse_trim.
      now rewrite fenced_trim_around, fenced_trim. }
    unfold decodeResponse. now rewrite C.
  - intros AI complete ai ai' prompt Hc. unfold getAIResponse.
    now rewrite Hc, E.
  - intros Hd. repeat split; try easy.
    unfold decodeResponse. rewrite cleanResponse_fenced, Hd by assumption.
    reflexivity.
Qed.

(** C8. Let [res] be the text left after fence stripping. If it does not
    decode, the parser returns [null], and the caller, given that reply
    for a chunk, goes on with the next chunk with its comment list
    unchanged. If it decodes to a value without a [reviews] property,
    the parser returns that value whole. *)
Theorem decode_failure_and_missing_wrapper
  (JSON_parse : jsstring -> option JsValue) (Number : JsValue -> float)
  (NumberToString : float -> jsstring)
  (AI : Type) (complete : AI -> jsstring -> AI * Completion)
  (content : option jsstring) (res : jsstring) :
  cleanResponse content = Some res ->
  (JSON_parse res = None ->
   decodeResponse JSON_parse content = JNull
   /\ forall file prDetails chunk rest ai ai' comments,
        complete ai (createPrompt NumberToString file chunk prDetails)
        = (ai', Message content) ->
        analyze_chunks JSON_parse Number NumberToString complete
          file prDetails (chunk :: rest) ai comments
        = analyze_chunks JSON_parse Number NumberToString complete
            file prDetails rest ai' comments)
  /\ (forall parsed,
        JSON_parse res = Some parsed ->
        lacks_reviews parsed ->
        decodeResponse JSON_parse content = parsed).
Proof.
  intros Hc. split.
  - intros Hp.
    pose proof (decodeResponse_failure JSON_parse content res Hc Hp) as E.
    split; [exact E|].
    intros file prDetails chunk rest ai ai' comments Hcall.
    simpl. unfold getAIResponse. now rewrite Hcall, E.
  - intros parsed Hp Hl. now apply (decodeResponse_lacks _ _ res).
Qed.

(* ------------------------------------------------------------------ *)
(** ** Analysis loop *)

Section AnalysisFacts.

Variable JSON_parse : jsstring -> option JsValue.
Variable Number : JsValue -> float.
Variable NumberToString : float -> jsstring.
Variable AI : Type.
Variable complete : AI -> jsstring -> AI * Completion.

Lemma is_deleted_spec (file : ParsedFile) :
  is_deleted file = true <-> to file = Some (lit "/dev/null").
Proof.
  unfold is_deleted. destruct (to file) as [s|].
  - rewrite str_eqb_eq. split; congruence.
  - split; discriminate.
Qed.

Lemma analyze_files_skip (prDetails : PRDetails) (file : ParsedFile)
  (pre post : list ParsedFile) :
  is_deleted file = true ->
  forall ai comments,
    analyze_files JSON_parse Number NumberToString complete
      prDetails (pre ++ file :: post) ai comments
    = analyze_files JSON_parse Number NumberToString complete
        prDetails (pre ++ post) ai comments.
Proof.
  intros Hd. induction pre as [|f pre IH]; intros ai comments; simpl.
  - now rewrite Hd.
  - destruct (is_deleted f); [apply IH|].
    destruct (analyze_chunks _ _ _ _ f prDetails (chunks f) ai comments)
      as [ai' [c|]]; [apply IH|reflexivity].
Qed.

Lemma analyze_files_filter (prDetails : PRDetails) (l : list ParsedFile) :
  forall ai comments,
    analyze_files JSON_parse Number NumberToString complete
      prDetails l ai comments
    = analyze_files JSON_parse Number NumberToString complete prDetails
        (filter (fun file => negb (is_deleted file)) l) ai comments.
Proof.
  induction l as [|f l IH]; intros ai comments; simpl; [reflexivity|].
  destruct (is_deleted f) eqn:Hd; simpl; [apply IH|].
  rewrite Hd.
  destruct (analyze_chunks _ _ _ _ f prDetails (chunks f) ai comments)
    as [ai' [c|]]; [apply IH|reflexivity].
Qed.

End AnalysisFacts.

(** C10. A file of the parsed diff whose new path is [/dev/null] is passed
    over by [analyzeCode]: the result, made of the comment list and of
    the state of the completion service after the run, is the one of the
    diff without that file. The state of the service is unchanged by such
    a file, so no completion call is made for it; a diff of such files
    alone gives no comment and leaves the service untouched; and the
    result is that of the diff with all such files removed. *)
Theorem analyzeCode_skips_deleted
  (JSON_parse : jsstring -> option JsValue) (Number : JsValue -> float)
  (NumberToString : float -> jsstring)
  (AI : Type) (complete : AI -> jsstring -> AI * Completion)
  (prDetails : PRDetails) (file : ParsedFile) :
  to file = Some (lit "/dev/null") ->
  (forall pre post ai,
     analyzeCode JSON_parse Number NumberToString complete
       (pre ++ file :: post) prDetails ai
     = analyzeCode JSON_parse Number NumberToString complete
         (pre ++ post) prDetails ai)
  /\ (forall ai,
        analyzeCode JSON_parse Number NumberToString complete
          [file] prDetails ai = (ai, Some []))
  /\ (forall parsedDiff ai,
        analyzeCode JSON_parse Number NumberToString complete
          parsedDiff prDetails ai
        = analyzeCode JSON_parse Number NumberToString complete
            (filter (fun f => negb (is_deleted f)) parsedDiff) prDetails ai).
Proof.
  intros Hto. apply is_deleted_spec in Hto. unfold analyzeCode.
  split; [|split].
  - intros pre post ai. now apply analyze_files_skip.
  - intros ai. simpl. now rewrite Hto.
  - intros parsedDiff ai. apply analyze_files_filter.
Qed.

(* ------------------------------------------------------------------ *)
(** ** The hunk-header pattern *)

Section PatternFacts.

Lemma strip_prefix_spec (p s r : jsstring) :
  strip_prefix p s = Some r -> s = p ++ r.
Proof.
  revert s. induction p as [|a p IH]; intros s; simpl.
  - now intros [= ->].
  - destruct s as [|b s]; [discriminate|].
    destruct (N.eqb_spec a b) as [->|]; [|discriminate].
    intros H. now rewrite (IH s H).
Qed.

Lemma span_spec (p : N -> bool) (s a b : jsstring) :
  span p s = (a, b) ->
  s = a ++ b /\ Forall (fun c => p c = true) a
  /\ (forall c, hd_error b = Some c -> p c = false).
Proof.
  revert a b. induction s as [|c s IH]; intros a b; simpl.
  - intros [= <- <-]. repeat split; [constructor|discriminate].
  - destruct (p c) eqn:E.
    + destruct (span p s) as [a' b']. intros [= <- <-].
      destruct (IH a' b' eq_refl) as (-> & Ha & Hb).
      repeat split; [now constructor|assumption].
    + intros [= <- <-]. repeat split; [constructor|].
      simpl. now intros c' [= <-].
Qed.

Lemma span_app (p : N -> bool) (a y : jsstring) :
  Forall (fun c => p c = true) a ->
  span p (a ++ y) = (a ++ fst (span p y), snd (span p y)).
Proof.
  induction 1 as [|c a Hc _ IH]; simpl.
  - now destruct (span p y).
  - rewrite Hc, IH. reflexivity.
Qed.

Lemma span_stop (p : N -> bool) (y : jsstring) :
  (forall c, hd_error y = Some c -> p c = false) -> span p y = ([], y).
Proof.
  destruct y as [|c y]; simpl; [reflexivity|].
  intros H. now rewrite (H c eq_refl).
Qed.

Lemma digits1_spec (s d r : jsstring) :
  digits1 s = Some (d, r) ->
  s = d ++ r /\ digit_run d.
Proof.
  unfold digits1. destruct (span is_digit s) as [d' r'] eqn:E.
  destruct d' as [|c d']; simpl; [discriminate|]. intros [= <- <-].
  apply span_spec in E as (-> & Hd & _). repeat split; [discriminate|assumption].
Qed.

Lemma digits1_app (d r : jsstring) :
  digit_run d ->
  (forall c, hd_error r = Some c -> is_digit c = false) ->
  digits1 (d ++ r) = Some (d, r).
Proof.
  intros [Hne Hd] Hr. unfold digits1.
  rewrite span_app, span_stop by assumption. simpl. rewrite app_nil_r.
  now destruct d.
Qed.

Opaque lit.

Lemma match_header_spec (s h r : jsstring) :
  match_header s = Some (h, r) ->
  s = h ++ r /\ header_text h /\ at_line_end r.
Proof.
  unfold match_header, bind_opt.
  destruct (strip_prefix (lit "@@ -") s) as [r1|] eqn:E1; [|discriminate].
  destruct (digits1 r1) as [[d1 r2]|] eqn:D1; [|discriminate].
  destruct (strip_prefix (lit ",") r2) as [r3|] eqn:E2; [|discriminate].
  destruct (digits1 r3) as [[d2 r4]|] eqn:D2; [|discriminate].
  destruct (strip_prefix (lit " +") r4) as [r5|] eqn:E3; [|discriminate].
  destruct (digits1 r5) as [[d3 r6]|] eqn:D3; [|discriminate].
  destruct (strip_prefix (lit ",") r6) as [r7|] eqn:E4; [|discriminate].
  destruct (digits1 r7) as [[d4 r8]|] eqn:D4; [|discriminate].
  destruct (strip_prefix (lit " @@") r8) as [r9|] eqn:E5; [|discriminate].
  destruct (span _ r9) as [tail rest] eqn:Sp. intros [= <- <-].
  apply strip_prefix_spec in E1, E2, E3, E4, E5.
  apply digits1_spec in D1 as [-> H1], D2 as [-> H2], D3 as [-> H3],
    D4 as [-> H4].
  apply span_spec in Sp as (-> & Ht & Hr). subst.
  split; [now rewrite <- !app_assoc|]. split.
  - exists d1, d2, d3, d4, tail. split; [reflexivity|].
    repeat (split; [assumption|]).
    eapply Forall_impl; [|exact Ht]. intros c Hc. simpl in Hc.
    now apply negb_true_iff in Hc.
  - intros c Hc. apply Hr in Hc. now apply negb_false_iff in Hc.
Qed.

Transparent lit.

(** A header followed by any text is matched, the match running on to
    the end of the header's line. *)
Lemma match_header_app (h y : jsstring) :
  header_text h ->
  match_header (h ++ y)
  = Some (h ++ fst (span (fun c => negb (is_line_terminator c)) y),
          snd (span (fun c => negb (is_line_terminator c)) y)).
Proof.
  intros (d1 & d2 & d3 & d4 & tail & -> & H1 & H2 & H3 & H4 & Ht).
  unfold match_header, bind_opt. rewrite <- !app_assoc.
  rewrite strip_prefix_app.
  rewrite digits1_app by (try assumption; now intros c [= <-]).
  rewrite strip_prefix_app.
  rewrite digits1_app by (try assumption; now intros c [= <-]).
  rewrite strip_prefix_app.
  rewrite digits1_app by (try assumption; now intros c [= <-]).
  rewrite strip_prefix_app.
  rewrite digits1_app by (try assumption; now intros c [= <-]).
  rewrite strip_prefix_app.
  rewrite span_app.
  - reflexivity.
  - eapply Forall_impl; [|exact Ht]. intros c Hc. simpl in Hc.
    now rewrite Hc.
Qed.

Lemma match_header_at_line_end (h r : jsstring) :
  header_text h -> at_line_end r -> match_header (h ++ r) = Some (h, r).
Proof.
  intros Hh Hr. rewrite match_header_app by assumption.
  rewrite span_stop.
  - simpl. now rewrite app_nil_r.
  - intros c Hc. apply Hr in Hc. now rewrite Hc.
Qed.

(** A match is not lost when text is added after it. *)
Lemma match_header_mono (x y : jsstring) :
  match_header (x ++ y) = None -> match_header x = None.
Proof.
  destruct (match_header x) as [[h r]|] eqn:E; [|reflexivity].
  apply match_header_spec in E as (-> & Hh & _).
  rewrite <- app_assoc, match_header_app by assumption. discriminate.
Qed.

Lemma header_text_nonempty (h : jsstring) : header_text h -> h <> [].
Proof. now intros (d1 & d2 & d3 & d4 & tail & -> & _). Qed.

Lemma header_text_not_at_line_end (h r : jsstring) :
  header_text h -> ~ at_line_end (h ++ r).
Proof.
  intros (d1 & d2 & d3 & d4 & tail & -> & _) H.
  specialize (H 64%N eq_refl). discriminate.
Qed.

End PatternFacts.

(* ------------------------------------------------------------------ *)
(** ** Splitting a patch at its hunk headers *)

Section SplitFacts.

Opaque match_header.

Lemma match_header_shorter (s h r : jsstring) :
  match_header s = Some (h, r) -> length r < length s.
Proof.
  intros H. apply match_header_spec in H as (-> & Hh & _).
  apply header_text_nonempty in Hh. rewrite length_app.
  destruct h; [easy|simpl; lia].
Qed.

(** The pieces put together are the text. *)
Lemma regex_split_from_concat (fuel : nat) :
  forall piece s, concat (regex_split_from fuel piece s) = rev piece ++ s.
Proof.
  induction fuel as [|fuel IH]; intros piece s; simpl.
  - now rewrite app_nil_r.
  - destruct s as [|c s]; [simpl; now rewrite !app_nil_r|].
    destruct (match_header (c :: s)) as [[h r]|] eqn:E; simpl.
    + rewrite IH. apply match_header_spec in E as (E & _). now rewrite E.
    + rewrite IH. simpl. now rewrite <- app_assoc.
Qed.

Lemma regex_split_concat (s : jsstring) : concat (regex_split s) = s.
Proof. apply regex_split_from_concat. Qed.

(** Any fuel above the length gives the same pieces. *)
Lemma regex_split_from_fuel (f1 : nat) :
  forall f2 piece s,
    length s < f1 -> length s < f2 ->
    regex_split_from f1 piece s = regex_split_from f2 piece s.
Proof.
  induction f1 as [|f1 IH]; intros f2 piece s H1 H2; [lia|].
  destruct f2 as [|f2]; [lia|]. simpl.
  destruct s as [|c s]; [reflexivity|].
  destruct (match_header (c :: s)) as [[h r]|] eqn:E.
  - apply match_header_shorter in E. simpl in *.
    do 2 f_equal. apply IH; lia.
  - simpl in *. apply IH; lia.
Qed.

(** A text that starts with a match: an empty piece, the match, and the
    pieces of what follows. *)
Lemma regex_split_at_match (s h r : jsstring) :
  match_header s = Some (h, r) ->
  regex_split s = [] :: h :: regex_split r.
Proof.
  intros E. pose proof (match_header_shorter s h r E) as Hlen.
  unfold regex_split. destruct s as [|c s]; [simpl in Hlen; lia|].
  rewrite (regex_split_from_fuel (S (length r)) (length (c :: s)) [] r)
    by lia.
  cbn [regex_split_from]. now rewrite E.
Qed.

Lemma no_match_before_tail (c : N) (s : jsstring) :
  no_match_before (length (c :: s)) (c :: s) ->
  no_match_before (length s) s.
Proof. intros H q Hq. apply (H (S q)). simpl. lia. Qed.

(** A text without a match is one piece. *)
Lemma regex_split_from_no_match (fuel : nat) :
  forall piece s,
    no_match_before (length s) s ->
    regex_split_from fuel piece s = [rev piece ++ s].
Proof.
  induction fuel as [|fuel IH]; intros piece s H; simpl; [reflexivity|].
  destruct s as [|c s]; [now rewrite app_nil_r|].
  pose proof (H 0) as H0. simpl in H0. rewrite H0 by lia.
  rewrite IH by now apply no_match_before_tail in H.
  simpl. now rewrite <- app_assoc.
Qed.

Lemma regex_split_no_match (s : jsstring) :
  no_match_before (length s) s -> regex_split s = [s].
Proof. intros H. now apply regex_split_from_no_match. Qed.


Lemma skipn_app_length {A} (a b : list A) : skipn (length a) (a ++ b) = b.
Proof. induction a; simpl; auto. Qed.

Lemma skipn_app_lt {A} (q : nat) (a b : list A) :
  q <= length a -> skipn q (a ++ b) = skipn q a ++ b.
Proof.
  intros H. rewrite skipn_app. replace (q - length a) with 0 by lia.
  reflexivity.
Qed.

Lemma regex_split_from_scanned (fuel : nat) :
  forall piece s,
    length s < fuel ->
    no_match_before (length piece) (rev piece ++ s) ->
    scanned (rev piece ++ s) (regex_split_from fuel piece s).
Proof.
  induction fuel as [|fuel IH]; intros piece s Hf Hp; [lia|]. simpl.
  destruct s as [|c s].
  - rewrite app_nil_r in *. apply scanned_end. now rewrite length_rev.
  - destruct (match_header (c :: s)) as [[h r]|] eqn:E.
    + pose proof (match_header_shorter _ _ _ E) as Hlen.
      pose proof (match_header_spec _ _ _ E) as (Es & _).
      rewrite Es in *. apply scanned_match.
      * now rewrite length_rev.
      * exact E.
      * apply (IH [] r); [simpl in *; lia|]. intros q Hq. simpl in Hq. lia.
    + replace (rev piece ++ c :: s) with (rev (c :: piece) ++ s)
        by (simpl; now rewrite <- app_assoc).
      apply IH; [simpl in *; lia|].
      intros q Hq. simpl in *. rewrite <- app_assoc. simpl.
      destruct (Nat.eq_dec q (length piece)) as [->|Hne].
      * rewrite <- (length_rev piece), skipn_app_length. exact E.
      * apply Hp. lia.
Qed.

Lemma regex_split_scanned (s : jsstring) : scanned s (regex_split s).
Proof.
  apply (regex_split_from_scanned (S (length s)) [] s); [lia|].
  intros q Hq. simpl in Hq. lia.
Qed.

Lemma no_match_before_prefix (b rest : jsstring) :
  no_match_before (length b) (b ++ rest) -> no_match_before (length b) b.
Proof.
  intros H q Hq. apply (match_header_mono _ rest).
  rewrite <- skipn_app_lt by lia. now apply H.
Qed.

(** A header followed by a body without a match is one whole hunk. *)
Lemma whole_hunk_intro (h b : jsstring) :
  header_text h -> at_line_end b -> no_match_before (length b) b ->
  whole_hunk (h ++ b).
Proof.
  intros Hh Hb Hn. exists h, b. split; [assumption|].
  rewrite (regex_split_at_match (h ++ b) h b)
    by now apply match_header_at_line_end.
  now rewrite regex_split_no_match.
Qed.

Lemma at_line_end_prefix (b rest : jsstring) :
  b <> [] -> at_line_end (b ++ rest) -> at_line_end b.
Proof. destruct b; [easy|]. intros _ H c Hc. now apply H. Qed.

(** After a header at the start, the pieces pair up into whole hunks
    that make up the text. *)
Lemma hunks_from_scanned (r : jsstring) (pieces : list jsstring) :
  scanned r pieces ->
  forall h,
    match_header (h ++ r) = Some (h, r) ->
    properHunks (filter nonempty (h :: pieces)) = hunks_from h pieces
    /\ Forall whole_hunk (hunks_from h pieces)
    /\ Forall (fun hunk => hunk <> []) (hunks_from h pieces)
    /\ concat (hunks_from h pieces) = h ++ r.
Proof.
  induction 1 as [s Hn|b h r pieces Hn Hm Hs IH]; intros h0 Hm0;
    pose proof (match_header_spec _ _ _ Hm0) as (_ & Hh0 & Hend);
    pose proof (header_text_nonempty _ Hh0) as Hne0.
  - assert (Hf : nonempty h0 = true) by now destruct h0.
    cbn [filter]. rewrite Hf. repeat split.
    + destruct s; simpl; [now rewrite app_nil_r|reflexivity].
    + simpl. constructor; [|constructor]. now apply whole_hunk_intro.
    + simpl. constructor; [|constructor]. now destruct h0.
    + simpl. now rewrite app_nil_r.
  - pose proof (match_header_spec _ _ _ Hm) as (_ & Hh & _).
    assert (Hb : b <> []).
    { intros ->. now apply (header_text_not_at_line_end h r) in Hend. }
    destruct (IH h Hm) as (I1 & I2 & I3 & I4).
    assert (Hf : nonempty h0 = true) by now destruct h0.
    assert (Hfb : nonempty b = true) by now destruct b.
    assert (E : hunks_from h0 (b :: h :: pieces)
                = (h0 ++ b) :: hunks_from h pieces) by reflexivity.
    rewrite E. repeat split.
    + cbn [filter]. rewrite Hf, Hfb. cbn [properHunks]. f_equal.
      exact I1.
    + constructor; [|assumption]. apply whole_hunk_intro.
      * assumption.
      * now apply (at_line_end_prefix b (h ++ r)).
      * now apply (no_match_before_prefix b (h ++ r)).
    + constructor; [|assumption]. now destruct h0.
    + simpl. rewrite I4. now rewrite <- !app_assoc.
Qed.

Transparent match_header.

End SplitFacts.

(* ------------------------------------------------------------------ *)
(** ** Packing hunks into chunks *)

Section PackFacts.

Opaque maxLinesPerChunk.

Lemma split_nl_from_length (s : jsstring) :
  forall piece,
    length (split_nl_from piece s) = S (count_occ N.eq_dec s 10%N).
Proof.
  induction s as [|c s IH]; intros piece; simpl; [reflexivity|].
  destruct (N.eqb_spec c 10) as [->|Hc].
  - simpl. rewrite IH. now destruct (N.eq_dec 10 10).
  - rewrite IH. now destruct (N.eq_dec c 10).
Qed.


Lemma hunkLines_pos (a : jsstring) : 0 < hunkLines a.
Proof. unfold hunkLines, split_nl. rewrite split_nl_from_length. lia. Qed.

Lemma lines_of_app (g1 g2 : list jsstring) :
  lines_of (g1 ++ g2) = lines_of g1 + lines_of g2.
Proof. unfold lines_of. now rewrite map_app, list_sum_app. Qed.

Lemma lines_of_single (hunk : jsstring) : lines_of [hunk] = hunkLines hunk.
Proof. unfold lines_of. simpl. lia. Qed.


Lemma nonempty_concat (g : list jsstring) :
  Forall (fun hunk => hunk <> []) g ->
  nonempty (concat g) = negb (is_nil g).
Proof.
  destruct 1 as [|a g Ha _]; [reflexivity|]. now destruct a.
Qed.

Lemma pack_step_in_step (filename hunk : jsstring)
  (gs : GroupState) (ps : PackState) :
  hunk <> [] ->
  in_step filename gs ps ->
  in_step filename (group_step gs hunk) (pack_step filename ps hunk).
Proof.
  intros Hh (H1 & H2 & H3 & H4). unfold group_step, pack_step.
  rewrite H2, H3, (nonempty_concat _ H4).
  change (match current gs with [] => true | _ :: _ => false end)
    with (is_nil (current gs)).
  destruct (_ && _); unfold in_step; simpl.
  - rewrite H1, map_app. simpl. rewrite app_nil_r.
    repeat split; try reflexivity.
    + now rewrite lines_of_single.
    + now constructor.
  - rewrite concat_app, lines_of_app, lines_of_single. simpl.
    rewrite app_nil_r.
    repeat split; try assumption.
    apply Forall_app. split; [assumption|now constructor].
Qed.

Lemma pack_loop_in_step (filename : jsstring) (hunks : list jsstring) :
  Forall (fun hunk => hunk <> []) hunks ->
  forall gs ps,
    in_step filename gs ps ->
    in_step filename (fold_left group_step hunks gs)
      (fold_left (pack_step filename) hunks ps).
Proof.
  induction 1 as [|hunk hunks Hh _ IH]; intros gs ps H; simpl; [assumption|].
  apply IH. now apply pack_step_in_step.
Qed.

Lemma pack_groups (filename : jsstring) (hunks : list jsstring) :
  Forall (fun hunk => hunk <> []) hunks ->
  pack_finish filename (fold_left (pack_step filename) hunks pack_init)
  = map (fun g => fileHeader filename ++ concat g) (groups_of hunks).
Proof.
  intros Hh.
  destruct (pack_loop_in_step filename hunks Hh
              {| closed := []; current := [] |} pack_init)
    as (H1 & H2 & H3 & H4).
  { repeat split. constructor. }
  unfold pack_finish, groups_of. rewrite H2, (nonempty_concat _ H4), H1.
  destruct (current _); simpl; [reflexivity|].
  rewrite map_app. reflexivity.
Qed.

Lemma within_ceiling_single (hunk : jsstring) : within_ceiling [hunk].
Proof.
  unfold within_ceiling.
  destruct (Nat.le_gt_cases (hunkLines hunk) maxLinesPerChunk) as [H|H].
  - left. now rewrite lines_of_single.
  - right. now exists hunk.
Qed.

Lemma group_step_packed (done : list jsstring) (st : GroupState)
  (hunk : jsstring) :
  packed done st -> packed (done ++ [hunk]) (group_step st hunk).
Proof.
  intros (H1 & H2 & H3 & H4 & H5 & H6). unfold group_step.
  destruct (Nat.ltb_spec maxLinesPerChunk
              (lines_of (current st) + hunkLines hunk)) as [Hlt|Hle];
    destruct (current st) as [|a cur] eqn:Ec; simpl;
    unfold packed; simpl.
  - (* nothing open yet: the hunk opens the first group *)
    rewrite (H6 eq_refl) in *. simpl in *. subst done.
    split; [reflexivity|]. split; [constructor|]. split; [constructor|].
    split; [right; apply within_ceiling_single|]. split; [|easy].
    intros i g1 g2 h Hg1 Hg2. simpl in Hg2. now destruct i.
  - (* the hunk does not fit: close the group, open the next *)
    rewrite concat_app. cbn [concat]. rewrite app_nil_r, H1.
    repeat split; try easy.
    + apply Forall_app. split; [assumption|]. now constructor.
    + apply Forall_app. split; [assumption|]. constructor; [|constructor].
      destruct H4 as [H4|H4]; [discriminate|assumption].
    + right. apply within_ceiling_single.
    + intros i g1 g2 h Hg1 Hg2 Hh.
      assert (Hlen : length (closed st ++ [a :: cur])
                     = S (length (closed st)))
        by (rewrite length_app; simpl; lia).
      destruct (Nat.lt_ge_cases (S i) (S (length (closed st)))) as [Hi|Hi].
      * rewrite nth_error_app1 in Hg1, Hg2 by lia.
        now apply (H5 i g1 g2 h).
      * rewrite nth_error_app2 in Hg2 by lia. rewrite Hlen in Hg2.
        assert (Ei : i = length (closed st)).
        { destruct (Nat.eq_dec i (length (closed st))); [assumption|].
          replace (S i - S (length (closed st)))
            with (S (i - S (length (closed st)))) in Hg2 by lia.
          simpl in Hg2. now destruct (i - S _) in Hg2. }
        subst i. rewrite Nat.sub_diag in Hg2. simpl in Hg2.
        injection Hg2 as <-. simpl in Hh. injection Hh as <-.
        rewrite nth_error_app1 in Hg1 by lia.
        rewrite nth_error_app2 in Hg1 by lia.
        rewrite Nat.sub_diag in Hg1. simpl in Hg1. now injection Hg1 as <-.
  - rewrite (H6 eq_refl) in *. simpl in *. subst done.
    split; [reflexivity|]. split; [constructor|]. split; [constructor|].
    split; [right; apply within_ceiling_single|]. split; [|easy].
    intros i g1 g2 h Hg1 Hg2. simpl in Hg2. now destruct i.
  - (* the hunk fits: it joins the open group *)
    change (a :: cur ++ [hunk]) with ((a :: cur) ++ [hunk]).
    rewrite app_assoc, H1.
    repeat split; try easy.
    + right. left.
      rewrite lines_of_app, lines_of_single. lia.
    + intros i g1 g2 h Hg1 Hg2 Hh.
      destruct (Nat.lt_ge_cases (S i) (length (closed st))) as [Hi|Hi].
      * rewrite nth_error_app1 in Hg1, Hg2 by lia.
        apply (H5 i g1 g2 h); try rewrite nth_error_app1 by lia; assumption.
      * rewrite nth_error_app2 in Hg2 by lia.
        assert (Ei : S i = length (closed st)).
        { destruct (Nat.eq_dec (S i) (length (closed st))); [assumption|].
          replace (S i - length (closed st))
            with (S (i - length (closed st))) in Hg2 by lia.
          simpl in Hg2. now destruct (i - _) in Hg2. }
        rewrite Ei, Nat.sub_diag in Hg2. simpl in Hg2.
        injection Hg2 as <-. simpl in Hh. injection Hh as <-.
        rewrite nth_error_app1 in Hg1 by lia.
        apply (H5 i g1 (a :: cur) a).
        -- rewrite nth_error_app1 by lia. assumption.
        -- rewrite nth_error_app2 by lia. now rewrite Ei, Nat.sub_diag.
        -- reflexivity.
Qed.

Lemma group_loop_packed (hunks : list jsstring) :
  forall done st,
    packed done st ->
    packed (done ++ hunks) (fold_left group_step hunks st).
Proof.
  induction hunks as [|hunk hunks IH]; intros done st H; simpl.
  - now rewrite app_nil_r.
  - replace (done ++ hunk :: hunks) with ((done ++ [hunk]) ++ hunks)
      by now rewrite <- app_assoc.
    apply IH. now apply group_step_packed.
Qed.

(** The groups are the hunks in order, none empty, each within the
    ceiling unless it is one hunk too big alone, and packed greedily. *)
Lemma groups_of_spec (hunks : list jsstring) :
  concat (groups_of hunks) = hunks
  /\ Forall (fun g => g <> []) (groups_of hunks)
  /\ Forall within_ceiling (groups_of hunks)
  /\ greedy (groups_of hunks).
Proof.
  destruct (group_loop_packed hunks [] {| closed := []; current := [] |})
    as (H1 & H2 & H3 & H4 & H5 & H6).
  { split; [reflexivity|]. split; [constructor|]. split; [constructor|].
    split; [now left|]. split; [|easy].
    intros i g1 g2 h Hg1 Hg2. simpl in Hg2. now destruct i. }
  simpl in H1. unfold groups_of.
  destruct (current _) as [|a cur] eqn:Ec.
  - rewrite (H6 eq_refl) in *. subst hunks. repeat split; try constructor.
    intros i g1 g2 h Hg1. now destruct i.
  - repeat split.
    + rewrite concat_app. simpl. now rewrite app_nil_r.
    + apply Forall_app. split; [assumption|]. now constructor.
    + apply Forall_app. split; [assumption|]. constructor; [|constructor].
      destruct H4 as [H4|H4]; [discriminate|assumption].
    + assumption.
Qed.

Transparent maxLinesPerChunk.

End PackFacts.

(* ------------------------------------------------------------------ *)
(** ** The patch chunker *)

Section ChunkerFacts.

Opaque maxLinesPerChunk match_header.

Lemma maxLinesPerChunk_pos : 0 < maxLinesPerChunk.
Proof. Transparent maxLinesPerChunk. unfold maxLinesPerChunk. lia. Qed.

Opaque maxLinesPerChunk.

Lemma scanned_length (s : jsstring) (pieces : list jsstring) :
  scanned s pieces -> exists k, length pieces = 2 * k + 1.
Proof.
  induction 1 as [s _|b h r pieces _ _ _ [k IH]].
  - now exists 0.
  - exists (S k). simpl. rewrite IH. lia.
Qed.

Lemma filter_nonempty_concat (l : list jsstring) :
  concat l <> [] -> filter nonempty l <> [].
Proof.
  induction l as [|a l IH]; simpl; [easy|].
  destruct a as [|c a]; simpl; [exact IH|easy].
Qed.

(** The test [hunks.length <= 1] succeeds when the pattern finds no
    boundary, and when the text is one header and nothing else. *)
Lemma fallback_taken (patch : jsstring) :
  boundaries patch = 0 \/ match_header patch = Some (patch, []) ->
  (length (filter nonempty (regex_split patch)) <=? 1) = true.
Proof.
  intros [H|H]; apply Nat.leb_le.
  - destruct (scanned_length _ _ (regex_split_scanned patch)) as [k Hk].
    unfold boundaries in H. rewrite Hk in H.
    replace (2 * k + 1 - 1) with (k * 2) in H by lia.
    rewrite Nat.div_mul in H by lia. subst k.
    destruct (regex_split patch) as [|a [|b l]]; try discriminate.
    simpl. destruct (nonempty a); simpl; lia.
  - rewrite (regex_split_at_match _ _ _ H).
    change (regex_split []) with [@nil N]. simpl.
    destruct (nonempty patch); simpl; lia.
Qed.

Lemma splitByLines_nth (filename patch : jsstring) (k : nat) :
  k < ceil_div (length (split_nl patch)) maxLinesPerChunk ->
  nth_error (splitByLines filename patch) k
  = Some (fileHeader filename
          ++ chunkMarker (k + 1)
               (ceil_div (length (split_nl patch)) maxLinesPerChunk)
          ++ join nl (slice (k * maxLinesPerChunk)
                        (k * maxLinesPerChunk + maxLinesPerChunk)
                        (split_nl patch))).
Proof.
  intros Hk. unfold splitByLines.
  rewrite loop_indices_eq by apply maxLinesPerChunk_pos.
  rewrite map_map, nth_error_map, nth_error_seq.
  destruct (Nat.ltb_spec k (ceil_div (length (split_nl patch))
                              maxLinesPerChunk)); [|lia].
  simpl. now rewrite Nat.div_mul by (pose proof maxLinesPerChunk_pos; lia).
Qed.

(** A text that starts with a header and goes on after it is packed by
    hunks: the chunks are the groups of its hunks. *)
Lemma splitLargeFilePatch_groups (filename patch h rest : jsstring) :
  match_header patch = Some (h, rest) ->
  rest <> [] ->
  let hunks := hunks_from h (regex_split rest) in
  splitLargeFilePatch filename patch
  = map (fun g => fileHeader filename ++ concat g) (groups_of hunks)
  /\ concat hunks = patch
  /\ Forall whole_hunk hunks.
Proof.
  intros Hm Hrest hunks.
  pose proof (match_header_spec _ _ _ Hm) as (Ep & Hh & _).
  pose proof (header_text_nonempty _ Hh) as Hne.
  assert (Hm' : match_header (h ++ rest) = Some (h, rest)) by now rewrite <- Ep.
  destruct (hunks_from_scanned rest (regex_split rest)
              (regex_split_scanned rest) h Hm') as (H1 & H2 & H3 & H4).
  split; [|split; [now rewrite Ep|assumption]].
  unfold splitLargeFilePatch.
  rewrite (regex_split_at_match _ _ _ Hm).
  change (filter nonempty ([] :: h :: regex_split rest))
    with (filter nonempty (h :: regex_split rest)).
  assert (Hlen : (length (filter nonempty (h :: regex_split rest)) <=? 1)
                 = false).
  { apply Nat.leb_gt. cbn [filter].
    replace (nonempty h) with true by now destruct h.
    pose proof (filter_nonempty_concat (regex_split rest)) as Hf.
    rewrite regex_split_concat in Hf. specialize (Hf Hrest).
    destruct (filter nonempty (regex_split rest)); [easy|simpl; lia]. }
  rewrite Hlen. unfold hunks. rewrite <- (pack_groups filename _ H3).
  exact (f_equal (fun x => pack_finish filename
                             (fold_left (pack_step filename) x pack_init))
           H1).
Qed.

Transparent match_header.

(** A text without [@] has no match. *)
Lemma match_header_needs_at (s : jsstring) :
  hd_error s <> Some 64%N -> match_header s = None.
Proof.
  destruct s as [|c s]; [reflexivity|]. intros H.
  assert (E : strip_prefix (lit "@@ -") (c :: s) = None).
  { change (lit "@@ -") with (64%N :: lit "@ -"). cbn [strip_prefix].
    destruct (N.eqb_spec 64 c) as [<-|]; [now destruct H|reflexivity]. }
  unfold match_header. now rewrite E.
Qed.

Lemma no_match_without_at (s : jsstring) :
  Forall (fun c => c <> 64%N) s -> no_match_before (length s) s.
Proof.
  intros H q _. apply match_header_needs_at.
  assert (Hs : Forall (fun c => c <> 64%N) (skipn q s)).
  { rewrite <- (firstn_skipn q s) in H. now apply Forall_app in H. }
  destruct Hs as [|c l Hc _]; [discriminate|]. simpl. congruence.
Qed.

Lemma plus_lines_no_at (n : nat) : Forall (fun c => c <> 64%N) (plus_lines n).
Proof.
  induction n as [|n IH]; [constructor|].
  change (plus_lines (S n)) with ((nl ++ lit "+x") ++ plus_lines n).
  apply Forall_app. split; [|exact IH].
  repeat (constructor; [discriminate|]). constructor.
Qed.

Lemma plus_lines_count (n : nat) :
  count_occ N.eq_dec (plus_lines n) 10%N = n.
Proof.
  induction n as [|n IH]; [reflexivity|].
  change (plus_lines (S n)) with ((nl ++ lit "+x") ++ plus_lines n).
  now rewrite count_occ_app, IH.
Qed.

Lemma long_header_text : header_text long_header.
Proof.
  exists (lit "1"), (lit "1"), (lit "1"), (lit "5000"), [].
  split; [reflexivity|].
  repeat split; try discriminate; repeat constructor.
Qed.

(** One hunk of [n + 1] lines: one boundary, one chunk holding the hunk
    as it is; the windows would be [ceil ((n + 1) / 5000)]. *)
Lemma long_hunk_facts (filename : jsstring) (n : nat) :
  0 < n ->
  boundaries (long_header ++ plus_lines n) = 1
  /\ length (split_nl (long_header ++ plus_lines n)) = S n
  /\ splitLargeFilePatch filename (long_header ++ plus_lines n)
     = [fileHeader filename ++ long_header ++ plus_lines n]
  /\ length (splitByLines filename (long_header ++ plus_lines n))
     = ceil_div (length (split_nl (long_header ++ plus_lines n)))
         maxLinesPerChunk.
Proof.
  intros Hn.
  assert (Hend : at_line_end (plus_lines n)).
  { destruct n; [lia|]. intros c Hc. unfold plus_lines in Hc. simpl in Hc.
    now injection Hc as <-. }
  assert (Hne : plus_lines n <> []) by (destruct n; [lia|discriminate]).
  pose proof (no_match_without_at _ (plus_lines_no_at n)) as Hno.
  assert (Hm : match_header (long_header ++ plus_lines n)
               = Some (long_header, plus_lines n))
    by (apply match_header_at_line_end; [apply long_header_text|assumption]).
  assert (Hs : regex_split (long_header ++ plus_lines n)
               = [[]; long_header; plus_lines n]).
  { rewrite (regex_split_at_match _ _ _ Hm).
    now rewrite regex_split_no_match. }
  split; [unfold boundaries; now rewrite Hs|]. split.
  - unfold split_nl. rewrite split_nl_from_length, count_occ_app.
    now rewrite plus_lines_count.
  - split.
    + destruct (splitLargeFilePatch_groups filename _ _ _ Hm Hne)
        as (E & _). rewrite E. rewrite regex_split_no_match by assumption.
      unfold groups_of. simpl. unfold group_step. simpl.
      rewrite andb_false_r. simpl. now rewrite !app_nil_r.
    + unfold splitByLines. rewrite length_map.
      apply loop_indices_length, maxLinesPerChunk_pos.
Qed.

Transparent maxLinesPerChunk.

End ChunkerFacts.


(** C3, as the code has it. When the pattern finds no hunk boundary in
    the patch text, or the text is one header line and nothing else,
    [splitLargeFilePatch] is [splitByLines]: as many chunks as the
    number of lines divided by 5000, rounded up; the [k]-th chunk is the
    synthetic file header, the marker [@@ Chunk k/total @@] and the
    [k]-th window of 5000 lines; and the windows are the lines of the
    patch. *)
Theorem splitLargeFilePatch_falls_back (filename patch : jsstring) :
  boundaries patch = 0 \/ match_header patch = Some (patch, []) ->
  let lines := split_nl patch in
  let total := ceil_div (length lines) maxLinesPerChunk in
  splitLargeFilePatch filename patch = splitByLines filename patch
  /\ length (splitByLines filename patch) = total
  /\ (forall k, k < total ->
        nth_error (splitByLines filename patch) k
        = Some (fileHeader filename ++ chunkMarker (k + 1) total
                ++ join nl (slice (k * maxLinesPerChunk)
                              (k * maxLinesPerChunk + maxLinesPerChunk)
                              lines)))
  /\ concat (map (fun i => slice i (i + maxLinesPerChunk) lines)
               (loop_indices maxLinesPerChunk (length lines))) = lines.
Proof.
  intros H lines total. split; [|split; [|split]].
  - unfold splitLargeFilePatch. now rewrite fallback_taken.
  - unfold splitByLines. rewrite length_map.
    apply loop_indices_length, maxLinesPerChunk_pos.
  - intros k Hk. now apply splitByLines_nth.
  - apply slices_concat, maxLinesPerChunk_pos.
Qed.

(* ------------------------------------------------------------------ *)
(** ** The run's state *)

Section RunFacts.

Lemma process_file_state (r : Run) (file : ChangedFile) :
  fst (process_file r file) = track (filename file) r.
Proof.
  unfold process_file. destruct (patch file) as [p|]; [|reflexivity].
  destruct (nonempty p); [|reflexivity].
  now destruct (15000 <? N.of_nat (length (split_nl p)))%N.
Qed.

Lemma process_all_state (batch : list ChangedFile) :
  forall r, fst (process_all r batch) = track_all (map filename batch) r.
Proof.
  induction batch as [|file batch IH]; intros r; simpl; [reflexivity|].
  pose proof (process_file_state r file) as E.
  destruct (process_file r file) as [r1 text]. simpl in E. subst r1.
  specialize (IH (track (filename file) r)).
  now destruct (process_all (track (filename file) r) batch).
Qed.

Lemma process_batch_state (files : list ChangedFile) (r : Run)
  (d : jsstring) (i : nat) :
  fst (process_batch files (r, d) i) = batch_state files r i
  /\ exists text, snd (process_batch files (r, d) i) = d ++ text.
Proof.
  unfold process_batch, batch_state.
  pose proof (process_all_state
                (slice i (i + Assembler.batchSize) files) r) as E.
  destruct (process_all r _) as [r1 texts]. simpl in E. subst r1.
  split; [reflexivity|]. now eexists.
Qed.

(** The batch loop: its effect on the state, and the text it adds after
    the text it started from. *)
Lemma batch_loop_state (files : list ChangedFile) (idx : list nat) :
  forall r d,
    fst (fold_left (process_batch files) idx (r, d))
    = fold_left (batch_state files) idx r
    /\ exists text,
         snd (fold_left (process_batch files) idx (r, d)) = d ++ text.
Proof.
  induction idx as [|i idx IH]; intros r d; cbn [fold_left].
  - split; [reflexivity|]. exists []. simpl. now rewrite app_nil_r.
  - destruct (process_batch_state files r d i) as (E1 & text & E2).
    destruct (process_batch files (r, d) i) as [r1 d1]. simpl in E1, E2.
    subst r1 d1. destruct (IH (batch_state files r i) (d ++ text))
      as (I1 & text' & I2).
    split; [assumption|]. exists (text ++ text').
    now rewrite I2, app_assoc.
Qed.

Lemma steps_app (R : ReviewProgress -> ReviewProgress -> Prop)
  (p q s : ReviewProgress) (l1 l2 : list ReviewProgress) :
  steps R p l1 q -> steps R q l2 s -> steps R p (l1 ++ l2) s.
Proof.
  induction 1 as [p|p q' l p' HR _ IH]; simpl; [easy|].
  intros H. constructor; [assumption|now apply IH].
Qed.

Lemma steps_impl (R R' : ReviewProgress -> ReviewProgress -> Prop)
  (p q : ReviewProgress) (l : list ReviewProgress) :
  (forall a b, R a b -> R' a b) -> steps R p l q -> steps R' p l q.
Proof. intros HR. induction 1; constructor; auto. Qed.

Lemma work_op_session_op (p q : ReviewProgress) :
  work_op p q -> session_op p q.
Proof. destruct 1; constructor. Qed.

Lemma reached_refl (r : Run) : reached [] r r.
Proof.
  unfold reached. rewrite !app_nil_r. repeat split.
  exists []. rewrite app_nil_r. split; [reflexivity|constructor].
Qed.

Lemma reached_trans (n1 n2 : list jsstring) (r r' r'' : Run) :
  reached n1 r r' -> reached n2 r' r'' -> reached (n1 ++ n2) r r''.
Proof.
  intros (A1 & A2 & l1 & A3 & A4) (B1 & B2 & l2 & B3 & B4).
  unfold reached. rewrite B1, A1, B2, A2, !app_assoc. repeat split.
  exists (l1 ++ l2). rewrite B3, A3, app_assoc. split; [reflexivity|].
  now apply (steps_app _ _ (progress r')).
Qed.

Lemma reached_track (name : jsstring) (r : Run) :
  reached [name] r (track name r).
Proof.
  unfold reached, track. simpl. repeat split.
  eexists. split; [reflexivity|].
  constructor; [apply work_push|constructor].
Qed.

Lemma reached_track_all (names : list jsstring) :
  forall r, reached names r (track_all names r).
Proof.
  induction names as [|name names IH]; intros r; simpl.
  - apply reached_refl.
  - apply (reached_trans [name] names _ (track name r)).
    + apply reached_track.
    + apply IH.
Qed.

Lemma reached_batch (files : list ChangedFile) (r : Run) (i : nat) :
  reached (map filename (slice i (i + Assembler.batchSize) files)) r
    (batch_state files r i).
Proof.
  unfold batch_state.
  set (names := map filename (slice i (i + Assembler.batchSize) files)).
  set (n := currentBatch (progress r) + i / Assembler.batchSize + 1).
  rewrite <- (app_nil_r names).
  apply (reached_trans names [] _ (track_all names r)).
  - apply reached_track_all.
  - unfold reached. simpl. rewrite !app_nil_r. repeat split.
    eexists. split; [reflexivity|].
    constructor; [apply work_batch|constructor].
Qed.

Lemma reached_batch_loop (files : list ChangedFile) (idx : list nat) :
  forall r,
    reached
      (map filename
         (concat (map (fun i => slice i (i + Assembler.batchSize) files) idx)))
      r (fold_left (batch_state files) idx r).
Proof.
  induction idx as [|i idx IH]; intros r; simpl.
  - apply reached_refl.
  - rewrite map_app.
    apply (reached_trans _ _ _ (batch_state files r i)).
    + apply reached_batch.
    + apply IH.
Qed.

(** The whole batch loop handles the files to process, each once and in
    order. *)
Lemma reached_all (files : list ChangedFile) (r : Run) :
  reached (map filename files) r
    (fold_left (batch_state files)
       (loop_indices Assembler.batchSize (length files)) r).
Proof.
  pose proof (reached_batch_loop files
                (loop_indices Assembler.batchSize (length files)) r) as H.
  rewrite slices_concat in H by (unfold Assembler.batchSize; lia).
  exact H.
Qed.

End RunFacts.

(* ------------------------------------------------------------------ *)
(** ** The assembled run *)

Section AssembleFacts.

Lemma steps_work_bounds (p p' : ReviewProgress) (l : list ReviewProgress) :
  steps work_op p l p' ->
  totalFiles p' = totalFiles p
  /\ completed p' = completed p
  /\ prNumber p' = prNumber p
  /\ repository p' = repository p
  /\ length (processedFiles p) <= length (processedFiles p')
  /\ Forall (fun q => totalFiles q = totalFiles p
                      /\ length (processedFiles q)
                         <= length (processedFiles p')) l.
Proof.
  induction 1 as [p|p q l p' HR _ (I1 & I2 & I3 & I4 & I5 & I6)].
  - repeat split; try lia. constructor.
  - assert (Hq : totalFiles q = totalFiles p /\ completed q = completed p
                 /\ prNumber q = prNumber p /\ repository q = repository p
                 /\ length (processedFiles p) <= length (processedFiles q)).
    { destruct HR; simpl; repeat split; try lia.
      rewrite length_app; simpl; lia. }
    destruct Hq as (Q1 & Q2 & Q3 & Q4 & Q5).
    repeat split; try congruence; try lia.
    constructor; [split; [assumption|lia]|].
    eapply Forall_impl; [|exact I6]. intros x [X1 X2]. split; congruence.
Qed.

Lemma work_items_nonempty (env : Env) (files : list ChangedFile) :
  files <> [] -> work_items env files <> [].
Proof.
  unfold work_items. destruct (LOCAL_TESTING env); [|easy].
  now destruct files.
Qed.

Lemma reconstruct_total (n : nat) (p : ReviewProgress) :
  reconstructDiffFromProgress (set_totalFiles n p)
  = reconstructDiffFromProgress p.
Proof. reflexivity. Qed.

(** The run from the chosen session object on: the states of the session
    follow one another by session operations; the files handled are the
    work items (on resume, those not yet recorded as processed), each
    once and in order, and their names are appended to the processed
    list; on resume the text starts with the reconstruction of prior
    progress. *)
Lemma assemble_spec (env : Env) (resume : bool) (progress0 : ReviewProgress)
  (fs1 : FileSystem) (files : list ChangedFile) :
  completed progress0 = false ->
  let items := work_items env files in
  let p1 := if LOCAL_TESTING env
            then set_totalFiles (length items) progress0 else progress0 in
  let todo := if resume then remaining progress0 items else items in
  let out := assemble env resume progress0 fs1 files in
  exists final tail text,
    session out = Some final
    /\ snapshots out = progress0 :: tail
    /\ steps session_op progress0 tail final
    /\ fetched out = map filename todo
    /\ processedFiles final = processedFiles progress0 ++ map filename todo
    /\ diff out
       = (if resume then reconstructDiffFromProgress progress0 else [])
         ++ text
    /\ Forall (fun q => totalFiles q = totalFiles p1
                        /\ length (processedFiles q)
                           <= length (processedFiles progress0)
                              + length todo) tail
    /\ prNumber final = prNumber progress0
    /\ repository final = repository progress0.
Proof.
  intros Hc items p1 todo out.
  set (r0 := {| progress := progress0; fs := fs1;
                history := [progress0]; handled := [] |}).
  set (r1 := if LOCAL_TESTING env
             then mutate (set_totalFiles (length items)) r0 else r0).
  assert (Hr1 : progress r1 = p1 /\ handled r1 = []
                /\ exists pre, history r1 = progress0 :: pre
                     /\ steps session_op progress0 pre p1
                     /\ Forall (fun q => totalFiles q = totalFiles p1
                                /\ length (processedFiles q)
                                   <= length (processedFiles progress0)
                                      + length todo) pre).
  { unfold r1, p1. destruct (LOCAL_TESTING env); simpl.
    - repeat split. eexists. split; [reflexivity|]. split.
      + constructor; [now apply op_total|constructor].
      + constructor; [simpl; split; [reflexivity|lia]|constructor].
    - repeat split. exists []. repeat split; constructor. }
  destruct Hr1 as (Hp1 & Hh1 & pre & Hpre & Hsteps & Hbound).
  assert (Hproc : processedFiles p1 = processedFiles progress0)
    by (unfold p1; now destruct (LOCAL_TESTING env)).
  assert (Hpr : prNumber p1 = prNumber progress0
                /\ repository p1 = repository progress0)
    by (unfold p1; now destruct (LOCAL_TESTING env)).
  assert (Hrec : reconstructDiffFromProgress p1
                 = reconstructDiffFromProgress progress0)
    by (unfold p1; now destruct (LOCAL_TESTING env)).
  assert (Hout : out
    = if length todo =? 0
      then finish (reconstructDiffFromProgress (progress r1)) r1
      else
        let combined0 :=
          if resume then reconstructDiffFromProgress (progress r1)
          else [] in
        let (r2, combinedDiff) :=
          fold_left (process_batch todo)
            (loop_indices Assembler.batchSize (length todo))
            (r1, combined0) in
        let r3 :=
          if totalFiles (progress r2)
             <=? length (processedFiles (progress r2))
          then save (mutate (mark_completed (endTime env)) r2)
          else r2 in
        finish combinedDiff r3).
  { unfold out, assemble.
    change (if LOCAL_TESTING env then slice 0 20 files else files)
      with items.
    fold r0. fold r1. rewrite Hp1, Hproc. reflexivity. }
  rewrite Hout. clear Hout.
  destruct (Nat.eqb_spec (length todo) 0) as [Hz|Hnz].
  - apply length_zero_iff_nil in Hz. rewrite Hz. simpl.
    exists p1, pre, (if resume then [] else reconstructDiffFromProgress p1).
    rewrite Hp1, Hpre, Hh1, Hrec, app_nil_r.
    repeat split; try easy.
    + destruct resume; simpl; now rewrite ?app_nil_r, ?Hrec.
    + now rewrite Hz in Hbound.
  - cbv zeta.
    destruct (batch_loop_state todo
                (loop_indices Assembler.batchSize (length todo)) r1
                (if resume then reconstructDiffFromProgress (progress r1)
                 else [])) as (E1 & text & E2).
    pose proof (reached_all todo r1) as (R1 & R2 & l & R3 & R4).
    destruct (fold_left (process_batch todo) _ _) as [r2 combinedDiff].
    simpl in E1, E2. rewrite <- E1 in R1, R2, R3, R4. clear E1.
    rewrite Hp1 in *. rewrite Hrec in E2. subst combinedDiff.
    destruct (steps_work_bounds _ _ _ R4) as (W1 & W2 & W3 & W4 & W5 & W6).
    assert (Hlen : length (processedFiles (progress r2))
                   = length (processedFiles progress0) + length todo)
      by (rewrite R1, Hproc, length_app, length_map; reflexivity).
    destruct (Nat.leb_spec (totalFiles (progress r2))
                (length (processedFiles (progress r2)))) as [Hle|Hgt].
    + exists (mark_completed (endTime env) (progress r2)),
        (pre ++ l ++ [mark_completed (endTime env) (progress r2)]), text.
      simpl. rewrite R3, Hpre, R2, Hh1, R1, Hproc. simpl.
      rewrite <- !app_assoc.
      repeat split; try easy; try (destruct Hpr; congruence).
      * apply (steps_app _ _ p1); [assumption|].
        apply (steps_app _ _ (progress r2)).
        -- now apply (steps_impl work_op); [apply work_op_session_op|].
        -- constructor; [now apply op_complete|constructor].
      * apply Forall_app. split; [assumption|]. apply Forall_app. split.
        -- eapply Forall_impl; [|exact W6]. intros q [Q1 Q2]. split; lia.
        -- constructor; [simpl; split; lia|constructor].
    + exists (progress r2), (pre ++ l), text.
      simpl. rewrite R3, Hpre, R2, Hh1, R1, Hproc. simpl.
      repeat split; try easy; try (destruct Hpr; congruence).
      * apply (steps_app _ _ p1); [assumption|].
        now apply (steps_impl work_op); [apply work_op_session_op|].
      * apply Forall_app. split; [assumption|].
        eapply Forall_impl; [|exact W6]. intros q [Q1 Q2]. split; lia.
Qed.

End AssembleFacts.

(* ------------------------------------------------------------------ *)
(** ** Resuming and starting afresh *)

Section SessionFacts.

Lemma in_processed (name : jsstring) (l : list jsstring) :
  existsb (str_eqb name) l = true <-> In name l.
Proof.
  rewrite existsb_exists. split.
  - intros (x & Hin & Hx). apply str_eqb_eq in Hx. now subst.
  - intros H. exists name. split; [assumption|apply str_eqb_refl].
Qed.

(** The files still to handle are as many as the work items less the
    processed ones, when the processed names are distinct names of
    distinct work items. *)
Lemma remaining_count (p : ReviewProgress) (items : list ChangedFile) :
  NoDup (map filename items) ->
  NoDup (processedFiles p) ->
  incl (processedFiles p) (map filename items) ->
  length (remaining p items) + length (processedFiles p) = length items.
Proof.
  intros Hn Hp Hi. unfold remaining.
  pose proof (filter_length
                (fun file => existsb (str_eqb (filename file))
                               (processedFiles p)) items) as Hf.
  simpl in Hf.
  assert (Hq : length (filter (fun file =>
                         existsb (str_eqb (filename file))
                           (processedFiles p)) items)
               = length (processedFiles p)).
  { rewrite <- (length_map filename).
    rewrite <- (filter_map_swap
                  (fun name => existsb (str_eqb name) (processedFiles p))).
    apply Nat.le_antisymm.
    - apply NoDup_incl_length; [now apply NoDup_filter|].
      intros x Hx. apply filter_In in Hx as [_ Hx]. now apply in_processed.
    - apply NoDup_incl_length; [assumption|].
      intros x Hx. apply filter_In. split; [now apply Hi|].
      now apply in_processed. }
  lia.
Qed.

Lemma remaining_fresh (p : ReviewProgress) (items : list ChangedFile)
  (name : jsstring) :
  In name (map filename (remaining p items)) -> ~ In name (processedFiles p).
Proof.
  intros H Hin. apply in_map_iff in H as (file & <- & Hf).
  apply filter_In in Hf as [_ Hf]. apply negb_true_iff in Hf.
  apply in_processed in Hin. congruence.
Qed.

Lemma steps_adjacent (R : ReviewProgress -> ReviewProgress -> Prop)
  (p p' : ReviewProgress) (l : list ReviewProgress) :
  steps R p l p' ->
  forall i a b,
    nth_error (p :: l) i = Some a -> nth_error (p :: l) (S i) = Some b ->
    R a b.
Proof.
  induction 1 as [p|p q l p' HR _ IH]; intros i a b Ha Hb.
  - destruct i; simpl in Hb; [discriminate|now destruct i].
  - destruct i as [|i].
    + simpl in Ha, Hb. now injection Ha as <-; injection Hb as <-.
    + now apply (IH i).
Qed.

Lemma session_op_grows (p q : ReviewProgress) :
  session_op p q ->
  length (processedFiles p) <= length (processedFiles q).
Proof.
  destruct 1; simpl; try lia. rewrite length_app. simpl. lia.
Qed.

(** A session is flagged complete only with all its files processed. *)
Lemma session_op_completed (p q : ReviewProgress) :
  session_op p q ->
  (completed p = true -> totalFiles p <= length (processedFiles p)) ->
  completed q = true -> totalFiles q <= length (processedFiles q).
Proof.
  destruct 1 as [name p|n p|n p Hc|now p Hle]; simpl; intros Hp Hq.
  - rewrite length_app. specialize (Hp Hq). simpl. lia.
  - now apply Hp.
  - congruence.
  - assumption.
Qed.

Lemma steps_completed (p p' : ReviewProgress) (l : list ReviewProgress) :
  steps session_op p l p' ->
  (completed p = true -> totalFiles p <= length (processedFiles p)) ->
  Forall (fun q => completed q = true ->
                   totalFiles q <= length (processedFiles q)) l.
Proof.
  induction 1 as [p|p q l p' HR _ IH]; intros Hp; constructor.
  - now apply (session_op_completed p q).
  - apply IH. now apply (session_op_completed p q).
Qed.

Lemma shouldResume_spec (p : ReviewProgress) (pull_number : float)
  (repository : jsstring) :
  shouldResume (Some p) pull_number repository = true <->
  strict_eq (prNumber p) pull_number = true
  /\ Data.repository p = repository
  /\ completed p = false.
Proof.
  unfold shouldResume. rewrite !andb_true_iff, str_eqb_eq, negb_true_iff.
  tauto.
Qed.

(** The run of a resumed session is [assemble] on the stored record. *)
Lemma run_resumed (env : Env) (owner repo : jsstring) (pull_number : float)
  (fs0 : FileSystem) (p : ReviewProgress) (files : list ChangedFile) :
  loadProgress fs0 = Some p ->
  shouldResume (Some p) pull_number (owner ++ lit "/" ++ repo) = true ->
  listFiles env = Some files ->
  files <> [] ->
  getIndividualFileDiffs env owner repo pull_number fs0
  = assemble env true p fs0 files.
Proof.
  intros Hl Hr Hf Hne. unfold getIndividualFileDiffs, resumeDecision.
  rewrite Hl, Hr, Hf. destruct files; [easy|reflexivity].
Qed.

(** The run of a session that is not resumed is [assemble] on a new
    record, after an unusable stored record has been cleared. *)
Lemma run_fresh (env : Env) (owner repo : jsstring) (pull_number : float)
  (fs0 : FileSystem) (files : list ChangedFile) :
  shouldResume (loadProgress fs0) pull_number (owner ++ lit "/" ++ repo)
  = false ->
  listFiles env = Some files ->
  files <> [] ->
  getIndividualFileDiffs env owner repo pull_number fs0
  = assemble env false
      (createInitialProgress pull_number (owner ++ lit "/" ++ repo)
         (length files) (startTime env))
      (match loadProgress fs0 with
       | Some _ => clearProgress fs0
       | None => fs0
       end)
      files.
Proof.
  intros Hr Hf Hne. unfold getIndividualFileDiffs, resumeDecision.
  rewrite Hr, Hf. destruct files; [easy|].
  now destruct (loadProgress fs0).
Qed.

End SessionFacts.

(** C4. A run that finds a stored session for its own repository and
    change-set number, not yet complete, whose [K] processed names are
    distinct names of the run's [N] distinct work items, handles the
    work items whose names are not among the processed ones and no
    other: [N - K] files, none of them one of the [K]. The text it
    returns starts with the reconstruction of the stored progress, and
    the processed list ends as the stored one followed by the names
    handled, [N] names in all. *)
Theorem resume_processes_remaining
  (env : Env) (owner repo : jsstring) (pull_number : float)
  (fs0 : FileSystem) (p : ReviewProgress) (files : list ChangedFile) :
  progress_file fs0 = Saved p ->
  strict_eq (prNumber p) pull_number = true ->
  repository p = owner ++ lit "/" ++ repo ->
  completed p = false ->
  listFiles env = Some files ->
  files <> [] ->
  let items := work_items env files in
  NoDup (map filename items) ->
  NoDup (processedFiles p) ->
  incl (processedFiles p) (map filename items) ->
  let out := getIndividualFileDiffs env owner repo pull_number fs0 in
  fetched out = map filename (remaining p items)
  /\ (forall name, In name (fetched out) -> ~ In name (processedFiles p))
  /\ length (fetched out) = length items - length (processedFiles p)
  /\ (exists text, diff out = reconstructDiffFromProgress p ++ text)
  /\ (exists final,
        session out = Some final
        /\ processedFiles final = processedFiles p ++ fetched out
        /\ length (processedFiles final) = length items).
Proof.
  intros Hfile Hnum Hrepo Hc Hlist Hne items Hn Hp Hi out.
  assert (Hl : loadProgress fs0 = Some p)
    by (unfold loadProgress; now rewrite Hfile).
  assert (Hr : shouldResume (Some p) pull_number (owner ++ lit "/" ++ repo)
               = true) by now apply shouldResume_spec.
  unfold out. rewrite (run_resumed env owner repo pull_number fs0 p files)
    by assumption.
  destruct (assemble_spec env true p fs0 files Hc)
    as (final & tail & text & A1 & A2 & A3 & A4 & A5 & A6 & A7 & A8 & A9).
  fold items in A4, A5, A7.
  pose proof (remaining_count p items Hn Hp Hi) as Hcount.
  rewrite A4. split; [reflexivity|]. split; [apply remaining_fresh|].
  split; [rewrite length_map; lia|]. split; [now exists text|].
  exists final. repeat split; try assumption.
  rewrite A5, length_app, length_map. lia.
Qed.


(* ------------------------------------------------------------------ *)
(** ** The session across a run *)

Section LifetimeFacts.

(** A run leaves no session state at all, or it is [assemble] on the
    stored record it resumes, or on a new record. *)
Lemma run_cases (env : Env) (owner repo : jsstring) (pull_number : float)
  (fs0 : FileSystem) :
  let repository := owner ++ lit "/" ++ repo in
  let out := getIndividualFileDiffs env owner repo pull_number fs0 in
  snapshots out = []
  \/ (exists files p,
        listFiles env = Some files /\ files <> []
        /\ loadProgress fs0 = Some p
        /\ shouldResume (Some p) pull_number repository = true
        /\ out = assemble env true p fs0 files)
  \/ (exists files fs1,
        listFiles env = Some files /\ files <> []
        /\ shouldResume (loadProgress fs0) pull_number repository = false
        /\ out = assemble env false
                   (createInitialProgress pull_number repository
                      (length files) (startTime env)) fs1 files).
Proof.
  intros repository out.
  destruct (listFiles env) as [files|] eqn:Hf.
  - destruct files as [|file files].
    + left. unfold out, getIndividualFileDiffs. rewrite Hf.
      now destruct (resumeDecision _ _ _).
    + destruct (shouldResume (loadProgress fs0) pull_number repository)
        eqn:Hr.
      * right. left. destruct (loadProgress fs0) as [p|] eqn:Hl;
          [|discriminate].
        exists (file :: files), p. repeat split; try easy.
        now apply run_resumed.
      * right. right. eexists (file :: files), _. repeat split; try easy.
        now apply run_fresh.
  - left. unfold out, getIndividualFileDiffs. rewrite Hf.
    now destruct (resumeDecision _ _ _).
Qed.

Lemma work_items_fresh_total (env : Env) (files : list ChangedFile)
  (p : ReviewProgress) :
  totalFiles p = length files ->
  totalFiles (if LOCAL_TESTING env
              then set_totalFiles (length (work_items env files)) p else p)
  = length (work_items env files).
Proof.
  unfold work_items. now destruct (LOCAL_TESTING env).
Qed.

End LifetimeFacts.

(** C6, as the code has it. Across the operations that a run applies to
    its session object, the number of processed files never decreases,
    and a state flagged complete has at least [totalFiles] processed
    files. In a session that the run creates, the number of processed
    files never exceeds [totalFiles]; in a resumed session it does not
    either, provided the stored record respects the bound, its processed
    names are distinct names of the run's distinct work items, and
    (outside local testing) its [totalFiles] is the number of those
    work items. Posting comments changes none of the three fields in the
    stored record. *)
Theorem session_progress_bounds
  (env : Env) (owner repo : jsstring) (pull_number : float)
  (fs0 : FileSystem) :
  let repository := owner ++ lit "/" ++ repo in
  let out := getIndividualFileDiffs env owner repo pull_number fs0 in
  let snaps := snapshots out in
  (forall i p q,
     nth_error snaps i = Some p -> nth_error snaps (S i) = Some q ->
     session_op p q
     /\ length (processedFiles p) <= length (processedFiles q))
  /\ (forall q, In q snaps -> completed q = true ->
                totalFiles q <= length (processedFiles q))
  /\ (shouldResume (loadProgress fs0) pull_number repository = false ->
      forall q, In q snaps -> length (processedFiles q) <= totalFiles q)
  /\ (forall p files,
        loadProgress fs0 = Some p ->
        shouldResume (Some p) pull_number repository = true ->
        listFiles env = Some files ->
        let items := work_items env files in
        NoDup (map filename items) ->
        NoDup (processedFiles p) ->
        incl (processedFiles p) (map filename items) ->
        length (processedFiles p) <= totalFiles p ->
        (LOCAL_TESTING env = false -> totalFiles p = length items) ->
        forall q, In q snaps -> length (processedFiles q) <= totalFiles q)
  /\ (forall (GitHub : Type)
        (createReview : GitHub -> list ReviewComment -> GitHub * ApiOutcome)
        local gh comments p,
        loadProgress fs0 = Some p ->
        exists p',
          loadProgress
            (stored (postReviewComments createReview local fs0 gh comments))
          = Some p'
          /\ processedFiles p' = processedFiles p
          /\ totalFiles p' = totalFiles p
          /\ completed p' = completed p).
Proof.
  intros repository out snaps.
  assert (Hrun : snaps = []
            \/ exists resume progress0 files final tail,
                 completed progress0 = false
                 /\ (resume = true ->
                     loadProgress fs0 = Some progress0
                     /\ listFiles env = Some files
                     /\ shouldResume (Some progress0) pull_number repository
                        = true)
                 /\ (resume = false ->
                     totalFiles progress0 = length files
                     /\ processedFiles progress0 = []
                     /\ shouldResume (loadProgress fs0) pull_number
                          repository = false)
                 /\ snaps = progress0 :: tail
                 /\ steps session_op progress0 tail final
                 /\ Forall (fun q =>
                      totalFiles q
                      = totalFiles (if LOCAL_TESTING env
                                    then set_totalFiles
                                           (length (work_items env files))
                                           progress0
                                    else progress0)
                      /\ length (processedFiles q)
                         <= length (processedFiles progress0)
                            + length (if resume
                                      then remaining progress0
                                             (work_items env files)
                                      else work_items env files)) tail).
  { destruct (run_cases env owner repo pull_number fs0)
      as [H|[(files & p & Hf & Hne & Hl & Hr & E)
            |(files & fs1 & Hf & Hne & Hr & E)]].
    - now left.
    - right. pose proof (proj1 (shouldResume_spec _ _ _) Hr) as (_ & _ & Hc).
      destruct (assemble_spec env true p fs0 files Hc)
        as (final & tail & text & A1 & A2 & A3 & A4 & A5 & A6 & A7 & _).
      exists true, p, files, final, tail.
      unfold snaps, out. fold repository. rewrite E.
      repeat split; try easy.
    - right.
      destruct (assemble_spec env false
                  (createInitialProgress pull_number repository
                     (length files) (startTime env)) fs1 files eq_refl)
        as (final & tail & text & A1 & A2 & A3 & A4 & A5 & A6 & A7 & _).
      exists false, (createInitialProgress pull_number repository
                       (length files) (startTime env)),
        files, final, tail.
      unfold snaps, out. fold repository. rewrite E.
      repeat split; try easy. }
  split; [|split; [|split; [|split]]].
  - intros i p q Hp Hq.
    destruct Hrun as [E|(resume & p0 & files & final & tail
                          & Hc & _ & _ & E & Hs & _)].
    + rewrite E in Hp. now destruct i.
    + rewrite E in Hp, Hq.
      pose proof (steps_adjacent _ _ _ _ Hs i p q Hp Hq) as Hop.
      split; [assumption|now apply session_op_grows].
  - intros q Hin Hq.
    destruct Hrun as [E|(resume & p0 & files & final & tail
                          & Hc & _ & _ & E & Hs & _)].
    + now rewrite E in Hin.
    + rewrite E in Hin. destruct Hin as [<-|Hin]; [congruence|].
      assert (Hall := steps_completed _ _ _ Hs).
      rewrite Forall_forall in Hall. apply Hall; [congruence|assumption|assumption].
  - intros Hfresh q Hin.
    destruct Hrun as [E|(resume & p0 & files & final & tail
                          & Hc & Hres & Hnew & E & Hs & Hb)].
    + now rewrite E in Hin.
    + destruct resume.
      * destruct (Hres eq_refl) as (Hl & _ & Hr). rewrite Hl in Hfresh.
        congruence.
      * destruct (Hnew eq_refl) as (Ht & Hp & _).
        rewrite E in Hin. destruct Hin as [<-|Hin]; [rewrite Hp; simpl; lia|].
        rewrite Forall_forall in Hb. destruct (Hb q Hin) as [B1 B2].
        rewrite (work_items_fresh_total env files p0 Ht) in B1.
        rewrite Hp in B2. simpl in B2. lia.
  - intros p files Hl Hr Hf items Hn Hp Hi Hle Htot q Hin.
    destruct Hrun as [E|(resume & p0 & files' & final & tail
                          & Hc & Hres & Hnew & E & Hs & Hb)].
    + now rewrite E in Hin.
    + destruct resume.
      * destruct (Hres eq_refl) as (Hl' & Hf' & _).
        assert (p0 = p) by congruence. assert (files' = files) by congruence.
        subst p0 files'. fold items in Hb.
        rewrite E in Hin. destruct Hin as [<-|Hin]; [assumption|].
        rewrite Forall_forall in Hb. destruct (Hb q Hin) as [B1 B2].
        pose proof (remaining_count p items Hn Hp Hi) as Hcount.
        assert (Ht : totalFiles
                       (if LOCAL_TESTING env
                        then set_totalFiles (length items) p else p)
                     = length items).
        { destruct (LOCAL_TESTING env); [reflexivity|now apply Htot]. }
        lia.
      * destruct (Hnew eq_refl) as (_ & _ & Hr'). rewrite Hl in Hr'.
        congruence.
  - intros GitHub createReview local gh comments p Hl.
    unfold postReviewComments. rewrite Hl.
    assert (Hs : exists p',
               loadProgress (saveProgress (add_comments comments p) fs0)
               = Some p'
               /\ processedFiles p' = processedFiles p
               /\ totalFiles p' = totalFiles p
               /\ completed p' = completed p).
    { unfold saveProgress. destruct (writable fs0).
      - now exists (add_comments comments p).
      - now exists p. }
    now destruct local.
Qed.

(* ------------------------------------------------------------------ *)
(** ** The claims on sample data *)

(** The scenario of the validator: a comment on a line present only as a
    deletion is kept, one on a line in no record is dropped. *)
Example validator_scenario :
  validateCommentLine [comment_at 7; comment_at 99] [file_c] = [comment_at 7].
Proof. reflexivity. Qed.

Lemma validateCommentLine_sound_witness :
  In (comment_at 7) (validateCommentLine [comment_at 7; comment_at 99] [file_c])
  /\ anchored [file_c] (comment_at 7).
Proof.
  assert (H : In (comment_at 7)
                (validateCommentLine [comment_at 7; comment_at 99] [file_c]))
    by (left; reflexivity).
  split; [exact H|].
  exact (proj2 (proj1 (validateCommentLine_sound nat second_call_limited
                         [comment_at 7; comment_at 99] [file_c]) _ H)).
Defined.

Example two_hunks_one_chunk :
  splitLargeFilePatch (lit "f.c") two_hunks
  = [fileHeader (lit "f.c") ++ two_hunks].
Proof. reflexivity. Qed.


(** The claim C3 fails: with one boundary found, the hunk is packed as it
    is, in one chunk without marker; for a hunk of 5001 lines the windows
    would be two. *)
Lemma one_boundary_is_not_windowed :
  boundaries long_hunk = 1
  /\ length (split_nl long_hunk) = S maxLinesPerChunk
  /\ splitLargeFilePatch (lit "f.c") long_hunk
     = [fileHeader (lit "f.c") ++ long_hunk]
  /\ length (splitByLines (lit "f.c") long_hunk) = 2
  /\ splitLargeFilePatch (lit "f.c") long_hunk
     <> splitByLines (lit "f.c") long_hunk.
Proof.
  pose proof (long_hunk_facts (lit "f.c") 5000 (Nat.lt_0_succ _))
    as (H1 & H2 & H3 & H4).
  assert (H5 : length (splitByLines (lit "f.c") long_hunk) = 2).
  { unfold long_hunk. rewrite H4, H2. reflexivity. }
  split; [exact H1|]. split; [exact H2|]. split; [exact H3|].
  split; [exact H5|].
  intros E. pose proof (f_equal (@length jsstring) E) as E'.
  rewrite H5 in E'. unfold long_hunk in E'. rewrite H3 in E'.
  discriminate E'.
Qed.

Lemma splitLargeFilePatch_falls_back_witness :
  boundaries (lit "a" ++ nl ++ lit "b") = 0
  /\ splitLargeFilePatch (lit "f.c") (lit "a" ++ nl ++ lit "b")
     = splitByLines (lit "f.c") (lit "a" ++ nl ++ lit "b")
  /\ length (splitByLines (lit "f.c") (lit "a" ++ nl ++ lit "b")) = 1.
Proof.
  assert (H : boundaries (lit "a" ++ nl ++ lit "b") = 0) by reflexivity.
  split; [exact H|].
  destruct (splitLargeFilePatch_falls_back (lit "f.c")
              (lit "a" ++ nl ++ lit "b") (or_introl H))
    as (E1 & E2 & _).
  split; [exact E1|]. rewrite E2. reflexivity.
Defined.

Ltac distinct_names :=
  repeat (constructor; [simpl; intuition discriminate|]); constructor.

Lemma resume_processes_remaining_witness :
  let out := getIndividualFileDiffs (env_of three_files) (lit "o") (lit "r")
               7 (store_of session_a) in
  fetched out = [lit "b"; lit "c"]
  /\ exists final,
       session out = Some final /\ length (processedFiles final) = 3.
Proof.
  assert (Hne : three_files <> []) by discriminate.
  assert (Hn : NoDup (map filename
                        (work_items (env_of three_files) three_files)))
    by distinct_names.
  assert (Hp : NoDup (processedFiles session_a)) by distinct_names.
  assert (Hi : incl (processedFiles session_a)
                 (map filename (work_items (env_of three_files) three_files)))
    by (intros x [<-|[]]; left; reflexivity).
  destruct (resume_processes_remaining (env_of three_files) (lit "o")
              (lit "r") 7 (store_of session_a) session_a three_files
              eq_refl eq_refl eq_refl eq_refl eq_refl Hne Hn Hp Hi)
    as (H1 & _ & _ & _ & final & H5 & _ & H7).
  split; [exact H1|]. exists final. split; [exact H5|exact H7].
Defined.


Example after_first_file_value :
  processedFiles after_first_file = [lit "a"]
  /\ totalFiles after_first_file = 2
  /\ completed after_first_file = false.
Proof. repeat split. Qed.

(** The claim C6 fails. A first run on a change set of two files is cut
    short after its first file, leaving on disk a record with one of two
    files processed. The change set grows to four files; the next run
    resumes the record and ends with four processed files of a declared
    total of two. *)
Lemma resumed_session_exceeds_total :
  In after_first_file (snapshots first_run)
  /\ progress_file (fs first_run_cut_short) = Saved after_first_file
  /\ ~ (forall q, In q (snapshots second_run) ->
                  length (processedFiles q) <= totalFiles q).
Proof.
  split; [right; left; reflexivity|]. split; [reflexivity|].
  intros H.
  assert (Hin : In (nth 3 (snapshots second_run) session_a)
                  (snapshots second_run))
    by (right; right; right; left; reflexivity).
  apply H in Hin. vm_compute in Hin. lia.
Qed.

Lemma session_progress_bounds_witness :
  In after_first_file (snapshots first_run)
  /\ length (processedFiles after_first_file) <= totalFiles after_first_file.
Proof.
  assert (Hin : In after_first_file (snapshots first_run))
    by (right; left; reflexivity).
  split; [exact Hin|].
  destruct (session_progress_bounds
              (env_of [file_named "a"; file_named "b"]) (lit "o") (lit "r")
              7 empty_store) as (_ & _ & H & _).
  exact (H eq_refl after_first_file Hin).
Defined.

(** The scenario of the parser: the fenced empty review list is the
    empty list, not a failure. *)
Lemma fenced_reply_parses_as_content_witness :
  Forall (fun c => c <> 10%N) (lit "json")
  /\ plain empty_reviews_text
  /\ decodeResponse sample_decoder
       (Some (fenced (lit "json") empty_reviews_text))
     = JArr [].
Proof.
  assert (H1 : Forall (fun c => c <> 10%N) (lit "json"))
    by (repeat constructor; discriminate).
  assert (H2 : plain empty_reviews_text)
    by (repeat split; discriminate).
  split; [exact H1|]. split; [exact H2|].
  exact (proj1 (proj2 (proj2 (proj2 (fenced_reply_parses_as_content
                                       sample_decoder (lit "json")
                                       empty_reviews_text H1 H2)))
                 eq_refl)).
Defined.

Lemma decode_failure_and_missing_wrapper_witness :
  cleanResponse (Some (lit "oops")) = Some (lit "oops")
  /\ decodeResponse sample_decoder (Some (lit "oops")) = JNull
  /\ decodeResponse sample_decoder (Some (lit "[]")) = JArr [].
Proof.
  split; [reflexivity|]. split.
  - exact (proj1 (proj1 (decode_failure_and_missing_wrapper sample_decoder
                           sample_number sample_number_text (list jsstring)
                           (logging_service CallFailed)
                           (Some (lit "oops")) (lit "oops") eq_refl)
                    eq_refl)).
  - exact (proj2 (decode_failure_and_missing_wrapper sample_decoder
                    sample_number sample_number_text (list jsstring)
                    (logging_service CallFailed)
                    (Some (lit "[]")) (lit "[]") eq_refl)
             (JArr []) eq_refl I).
Defined.

(** Three batches, the second rejected for rate limiting: the loop waits
    the cooldown once and submits the third; six comments are counted. *)
Lemma postReviewComments_forward_progress_witness :
  let r := postReviewComments second_call_limited false empty_store 0
             eleven_comments in
  map fst (submissions (events (posted r))) = batches eleven_comments
  /\ successCount (posted r) = 6.
Proof.
  destruct (postReviewComments_forward_progress nat second_call_limited
              empty_store 0 eleven_comments) as (_ & H2 & _ & H4 & _).
  split; [exact H2|]. rewrite H4. reflexivity.
Defined.

Lemma analyzeCode_skips_deleted_witness :
  to deleted_file = Some (lit "/dev/null")
  /\ analyzeCode sample_decoder sample_number sample_number_text
       (logging_service (Message (Some (lit "[]"))))
       [deleted_file] details []
     = ([], Some []).
Proof.
  split; [reflexivity|].
  exact (proj1 (proj2 (analyzeCode_skips_deleted sample_decoder
                         sample_number sample_number_text (list jsstring)
                         (logging_service (Message (Some (lit "[]"))))
                         details deleted_file eq_refl)) []).
Defined.

(* ------------------------------------------------------------------ *)
(** * Further properties of the code *)



(* ------------------------------------------------------------------ *)
(** ** Fixed windows of lines *)

Section WindowFacts.

Opaque maxLinesPerChunk.

Lemma windows_length (patch : jsstring) :
  length (windows patch)
  = ceil_div (length (split_nl patch)) maxLinesPerChunk.
Proof.
  unfold windows. rewrite length_map.
  apply loop_indices_length, maxLinesPerChunk_pos.
Qed.

Lemma windows_nth (patch : jsstring) (k : nat) (w : list jsstring) :
  nth_error (windows patch) k = Some w ->
  k < length (windows patch)
  /\ w = slice (k * maxLinesPerChunk) (k * maxLinesPerChunk + maxLinesPerChunk)
           (split_nl patch).
Proof.
  intros H. split; [apply nth_error_Some; congruence|].
  assert (Hk : k < length (windows patch)) by (apply nth_error_Some; congruence).
  rewrite windows_length in Hk.
  unfold windows in H.
  rewrite (loop_indices_eq _ _ maxLinesPerChunk_pos), map_map in H.
  rewrite nth_error_map in H.
  rewrite (nth_error_nth' _ 0) in H by now rewrite length_seq.
  rewrite seq_nth in H by assumption. simpl in H. congruence.
Qed.

Lemma ceil_div_pos (a b : nat) : 0 < b -> 0 < a -> 0 < ceil_div a b.
Proof.
  intros Hb Ha. unfold ceil_div.
  apply Nat.div_str_pos. lia.
Qed.

Lemma ceil_div_lt (a b k : nat) :
  0 < b -> k < ceil_div a b -> k * b < a.
Proof.
  intros Hb H. unfold ceil_div in H.
  destruct (Nat.lt_ge_cases (k * b) a) as [|Hge]; [assumption|exfalso].
  assert ((a + b - 1) / b < S k); [|lia].
  apply Nat.Div0.div_lt_upper_bound. nia.
Qed.

Lemma ceil_div_succ_lt (a b k : nat) :
  0 < b -> S k < ceil_div a b -> k * b + b < a.
Proof. intros Hb H. apply (ceil_div_lt a b (S k) Hb) in H. simpl in H. lia. Qed.

Lemma slice_length {A} (i j : nat) (l : list A) :
  length (slice i j l) = Nat.min (j - i) (length l - i).
Proof. unfold slice. now rewrite length_firstn, length_skipn. Qed.

End WindowFacts.

Lemma windows_spec (filename patch : jsstring) :
  let ws := windows patch in
  let total := length ws in
  ws <> []
  /\ join nl (concat ws) = patch
  /\ length (splitByLines filename patch) = total
  /\ (forall k w, nth_error ws k = Some w ->
        1 <= length w <= maxLinesPerChunk
        /\ (S k < total -> length w = maxLinesPerChunk)
        /\ nth_error (splitByLines filename patch) k
           = Some (fileHeader filename ++ chunkMarker (k + 1) total
                   ++ join nl w)).
Proof.
  intros ws total.
  assert (Hm := maxLinesPerChunk_pos).
  assert (Hl : 0 < length (split_nl patch)).
  { unfold split_nl. destruct (split_nl_from [] patch) eqn:E.
    - now apply split_nl_from_nonnil in E.
    - simpl. lia. }
  assert (Ht : total = ceil_div (length (split_nl patch)) maxLinesPerChunk)
    by apply windows_length.
  split; [|split; [|split]].
  - intros E. pose proof (ceil_div_pos _ _ Hm Hl) as Hp.
    rewrite <- Ht in Hp. unfold total in Hp. rewrite E in Hp.
    now apply Nat.lt_irrefl in Hp.
  - unfold ws, windows. rewrite (slices_concat _ _ Hm). apply join_split_nl.
  - unfold splitByLines. rewrite length_map. unfold total, ws, windows.
    now rewrite length_map.
  - intros k w Hw. apply windows_nth in Hw as [Hk ->].
    fold ws in Hk. fold total in Hk.
    assert (Hlt : k * maxLinesPerChunk < length (split_nl patch))
      by (apply ceil_div_lt; [assumption|now rewrite <- Ht]).
    rewrite slice_length. split; [lia|]. split.
    + intros Hs. rewrite Ht in Hs. apply ceil_div_succ_lt in Hs; [lia|assumption].
    + rewrite Ht. apply splitByLines_nth. now rewrite <- Ht.
Qed.

(** X1. [splitByLines] cuts the lines of the patch into windows of
    [maxLinesPerChunk] lines: there is at least one window, every window
    but the last has exactly that many lines and the last has at least
    one; chunk [k] is the file header, the marker [k+1]/[total] and the
    lines of window [k]; and the lines of all windows, joined by line
    breaks, are the patch. *)
Theorem splitByLines_windows (filename patch : jsstring) :
  let ws := windows patch in
  let total := length ws in
  ws <> []
  /\ join nl (concat ws) = patch
  /\ length (splitByLines filename patch) = total
  /\ (forall k w, nth_error ws k = Some w ->
        1 <= length w <= maxLinesPerChunk
        /\ (S k < total -> length w = maxLinesPerChunk)
        /\ nth_error (splitByLines filename patch) k
           = Some (fileHeader filename ++ chunkMarker (k + 1) total
                   ++ join nl w)).
Proof. exact (windows_spec filename patch). Qed.

(* ------------------------------------------------------------------ *)
(** ** The hunk path, whatever precedes the first header *)

Section HunkPathFacts.

Opaque maxLinesPerChunk match_header.

Lemma properHunks_concat_both (l : list jsstring) :
  concat (properHunks l) = concat l
  /\ forall a, concat (properHunks (a :: l)) = concat (a :: l).
Proof.
  induction l as [|b l [IH1 IH2]]; [split; [reflexivity|intros a; reflexivity]|].
  split; [apply IH2|].
  intros a. cbn [properHunks concat]. rewrite IH1. now rewrite app_assoc.
Qed.

Lemma properHunks_concat (l : list jsstring) :
  concat (properHunks l) = concat l.
Proof. apply properHunks_concat_both. Qed.

Lemma properHunks_nonempty_both (l : list jsstring) :
  Forall (fun s => s <> []) l ->
  Forall (fun s => s <> []) (properHunks l)
  /\ forall a, a <> [] -> Forall (fun s => s <> []) (properHunks (a :: l)).
Proof.
  induction 1 as [|b l Hb Hl [IH1 IH2]].
  - split; [constructor|]. intros a Ha. now constructor.
  - split; [now apply IH2|]. intros a Ha. cbn [properHunks].
    constructor; [|assumption]. destruct a; [easy|discriminate].
Qed.

Lemma filter_nonempty_all (l : list jsstring) :
  Forall (fun s => s <> []) (filter nonempty l).
Proof.
  apply Forall_forall. intros s Hs. apply filter_In in Hs as [_ Hs].
  now destruct s.
Qed.

Lemma filter_nonempty_same_concat (l : list jsstring) :
  concat (filter nonempty l) = concat l.
Proof.
  induction l as [|[|c s] l IH]; simpl; [reflexivity|assumption|].
  now rewrite IH.
Qed.

Lemma hunk_path (filename patch : jsstring) :
  1 < length (filter nonempty (regex_split patch)) ->
  let units := properHunks (filter nonempty (regex_split patch)) in
  splitLargeFilePatch filename patch
  = map (fun g => fileHeader filename ++ concat g) (groups_of units)
  /\ concat units = patch
  /\ Forall (fun s => s <> []) units
  /\ units <> [].
Proof.
  intros H units. unfold splitLargeFilePatch.
  assert (E : (length (filter nonempty (regex_split patch)) <=? 1) = false)
    by (apply Nat.leb_gt; assumption).
  rewrite E.
  assert (Hne : Forall (fun s => s <> []) units)
    by (apply properHunks_nonempty_both, filter_nonempty_all).
  split; [now apply pack_groups|]. split; [|split; [assumption|]].
  - unfold units.
    now rewrite properHunks_concat, filter_nonempty_same_concat,
      regex_split_concat.
  - unfold units. destruct (filter nonempty (regex_split patch)) as [|a [|b l]];
      simpl in H; try lia. discriminate.
Qed.

End HunkPathFacts.


(** X2. For every patch, [splitLargeFilePatch] returns at least one chunk,
    and every chunk is the synthetic file header followed by a non-empty
    body. *)
Theorem splitLargeFilePatch_chunks_headed (filename patch : jsstring) :
  splitLargeFilePatch filename patch <> []
  /\ Forall (fun chunk => exists body,
               chunk = fileHeader filename ++ body /\ body <> [])
       (splitLargeFilePatch filename patch).
Proof.
  destruct (Nat.leb_spec (length (filter nonempty (regex_split patch))) 1)
    as [Hle|Hgt].
  - assert (E : splitLargeFilePatch filename patch
                = splitByLines filename patch).
    { unfold splitLargeFilePatch.
      now apply Nat.leb_le in Hle as ->. }
    rewrite E.
    destruct (windows_spec filename patch) as (Hne & _ & Hlen & Hnth).
    split.
    + intros E0. rewrite E0 in Hlen. simpl in Hlen.
      destruct (windows patch); [easy|discriminate].
    + apply Forall_forall. intros chunk Hin.
      apply In_nth_error in Hin as [k Hk].
      assert (Hlt : k < length (windows patch)).
      { rewrite <- Hlen. apply nth_error_Some. intros Hn.
        pose proof (eq_trans (eq_sym Hk) Hn). discriminate. }
      destruct (nth_error (windows patch) k) as [w|] eqn:Ew;
        [|apply nth_error_None in Ew; lia].
      destruct (Hnth k w Ew) as (_ & _ & Hs).
      pose proof (eq_trans (eq_sym Hk) Hs) as Hc. injection Hc as ->.
      eexists. split; [reflexivity|]. now destruct (chunkMarker _ _) eqn:Em.
  - destruct (hunk_path filename patch Hgt) as (E & Hc & Hne & Hu).
    destruct (groups_of_spec
                (properHunks (filter nonempty (regex_split patch))))
      as (G1 & G2 & _ & _).
    rewrite E. split.
    + intros E0. apply map_eq_nil in E0. rewrite E0 in G1. simpl in G1.
      now symmetry in G1.
    + apply Forall_forall. intros chunk Hin.
      apply in_map_iff in Hin as (g & <- & Hg).
      eexists. split; [reflexivity|].
      rewrite Forall_forall in G2. specialize (G2 g Hg).
      assert (Hall : Forall (fun s : jsstring => s <> []) g).
      { apply Forall_forall. intros s Hs.
        rewrite Forall_forall in Hne. apply Hne. rewrite <- G1.
        apply in_concat. now exists g. }
      destruct g as [|s g]; [easy|]. inversion Hall; subst.
      simpl. now destruct s.
Qed.


(* ------------------------------------------------------------------ *)
(** ** The batch loop: the text it builds *)

Section LoopFacts.

Lemma process_file_text (r r0 : Run) (file : ChangedFile) :
  snd (process_file r file) = snd (process_file r0 file).
Proof.
  unfold process_file. destruct (patch file) as [p|]; [|reflexivity].
  destruct (nonempty p); [|reflexivity].
  now destruct (15000 <? N.of_nat (length (split_nl p)))%N.
Qed.

Lemma process_all_texts (r0 : Run) (batch : list ChangedFile) :
  forall r,
    snd (process_all r batch)
    = map (fun file => snd (process_file r0 file)) batch.
Proof.
  induction batch as [|file batch IH]; intros r; simpl; [reflexivity|].
  pose proof (process_file_text r r0 file) as E.
  destruct (process_file r file) as [r1 text]. simpl in E.
  specialize (IH r1). destruct (process_all r1 batch) as [r2 texts].
  simpl in *. now rewrite E, IH.
Qed.

Lemma process_batch_text (r0 : Run) (files : list ChangedFile) (r : Run)
  (d : jsstring) (i : nat) :
  snd (process_batch files (r, d) i)
  = d ++ join nl (map (fun file => snd (process_file r0 file))
                    (slice i (i + Assembler.batchSize) files)).
Proof.
  unfold process_batch.
  pose proof (process_all_texts r0
                (slice i (i + Assembler.batchSize) files) r) as E.
  destruct (process_all r _) as [r1 texts]. simpl in E. now subst texts.
Qed.

Lemma batch_loop_text (r0 : Run) (files : list ChangedFile) (idx : list nat) :
  forall r d,
    snd (fold_left (process_batch files) idx (r, d))
    = d ++ concat
             (map (fun i =>
                     join nl (map (fun file => snd (process_file r0 file))
                                (slice i (i + Assembler.batchSize) files)))
                idx).
Proof.
  induction idx as [|i idx IH]; intros r d; cbn [fold_left map concat].
  - now rewrite app_nil_r.
  - pose proof (process_batch_text r0 files r d i) as E.
    destruct (process_batch files (r, d) i) as [r1 d1]. simpl in E. subst d1.
    now rewrite IH, app_assoc.
Qed.

(** [assemble] once there is something to process: the batch loop from
    the entry state, then the completion test. *)
Lemma assemble_run (env : Env) (resume : bool) (progress0 : ReviewProgress)
  (fs1 : FileSystem) (files : list ChangedFile) (r0 : Run) :
  let items := work_items env files in
  let todo := if resume then remaining progress0 items else items in
  let rL := fold_left (batch_state todo)
              (loop_indices Assembler.batchSize (length todo))
              (loop_entry env progress0 fs1 files) in
  todo <> [] ->
  assemble env resume progress0 fs1 files
  = finish
      ((if resume then reconstructDiffFromProgress progress0 else [])
       ++ batches_text r0 todo)
      (if totalFiles (progress rL) <=? length (processedFiles (progress rL))
       then save (mutate (mark_completed (endTime env)) rL)
       else rL).
Proof.
  intros items todo rL Hne. unfold assemble.
  change (if LOCAL_TESTING env then slice 0 20 files else files) with items.
  set (rinit := {| progress := progress0; fs := fs1;
                   history := [progress0]; handled := [] |}).
  assert (Er1 : (if LOCAL_TESTING env
                 then mutate (set_totalFiles (length items)) rinit
                 else rinit) = loop_entry env progress0 fs1 files)
    by reflexivity.
  rewrite Er1.
  assert (Hproc : processedFiles (progress (loop_entry env progress0 fs1 files))
                  = processedFiles progress0)
    by (unfold loop_entry; now destruct (LOCAL_TESTING env)).
  assert (Hrec : reconstructDiffFromProgress
                   (progress (loop_entry env progress0 fs1 files))
                 = reconstructDiffFromProgress progress0)
    by (unfold loop_entry; now destruct (LOCAL_TESTING env)).
  rewrite Hproc, Hrec.
  change (if resume
          then filter (fun file =>
                         negb (existsb (str_eqb (filename file))
                                 (processedFiles progress0))) items
          else items) with todo.
  assert (Hz : (length todo =? 0) = false)
    by (apply Nat.eqb_neq; destruct todo; [easy|discriminate]).
  rewrite Hz.
  pose proof (batch_loop_state todo
                (loop_indices Assembler.batchSize (length todo))
                (loop_entry env progress0 fs1 files)
                (if resume then reconstructDiffFromProgress progress0 else []))
    as (E1 & _).
  pose proof (batch_loop_text r0 todo
                (loop_indices Assembler.batchSize (length todo))
                (loop_entry env progress0 fs1 files)
                (if resume then reconstructDiffFromProgress progress0 else []))
    as E2.
  destruct (fold_left (process_batch todo) _ _) as [r2 combinedDiff].
  simpl in E1, E2. subst r2 combinedDiff. reflexivity.
Qed.

End LoopFacts.

(* ------------------------------------------------------------------ *)
(** ** The batch loop: the progress file and the counter *)

Section DiskFacts.

Lemma saveProgress_writable (p : ReviewProgress) (fs0 : FileSystem) :
  writable (saveProgress p fs0) = writable fs0.
Proof. unfold saveProgress. now destruct (writable fs0) eqn:E. Qed.

Lemma saveProgress_saved (p : ReviewProgress) (fs0 : FileSystem) :
  writable fs0 = true ->
  saveProgress p fs0 = {| progress_file := Saved p; writable := true |}.
Proof. intros H. unfold saveProgress. now rewrite H. Qed.

Lemma track_frame (name : jsstring) (r : Run) :
  currentBatch (progress (track name r)) = currentBatch (progress r)
  /\ allComments (progress (track name r)) = allComments (progress r)
  /\ timestamp (progress (track name r)) = timestamp (progress r)
  /\ writable (fs (track name r)) = writable (fs r).
Proof.
  unfold track. simpl. repeat split. apply saveProgress_writable.
Qed.

Lemma track_all_frame (names : list jsstring) :
  forall r,
    currentBatch (progress (track_all names r)) = currentBatch (progress r)
    /\ allComments (progress (track_all names r)) = allComments (progress r)
    /\ timestamp (progress (track_all names r)) = timestamp (progress r)
    /\ writable (fs (track_all names r)) = writable (fs r).
Proof.
  induction names as [|name names IH]; intros r; simpl; [easy|].
  destruct (IH (track name r)) as (A1 & A2 & A3 & A4).
  destruct (track_frame name r) as (B1 & B2 & B3 & B4).
  repeat split; congruence.
Qed.

Lemma batch_state_frame (files : list ChangedFile) (r : Run) (i : nat) :
  currentBatch (progress (batch_state files r i))
  = currentBatch (progress r) + i / Assembler.batchSize + 1
  /\ allComments (progress (batch_state files r i)) = allComments (progress r)
  /\ timestamp (progress (batch_state files r i)) = timestamp (progress r)
  /\ writable (fs (batch_state files r i)) = writable (fs r)
  /\ (writable (fs r) = true ->
      fs (batch_state files r i)
      = {| progress_file := Saved (progress (batch_state files r i));
           writable := true |}).
Proof.
  unfold batch_state.
  set (names := map filename (slice i (i + Assembler.batchSize) files)).
  destruct (track_all_frame names r) as (A1 & A2 & A3 & A4).
  simpl. rewrite saveProgress_writable. simpl.
  repeat split; try congruence.
  intros Hw. apply saveProgress_saved. congruence.
Qed.

Lemma batch_loop_frame (files : list ChangedFile) (idx : list nat) :
  forall r,
    let r' := fold_left (batch_state files) idx r in
    allComments (progress r') = allComments (progress r)
    /\ timestamp (progress r') = timestamp (progress r)
    /\ writable (fs r') = writable (fs r)
    /\ (writable (fs r) = true -> idx <> [] ->
        fs r' = {| progress_file := Saved (progress r'); writable := true |}).
Proof.
  induction idx as [|i idx IH]; intros r; cbn [fold_left]; [easy|].
  destruct (batch_state_frame files r i) as (_ & B2 & B3 & B4 & B5).
  destruct (IH (batch_state files r i)) as (A2 & A3 & A4 & A5).
  cbv zeta in *. repeat split; try congruence.
  intros Hw _. destruct idx as [|j idx].
  - simpl. now apply B5.
  - apply A5; [congruence|discriminate].
Qed.

(** After [k] batches starting at batch index [a] the counter has grown
    by [(a+1) + (a+2) + ... + (a+k)]: each batch adds its own index plus
    one to what the counter holds. *)
Lemma batch_loop_counter (files : list ChangedFile) (k : nat) :
  forall a r,
    2 * currentBatch
          (progress
             (fold_left (batch_state files)
                (map (fun j => j * Assembler.batchSize) (seq a k)) r))
    = 2 * currentBatch (progress r) + k * (2 * a + k + 1).
Proof.
  induction k as [|k IH]; intros a r; cbn [seq map fold_left]; [lia|].
  rewrite IH.
  destruct (batch_state_frame files r (a * Assembler.batchSize)) as (B1 & _).
  rewrite B1, Nat.div_mul by discriminate. lia.
Qed.

End DiskFacts.

(* ------------------------------------------------------------------ *)
(** ** A run as the batch loop on its session *)

Section RunShape.

Lemma clearProgress_writable (fs0 : FileSystem) :
  writable (clearProgress fs0) = writable fs0.
Proof.
  unfold clearProgress. destruct (progress_file fs0); try reflexivity;
    now destruct (writable fs0) eqn:E.
Qed.

Lemma resumeDecision_writable (pull_number : float) (repository : jsstring)
  (fs0 : FileSystem) :
  writable (snd (resumeDecision pull_number repository fs0)) = writable fs0.
Proof.
  unfold resumeDecision.
  destruct (shouldResume _ _ _); simpl; [reflexivity|].
  destruct (loadProgress fs0); [apply clearProgress_writable|reflexivity].
Qed.

(** A run whose listing answers with files is [assemble] on the session
    it resumes or on a new one. *)
Lemma run_unfold (env : Env) (owner repo : jsstring) (pull_number : float)
  (fs0 : FileSystem) (files : list ChangedFile) :
  listFiles env = Some files ->
  files <> [] ->
  let repository := owner ++ lit "/" ++ repo in
  let stored := resumed fs0 pull_number repository in
  getIndividualFileDiffs env owner repo pull_number fs0
  = assemble env
      (match stored with Some _ => true | None => false end)
      (match stored with
       | Some p => p
       | None => createInitialProgress pull_number repository
                   (length files) (startTime env)
       end)
      (snd (resumeDecision pull_number repository fs0))
      files.
Proof.
  intros Hf Hne repository stored. unfold stored, resumed, resumeDecision.
  destruct (shouldResume (loadProgress fs0) pull_number repository) eqn:Hr.
  - destruct (loadProgress fs0) as [p|] eqn:Hl; [|discriminate].
    simpl. now apply run_resumed.
  - simpl. now apply run_fresh.
Qed.

Lemma resumed_not_completed (fs0 : FileSystem) (pull_number : float)
  (repository : jsstring) (p : ReviewProgress) :
  resumed fs0 pull_number repository = Some p ->
  loadProgress fs0 = Some p
  /\ strict_eq (prNumber p) pull_number = true
  /\ Data.repository p = repository
  /\ completed p = false.
Proof.
  unfold resumed.
  destruct (shouldResume (loadProgress fs0) pull_number repository) eqn:Hr;
    [|discriminate].
  intros E. rewrite E in Hr. split; [assumption|].
  now apply shouldResume_spec.
Qed.

(** The state after the batch loop, read off the entry state. *)
Lemma loop_exit (env : Env) (progress0 : ReviewProgress) (fs1 : FileSystem)
  (files todo : list ChangedFile) :
  let entry := loop_entry env progress0 fs1 files in
  let rL := fold_left (batch_state todo)
              (loop_indices Assembler.batchSize (length todo)) entry in
  processedFiles (progress rL) = processedFiles progress0 ++ map filename todo
  /\ totalFiles (progress rL)
     = (if LOCAL_TESTING env then length (work_items env files)
        else totalFiles progress0)
  /\ completed (progress rL) = completed progress0
  /\ prNumber (progress rL) = prNumber progress0
  /\ repository (progress rL) = repository progress0
  /\ allComments (progress rL) = allComments progress0
  /\ timestamp (progress rL) = timestamp progress0
  /\ 2 * currentBatch (progress rL)
     = 2 * currentBatch progress0
       + ceil_div (length todo) Assembler.batchSize
         * (ceil_div (length todo) Assembler.batchSize + 1)
  /\ handled rL = map filename todo
  /\ writable (fs rL) = writable fs1
  /\ (writable fs1 = true -> todo <> [] ->
      fs rL = {| progress_file := Saved (progress rL); writable := true |}).
Proof.
  intros entry rL.
  assert (He : processedFiles (progress entry) = processedFiles progress0
               /\ totalFiles (progress entry)
                  = (if LOCAL_TESTING env then length (work_items env files)
                     else totalFiles progress0)
               /\ completed (progress entry) = completed progress0
               /\ prNumber (progress entry) = prNumber progress0
               /\ repository (progress entry) = repository progress0
               /\ allComments (progress entry) = allComments progress0
               /\ timestamp (progress entry) = timestamp progress0
               /\ currentBatch (progress entry) = currentBatch progress0
               /\ handled entry = []
               /\ fs entry = fs1)
    by (unfold entry, loop_entry; now destruct (LOCAL_TESTING env)).
  destruct He as (E1 & E2 & E3 & E4 & E5 & E6 & E7 & E8 & E9 & E10).
  pose proof (reached_all todo entry) as (R1 & R2 & l & R3 & R4).
  fold rL in R1, R2, R3, R4.
  destruct (steps_work_bounds _ _ _ R4) as (W1 & W2 & W3 & W4 & _).
  destruct (batch_loop_frame todo
              (loop_indices Assembler.batchSize (length todo)) entry)
    as (F1 & F2 & F3 & F4).
  fold rL in F1, F2, F3, F4.
  assert (Hpos : 0 < Assembler.batchSize) by (unfold Assembler.batchSize; lia).
  pose proof (batch_loop_counter todo
                (ceil_div (length todo) Assembler.batchSize) 0 entry) as C.
  rewrite <- (loop_indices_eq _ _ Hpos) in C. fold rL in C.
  repeat split; try congruence.
  - rewrite C, E8. lia.
  - rewrite R2, E9. reflexivity.
  - intros Hw Hne. apply F4; [congruence|].
    intros E0. apply (f_equal (@length nat)) in E0.
    rewrite (loop_indices_length _ _ Hpos) in E0.
    change (length (@nil nat)) with 0 in E0.
    assert (0 < length todo) by (destruct todo; [easy|simpl; lia]).
    pose proof (ceil_div_pos (length todo) Assembler.batchSize Hpos H). lia.
Qed.

End RunShape.

(* ------------------------------------------------------------------ *)
(** ** What a run returns and leaves *)

Section RunOutcome.

Lemma assemble_nothing (env : Env) (resume : bool)
  (progress0 : ReviewProgress) (fs1 : FileSystem) (files : list ChangedFile) :
  (if resume then remaining progress0 (work_items env files)
   else work_items env files) = [] ->
  assemble env resume progress0 fs1 files
  = finish (reconstructDiffFromProgress progress0)
      (loop_entry env progress0 fs1 files).
Proof.
  intros Hz. unfold assemble.
  change (if LOCAL_TESTING env then slice 0 20 files else files)
    with (work_items env files).
  set (rinit := {| progress := progress0; fs := fs1;
                   history := [progress0]; handled := [] |}).
  assert (Er1 : (if LOCAL_TESTING env
                 then mutate (set_totalFiles (length (work_items env files)))
                        rinit
                 else rinit) = loop_entry env progress0 fs1 files)
    by reflexivity.
  rewrite Er1.
  assert (Hproc : processedFiles (progress (loop_entry env progress0 fs1 files))
                  = processedFiles progress0)
    by (unfold loop_entry; now destruct (LOCAL_TESTING env)).
  assert (Hrec : reconstructDiffFromProgress
                   (progress (loop_entry env progress0 fs1 files))
                 = reconstructDiffFromProgress progress0)
    by (unfold loop_entry; now destruct (LOCAL_TESTING env)).
  rewrite Hproc, Hrec.
  change (if resume
          then filter (fun file =>
                         negb (existsb (str_eqb (filename file))
                                 (processedFiles progress0)))
                 (work_items env files)
          else work_items env files)
    with (if resume then remaining progress0 (work_items env files)
          else work_items env files).
  now rewrite Hz.
Qed.

Lemma batches_text_nil (r0 : Run) : batches_text r0 [] = [].
Proof. reflexivity. Qed.

(** What a run with a non-empty listing returns and leaves, by the
    session it resumes (or none) and the files it has to process. *)
Lemma run_outcome (env : Env) (owner repo : jsstring) (pull_number : float)
  (fs0 : FileSystem) (files : list ChangedFile) (r0 : Run) :
  listFiles env = Some files ->
  files <> [] ->
  let repository := owner ++ lit "/" ++ repo in
  let stored := resumed fs0 pull_number repository in
  let todo := todo_of env stored files in
  let out := getIndividualFileDiffs env owner repo pull_number fs0 in
  let k := ceil_div (length todo) Assembler.batchSize in
  exists final,
    session out = Some final
    /\ diff out = seed_of stored ++ batches_text r0 todo
    /\ fetched out = map filename todo
    /\ processedFiles final
       = match stored with Some p => processedFiles p | None => [] end
         ++ map filename todo
    /\ 2 * currentBatch final = 2 * counter_of stored + k * (k + 1)
    /\ totalFiles final
       = (if LOCAL_TESTING env then length (work_items env files)
          else match stored with
               | Some p => totalFiles p
               | None => length files
               end)
    /\ completed final
       = (if is_nil todo then false
          else totalFiles final <=? length (processedFiles final))
    /\ prNumber final
       = match stored with Some p => prNumber p | None => pull_number end
    /\ Data.repository final = repository
    /\ allComments final
       = match stored with Some p => allComments p | None => [] end
    /\ (todo <> [] -> writable fs0 = true ->
        disk out = {| progress_file := Saved final; writable := true |}).
Proof.
  intros Hf Hne repository stored todo out k.
  unfold out. rewrite (run_unfold _ _ _ _ _ _ Hf Hne).
  fold repository. fold stored.
  set (resume := match stored with Some _ => true | None => false end).
  set (progress0 := match stored with
                    | Some p => p
                    | None => createInitialProgress pull_number repository
                                (length files) (startTime env)
                    end).
  set (fs1 := snd (resumeDecision pull_number repository fs0)).
  assert (Htodo : (if resume then remaining progress0 (work_items env files)
                   else work_items env files) = todo)
    by (unfold resume, progress0, todo, todo_of; now destruct stored).
  assert (Hc0 : completed progress0 = false
                /\ Data.repository progress0 = repository).
  { unfold progress0. destruct stored as [p|] eqn:Es; [|easy].
    now apply resumed_not_completed in Es. }
  destruct Hc0 as [Hc0 Hrepo].
  assert (Hseed : (if resume then reconstructDiffFromProgress progress0 else [])
                  = seed_of stored)
    by (unfold resume, progress0, seed_of; now destruct stored).
  assert (Hproc0 : processedFiles progress0
                   = match stored with
                     | Some p => processedFiles p | None => [] end)
    by (unfold progress0; now destruct stored).
  assert (Hcnt0 : currentBatch progress0 = counter_of stored)
    by (unfold progress0, counter_of; now destruct stored).
  assert (Htot0 : totalFiles progress0
                  = match stored with
                    | Some p => totalFiles p | None => length files end)
    by (unfold progress0; now destruct stored).
  assert (Hnum0 : prNumber progress0
                  = match stored with
                    | Some p => prNumber p | None => pull_number end)
    by (unfold progress0; now destruct stored).
  assert (Hcom0 : allComments progress0
                  = match stored with
                    | Some p => allComments p | None => [] end)
    by (unfold progress0; now destruct stored).
  unfold k. clear k. clearbody todo.
  assert (Hcase : todo = [] \/ todo <> [])
    by (destruct todo; [now left|now right]).
  destruct Hcase as [Hz|Hnz].
  - rewrite Hz in Htodo |- *. rewrite (assemble_nothing _ _ _ _ _ Htodo).
    pose proof (loop_exit env progress0 fs1 files [])
      as (L1 & L2 & L3 & L4 & L5 & L6 & L7 & L8 & L9 & _).
    cbn [length loop_indices loop_indices_from fold_left] in *.
    exists (progress (loop_entry env progress0 fs1 files)).
    unfold resume in Hseed, Htodo. simpl.
    rewrite L1, L2, L3, L4, L5, L6, <- Hproc0, <- Htot0, <- Hnum0, <- Hcom0.
    assert (Hcb : currentBatch (progress (loop_entry env progress0 fs1 files))
                  = currentBatch progress0)
      by (unfold loop_entry; now destruct (LOCAL_TESTING env)).
    repeat split; try easy.
    + change (batches_text r0 []) with (@nil N).
      rewrite app_nil_r, <- Hseed. destruct stored; [reflexivity|].
      exfalso. now apply (work_items_nonempty env files Hne).
    + rewrite Hcb, <- Hcnt0. lia.
  - rewrite <- Htodo in Hnz.
    rewrite (assemble_run env resume progress0 fs1 files r0 Hnz).
    rewrite Htodo.
    match goal with
    | |- context [finish (?sd ++ _) _] =>
        replace sd with (seed_of stored) by (symmetry; exact Hseed)
    end.
    rewrite Htodo in Hnz.
    pose proof (loop_exit env progress0 fs1 files todo)
      as (L1 & L2 & L3 & L4 & L5 & L6 & L7 & L8 & L9 & L10 & L11).
    set (rL := fold_left (batch_state todo)
                 (loop_indices Assembler.batchSize (length todo))
                 (loop_entry env progress0 fs1 files)) in *.
    assert (Hw1 : writable fs1 = writable fs0)
      by apply resumeDecision_writable.
    assert (Hnil : is_nil todo = false) by (destruct todo; [easy|reflexivity]).
    rewrite Hnil.
    destruct (totalFiles (progress rL) <=? length (processedFiles (progress rL)))
      eqn:Htest.
    + exists (mark_completed (endTime env) (progress rL)).
      simpl. rewrite L1, L2, L4, L5, L6, L9, Htot0, Hproc0, Hnum0, Hcom0.
      rewrite <- Hcnt0.
      repeat split; try easy.
      * rewrite L1, L2, Htot0, Hproc0 in Htest. now rewrite Htest.
      * intros _ Hw. apply saveProgress_saved. congruence.
    + exists (progress rL).
      simpl. rewrite L1, L2, L3, L4, L5, L6, L9, Htot0, Hproc0, Hnum0, Hcom0.
      rewrite <- Hcnt0.
      repeat split; try easy.
      * rewrite L1, L2, Htot0, Hproc0 in Htest. now rewrite Htest.
      * intros _ Hw. rewrite L11 by congruence. reflexivity.
Qed.

End RunOutcome.

(* ------------------------------------------------------------------ *)
(** ** The text of one batch and of several *)

Section TextFacts.

Lemma batches_text_small (r0 : Run) (a : list ChangedFile) :
  length a <= Assembler.batchSize ->
  batches_text r0 a = join nl (map (fun file => snd (process_file r0 file)) a).
Proof.
  intros Hle. unfold batches_text.
  assert (Hpos : 0 < Assembler.batchSize) by (unfold Assembler.batchSize; lia).
  destruct a as [|file a]; [reflexivity|].
  rewrite (loop_indices_eq _ _ Hpos).
  assert (E : ceil_div (length (file :: a)) Assembler.batchSize = 1).
  { rewrite (ceil_div_step _ _ Hpos) by (simpl; lia).
    replace (length (file :: a) - Assembler.batchSize) with 0 by lia.
    now rewrite (ceil_div_0 _ Hpos). }
  rewrite E. cbn [seq map concat]. rewrite app_nil_r.
  unfold slice. rewrite Nat.mul_0_l, Nat.add_0_l, Nat.sub_0_r.
  cbn [skipn]. now rewrite firstn_all2.
Qed.

Lemma batches_text_app (r0 : Run) (a b : list ChangedFile) :
  length a = Assembler.batchSize ->
  batches_text r0 (a ++ b)
  = join nl (map (fun file => snd (process_file r0 file)) a)
    ++ batches_text r0 b.
Proof.
  intros Ha. unfold batches_text.
  assert (Hpos : 0 < Assembler.batchSize) by (unfold Assembler.batchSize; lia).
  rewrite !(loop_indices_eq _ _ Hpos).
  rewrite (ceil_div_step (length (a ++ b)) _ Hpos)
    by (rewrite length_app; lia).
  replace (length (a ++ b) - Assembler.batchSize) with (length b)
    by (rewrite length_app; lia).
  cbn [seq map concat]. f_equal.
  - unfold slice. rewrite Nat.mul_0_l, Nat.add_0_l, Nat.sub_0_r. cbn [skipn].
    rewrite firstn_app, Ha, Nat.sub_diag, firstn_O, app_nil_r.
    now rewrite firstn_all2 by lia.
  - rewrite <- seq_shift, !map_map. f_equal. apply map_ext. intros j.
    f_equal. f_equal. unfold slice.
    replace (skipn (S j * Assembler.batchSize) (a ++ b))
      with (skipn (j * Assembler.batchSize) b).
    + f_equal; lia.
    + replace (S j * Assembler.batchSize)
        with (j * Assembler.batchSize + length a) by (rewrite Ha; lia).
      rewrite <- skipn_skipn. now rewrite skipn_app_length.
Qed.

End TextFacts.

(* ------------------------------------------------------------------ *)
(** ** New sessions *)

Section FreshRun.

Lemma resumed_none (fs0 : FileSystem) (pull_number : float)
  (repository : jsstring) :
  shouldResume (loadProgress fs0) pull_number repository = false ->
  resumed fs0 pull_number repository = None.
Proof. intros H. unfold resumed. now rewrite H. Qed.

Lemma fresh_run_final (env : Env) (owner repo : jsstring)
  (pull_number : float) (fs0 : FileSystem) (files : list ChangedFile) :
  shouldResume (loadProgress fs0) pull_number (owner ++ lit "/" ++ repo)
  = false ->
  listFiles env = Some files ->
  files <> [] ->
  let items := work_items env files in
  let out := getIndividualFileDiffs env owner repo pull_number fs0 in
  exists final,
    session out = Some final
    /\ (writable fs0 = true ->
        disk out = {| progress_file := Saved final; writable := true |})
    /\ completed final = true
    /\ processedFiles final = map filename items
    /\ totalFiles final = length items
    /\ fetched out = map filename items
    /\ prNumber final = pull_number
    /\ repository final = owner ++ lit "/" ++ repo
    /\ allComments final = [].
Proof.
  intros Hr Hf Hne items out.
  destruct (run_outcome env owner repo pull_number fs0 files
              {| progress := createInitialProgress pull_number [] 0 [];
                 fs := fs0; history := []; handled := [] |} Hf Hne)
    as (final & O1 & _ & O3 & O4 & _ & O6 & O7 & O8 & O9 & O10 & O11).
  rewrite (resumed_none _ _ _ Hr) in *. cbn [todo_of] in *.
  fold items in O3, O4, O6, O7, O11.
  assert (Hi : items <> []) by now apply work_items_nonempty.
  assert (Ht : totalFiles final = length items).
  { rewrite O6. unfold items, work_items.
    now destruct (LOCAL_TESTING env). }
  exists final. repeat split; try assumption.
  - intros Hw. now apply O11.
  - rewrite O7. replace (is_nil items) with false
      by (destruct items; [easy|reflexivity]).
    apply Nat.leb_le. rewrite Ht, O4. simpl. now rewrite length_map.
Qed.

Lemma completed_record_cleared (env : Env) (owner repo : jsstring)
  (pull_number : float) (fs0 : FileSystem) (p : ReviewProgress)
  (files : list ChangedFile) :
  progress_file fs0 = Saved p ->
  completed p = true ->
  writable fs0 = true ->
  listFiles env = Some files ->
  getIndividualFileDiffs env owner repo pull_number fs0
  = getIndividualFileDiffs env owner repo pull_number
      {| progress_file := Missing; writable := true |}.
Proof.
  intros Hp Hc Hw Hf. unfold getIndividualFileDiffs, resumeDecision.
  unfold loadProgress at 1 2 3 4. rewrite Hp.
  assert (Hs : shouldResume (Some p) pull_number (owner ++ lit "/" ++ repo)
               = false).
  { unfold shouldResume. rewrite Hc. simpl. now rewrite andb_false_r. }
  rewrite Hs, Hf. unfold clearProgress. rewrite Hp, Hw. simpl.
  reflexivity.
Qed.

Lemma empty_store_run_fetches_all (env : Env) (owner repo : jsstring)
  (pull_number : float) (files : list ChangedFile) :
  listFiles env = Some files ->
  fetched (getIndividualFileDiffs env owner repo pull_number
             {| progress_file := Missing; writable := true |})
  = map filename (work_items env files).
Proof.
  intros Hf. destruct files as [|file files].
  - unfold getIndividualFileDiffs. rewrite Hf. simpl.
    unfold work_items. now destruct (LOCAL_TESTING env).
  - assert (Hne : file :: files <> []) by discriminate.
    destruct (fresh_run_final env owner repo pull_number
                {| progress_file := Missing; writable := true |}
                (file :: files) eq_refl Hf Hne)
      as (final & _ & _ & _ & _ & _ & G & _).
    exact G.
Qed.

End FreshRun.

(** X6. After a run that starts a new session on a writable store, the
    progress file holds the session the run ended with: it is flagged
    complete, lists every work item in listing order, and its total is
    the number of work items. *)
Theorem fresh_run_completes (env : Env) (owner repo : jsstring)
  (pull_number : float) (fs0 : FileSystem) (files : list ChangedFile) :
  shouldResume (loadProgress fs0) pull_number (owner ++ lit "/" ++ repo)
  = false ->
  listFiles env = Some files ->
  files <> [] ->
  writable fs0 = true ->
  let items := work_items env files in
  let out := getIndividualFileDiffs env owner repo pull_number fs0 in
  exists final,
    session out = Some final
    /\ loadProgress (disk out) = Some final
    /\ completed final = true
    /\ processedFiles final = map filename items
    /\ totalFiles final = length items
    /\ fetched out = map filename items
    /\ prNumber final = pull_number
    /\ repository final = owner ++ lit "/" ++ repo
    /\ allComments final = [].
Proof.
  intros Hr Hf Hne Hw items out.
  destruct (fresh_run_final env owner repo pull_number fs0 files Hr Hf Hne)
    as (final & F1 & F2 & F3).
  exists final. split; [exact F1|]. split; [|exact F3].
  unfold out. now rewrite (F2 Hw).
Qed.

(** X7. A record flagged complete is never resumed: the run after a
    completed one clears the record and handles every work item again,
    exactly as a run that finds no record. *)
Theorem completed_session_starts_over (env1 env2 : Env)
  (owner repo : jsstring) (pull_number : float) (fs0 : FileSystem)
  (files1 files2 : list ChangedFile) :
  shouldResume (loadProgress fs0) pull_number (owner ++ lit "/" ++ repo)
  = false ->
  listFiles env1 = Some files1 ->
  files1 <> [] ->
  writable fs0 = true ->
  listFiles env2 = Some files2 ->
  let out1 := getIndividualFileDiffs env1 owner repo pull_number fs0 in
  let out2 := getIndividualFileDiffs env2 owner repo pull_number (disk out1) in
  out2 = getIndividualFileDiffs env2 owner repo pull_number
           {| progress_file := Missing; writable := true |}
  /\ fetched out2 = map filename (work_items env2 files2).
Proof.
  intros Hr Hf1 Hne Hw Hf2 out1 out2.
  destruct (fresh_run_final env1 owner repo pull_number fs0 files1 Hr Hf1 Hne)
    as (final & _ & F2 & F3 & _).
  assert (E : out2 = getIndividualFileDiffs env2 owner repo pull_number
                       {| progress_file := Missing; writable := true |}).
  { unfold out2, out1. rewrite (F2 Hw).
    now apply (completed_record_cleared env2 owner repo pull_number _ final
                 files2). }
  split; [exact E|]. rewrite E.
  destruct files2 as [|file files2].
  - unfold getIndividualFileDiffs. rewrite Hf2. simpl.
    unfold work_items. now destruct (LOCAL_TESTING env2).
  - assert (Hne2 : file :: files2 <> []) by discriminate.
    destruct (fresh_run_final env2 owner repo pull_number
                {| progress_file := Missing; writable := true |}
                (file :: files2) eq_refl Hf2 Hne2)
      as (final2 & _ & _ & _ & _ & _ & G & _).
    exact G.
Qed.

(** X8. The counter [currentBatch] is not the number of batches: every
    batch adds its own number to what the counter holds, so after the
    [k] batches of a run it has grown by [1 + 2 + ... + k]. *)
Theorem batch_counter_adds_batch_numbers (env : Env) (owner repo : jsstring)
  (pull_number : float) (fs0 : FileSystem) (files : list ChangedFile) :
  listFiles env = Some files ->
  files <> [] ->
  let out := getIndividualFileDiffs env owner repo pull_number fs0 in
  let k := ceil_div (length (fetched out)) Assembler.batchSize in
  exists final,
    session out = Some final
    /\ 2 * currentBatch final
       = 2 * counter_of (resumed fs0 pull_number (owner ++ lit "/" ++ repo))
         + k * (k + 1).
Proof.
  intros Hf Hne out k.
  destruct (run_outcome env owner repo pull_number fs0 files
              {| progress := createInitialProgress pull_number [] 0 [];
                 fs := fs0; history := []; handled := [] |} Hf Hne)
    as (final & O1 & _ & O3 & _ & O5 & _).
  exists final. split; [exact O1|].
  unfold k, out. rewrite O3, length_map. exact O5.
Qed.

(** X9. The text a run returns: the reconstruction of the resumed
    session, if any, then the texts of the files it processes, joined by
    a line break inside a batch of ten and by nothing between two
    batches. The text of a file does not depend on the run's state. *)
Theorem diff_text_by_batches (env : Env) (owner repo : jsstring)
  (pull_number : float) (fs0 : FileSystem) (files : list ChangedFile)
  (r0 : Run) :
  listFiles env = Some files ->
  files <> [] ->
  let stored := resumed fs0 pull_number (owner ++ lit "/" ++ repo) in
  let text := fun file => snd (process_file r0 file) in
  diff (getIndividualFileDiffs env owner repo pull_number fs0)
  = seed_of stored ++ batches_text r0 (todo_of env stored files)
  /\ (forall a, length a <= Assembler.batchSize ->
                batches_text r0 a = join nl (map text a))
  /\ (forall a b, length a = Assembler.batchSize ->
                  batches_text r0 (a ++ b)
                  = join nl (map text a) ++ batches_text r0 b)
  /\ (forall r file, snd (process_file r file) = text file).
Proof.
  intros Hf Hne stored text.
  destruct (run_outcome env owner repo pull_number fs0 files r0 Hf Hne)
    as (final & _ & O2 & _).
  split; [exact O2|]. split; [|split].
  - intros a. apply batches_text_small.
  - intros a b. apply batches_text_app.
  - intros r file. apply process_file_text.
Qed.

(** X5. When the listing call throws, the run returns the empty text,
    handles no file, and leaves the progress file as it found it. *)
Theorem listing_failure_keeps_store (env : Env) (owner repo : jsstring)
  (pull_number : float) (fs0 : FileSystem) :
  listFiles env = None ->
  let out := getIndividualFileDiffs env owner repo pull_number fs0 in
  diff out = [] /\ fetched out = [] /\ snapshots out = [] /\ disk out = fs0.
Proof.
  intros Hf out. unfold out, getIndividualFileDiffs, resumeDecision.
  rewrite Hf.
  destruct (shouldResume (loadProgress fs0) pull_number
              (owner ++ lit "/" ++ repo)) eqn:Hr;
    destruct fs0 as [[| |p] [|]]; try discriminate Hr; repeat split.
Qed.

(* ------------------------------------------------------------------ *)
(** ** The reconstruction of prior progress *)

Section ReconstructionFacts.

Lemma uint_codes_digits (d : Decimal.uint) :
  Forall (fun c => is_digit c = true) (uint_codes d).
Proof. induction d; simpl; constructor; easy. Qed.

Lemma dec_line (n : nat) : Forall (fun c => c <> 10%N) (dec n).
Proof.
  eapply Forall_impl; [|apply uint_codes_digits].
  intros c Hc ->. discriminate.
Qed.

Lemma join_line (sep : jsstring) (l : list jsstring) :
  Forall (fun c => c <> 10%N) sep ->
  Forall (fun s => Forall (fun c => c <> 10%N) s) l ->
  Forall (fun c => c <> 10%N) (join sep l).
Proof.
  intros Hsep. induction 1 as [|a l Ha Hl IH]; [constructor|].
  destruct l as [|b l]; [exact Ha|].
  change (join sep (a :: b :: l)) with (a ++ sep ++ join sep (b :: l)).
  apply Forall_app. split; [assumption|]. apply Forall_app. now split.
Qed.

Lemma lit_line (s : string) :
  Forall (fun c => c <> 10%N) (lit s) <->
  Forall (fun a => N_of_ascii a <> 10%N) (list_ascii_of_string s).
Proof. unfold lit. now rewrite Forall_map. Qed.

End ReconstructionFacts.

(** X10. The reconstruction of prior progress is two comment lines, a
    count and the names; none of the text of the files processed earlier
    is in it. *)
Theorem reconstruction_is_two_lines (p : ReviewProgress) :
  Forall (fun name => Forall (fun c => c <> 10%N) name) (processedFiles p) ->
  split_nl (reconstructDiffFromProgress p)
  = [ lit "# Previously processed " ++ dec (length (processedFiles p))
        ++ lit " files";
      lit "# Files: " ++ join (lit ", ") (processedFiles p);
      [] ].
Proof.
  intros Hn. unfold reconstructDiffFromProgress.
  set (l1 := lit "# Previously processed " ++ dec (length (processedFiles p))
             ++ lit " files").
  set (l2 := lit "# Files: " ++ join (lit ", ") (processedFiles p)).
  assert (H1 : Forall (fun c => c <> 10%N) l1).
  { unfold l1. repeat (apply Forall_app; split); try apply dec_line;
      apply lit_line; repeat constructor; discriminate. }
  assert (H2 : Forall (fun c => c <> 10%N) l2).
  { unfold l2. apply Forall_app. split.
    - apply lit_line; repeat constructor; discriminate.
    - apply join_line; [|assumption].
      apply lit_line; repeat constructor; discriminate. }
  replace (lit "# Previously processed " ++ dec (length (processedFiles p))
           ++ lit " files" ++ nl
           ++ lit "# Files: " ++ join (lit ", ") (processedFiles p) ++ nl)
    with (l1 ++ nl ++ l2 ++ nl ++ [])
    by (unfold l1, l2; now rewrite <- !app_assoc).
  rewrite split_nl_app, (split_nl_line l1 H1).
  rewrite split_nl_app, (split_nl_line l2 H2).
  reflexivity.
Qed.

Lemma reconstruction_is_two_lines_witness :
  split_nl (reconstructDiffFromProgress session_a)
  = [ lit "# Previously processed 1 files"; lit "# Files: a"; [] ].
Proof.
  apply (reconstruction_is_two_lines session_a).
  repeat constructor; discriminate.
Defined.

(* ------------------------------------------------------------------ *)
(** ** Replies of one line *)

Section FenceFacts.

Lemma strip_fence_one_line (res : jsstring) :
  Forall (fun c => c <> 10%N) res -> strip_fence res = None.
Proof. intros H. unfold strip_fence. now rewrite (split_nl_line res H). Qed.

Lemma cleanResponse_one_line_fence (c : jsstring) :
  startsWith (trim c) fence = true ->
  Forall (fun x => x <> 10%N) (trim c) ->
  cleanResponse (Some c) = None.
Proof.
  intros Hs Hl. unfold cleanResponse.
  assert (Hne : nonempty (trim c) = true) by now destruct (trim c).
  rewrite Hne, Hs, (strip_fence_one_line _ Hl).
  now destruct (startsWith (trim c) (lit "```json")).
Qed.

End FenceFacts.

(** X11. A reply that is one line starting with a code fence yields
    [null], whatever follows the fence on that line: the fence branch
    drops the only line and then reads the last line of nothing. *)
Theorem one_line_fenced_reply_is_null
  (JSON_parse : jsstring -> option JsValue) (c : jsstring) :
  startsWith (trim c) fence = true ->
  Forall (fun x => x <> 10%N) (trim c) ->
  decodeResponse JSON_parse (Some c) = JNull
  /\ forall (AI : Type) (complete : AI -> jsstring -> AI * Completion)
       ai ai' prompt,
       complete ai prompt = (ai', Message (Some c)) ->
       getAIResponse JSON_parse complete ai prompt = (ai', JNull).
Proof.
  intros Hs Hl.
  assert (E : decodeResponse JSON_parse (Some c) = JNull)
    by (unfold decodeResponse; now rewrite cleanResponse_one_line_fence).
  split; [exact E|].
  intros AI complete ai ai' prompt Hc. unfold getAIResponse.
  now rewrite Hc, E.
Qed.

Lemma one_line_fenced_reply_is_null_witness :
  decodeResponse sample_decoder (Some (lit "```[]```")) = JNull
  /\ decodeResponse sample_decoder (Some (lit "`[]`")) = JArr [].
Proof.
  split; [|reflexivity].
  apply (one_line_fenced_reply_is_null sample_decoder (lit "```[]```")).
  - reflexivity.
  - repeat constructor; discriminate.
Defined.

(* ------------------------------------------------------------------ *)
(** ** The analysis loop: exceptions and the paths of comments *)

Section AnalysisMore.

Variable JSON_parse : jsstring -> option JsValue.
Variable Number : JsValue -> float.
Variable NumberToString : float -> jsstring.
Variable AI : Type.
Variable complete : AI -> jsstring -> AI * Completion.

Lemma trim_blank (c : jsstring) :
  Forall (fun x => is_whitespace x = true) c -> trim c = [].
Proof.
  intros H. unfold trim.
  rewrite <- (app_nil_r c), dropWhile_app_all by assumption. reflexivity.
Qed.

Lemma cleanResponse_blank (content : option jsstring) :
  blank content -> cleanResponse content = Some (lit "{}").
Proof.
  destruct content as [c|]; simpl; [|reflexivity].
  intros H. unfold cleanResponse. now rewrite (trim_blank c H).
Qed.

Lemma analyze_chunks_abort (file : ParsedFile) (prDetails : PRDetails)
  (chunk : Chunk) (rest : list Chunk) (ai ai' : AI)
  (comments : list ReviewComment) (reply : Completion) (v : JsValue) :
  complete ai (createPrompt NumberToString file chunk prDetails)
  = (ai', reply) ->
  match reply with
  | CallFailed => JNull
  | Message content => decodeResponse JSON_parse content
  end = v ->
  truthy v = true ->
  (forall items, v <> JArr items) ->
  analyze_chunks JSON_parse Number NumberToString complete file prDetails
    (chunk :: rest) ai comments
  = (ai', None).
Proof.
  intros Hc Hv Ht Hna. cbn [analyze_chunks]. unfold getAIResponse.
  rewrite Hc, Hv, Ht.
  destruct v; try reflexivity. now destruct (Hna items).
Qed.

Lemma comment_of_path (file : ParsedFile) (item : JsValue)
  (cs : list ReviewComment) :
  comment_of Number file item = Some cs ->
  Forall (fun c => to file = Some (path c) /\ path c <> []) cs.
Proof.
  unfold comment_of, to_falsy.
  destruct (to file) as [s|] eqn:Et; [|intros [= <-]; constructor].
  destruct s as [|x s]; [intros [= <-]; constructor|]. simpl.
  destruct (get_prop item (lit "reviewComment")); [|discriminate]. simpl.
  destruct (get_prop item (lit "lineNumber")); [|discriminate]. simpl.
  intros [= <-]. constructor; [|constructor]. simpl. split; [reflexivity|easy].
Qed.

Lemma flatMap_opt_forall {A B} (f : A -> option (list B)) (P : B -> Prop)
  (l : list A) :
  (forall a bs, f a = Some bs -> Forall P bs) ->
  forall out, flatMap_opt f l = Some out -> Forall P out.
Proof.
  intros Hf. induction l as [|a l IH]; simpl; intros out.
  - intros [= <-]. constructor.
  - destruct (f a) as [bs|] eqn:Ea; [|discriminate]. simpl.
    destruct (flatMap_opt f l) as [rest|]; [|discriminate]. simpl.
    intros [= <-]. apply Forall_app. split; [now apply (Hf a)|now apply IH].
Qed.

Lemma createComment_path (file : ParsedFile) (chunk : Chunk) (v : JsValue)
  (cs : list ReviewComment) :
  createComment Number file chunk v = Some cs ->
  Forall (fun c => to file = Some (path c) /\ path c <> []) cs.
Proof.
  unfold createComment. destruct v; try discriminate.
  apply flatMap_opt_forall. intros a bs. apply comment_of_path.
Qed.

Lemma analyze_chunks_paths (file : ParsedFile) (prDetails : PRDetails)
  (P : ReviewComment -> Prop) (l : list Chunk) :
  (forall c, to file = Some (path c) /\ path c <> [] -> P c) ->
  forall ai comments ai' out,
    Forall P comments ->
    analyze_chunks JSON_parse Number NumberToString complete file prDetails
      l ai comments = (ai', Some out) ->
    Forall P out.
Proof.
  intros HP. induction l as [|chunk l IH]; intros ai comments ai' out Hc;
    cbn [analyze_chunks].
  - now intros [= _ <-].
  - destruct (getAIResponse JSON_parse complete ai _) as [ai1 v].
    destruct (truthy v); [|now apply IH].
    destruct (createComment Number file chunk v) as [cs|] eqn:Ec;
      [|discriminate].
    apply IH. apply Forall_app. split; [assumption|].
    eapply Forall_impl; [|exact (createComment_path _ _ _ _ Ec)].
    exact HP.
Qed.

Lemma analyze_files_paths (prDetails : PRDetails) (diff0 : list ParsedFile)
  (l : list ParsedFile) :
  incl l diff0 ->
  forall ai comments ai' out,
    Forall (on_analysed_file diff0) comments ->
    analyze_files JSON_parse Number NumberToString complete prDetails
      l ai comments = (ai', Some out) ->
    Forall (on_analysed_file diff0) out.
Proof.
  induction l as [|file l IH]; intros Hin ai comments ai' out Hc;
    cbn [analyze_files].
  - now intros [= _ <-].
  - assert (Hl : incl l diff0) by (intros x Hx; apply Hin; now right).
    destruct (is_deleted file) eqn:Ed; [now apply IH|].
    destruct (analyze_chunks JSON_parse Number NumberToString complete file
                prDetails (Data.chunks file) ai comments)
      as [ai1 [cs|]] eqn:Ea; [|discriminate].
    apply IH; [assumption|].
    apply (analyze_chunks_paths file prDetails _ _
             (fun c H => ex_intro _ file
                           (conj (Hin file (or_introl eq_refl))
                              (conj (proj1 H) (conj (proj2 H) Ed))))
             _ _ _ _ Hc Ea).
Qed.

End AnalysisMore.

(* ------------------------------------------------------------------ *)
(** ** The completion calls of the analysis *)

Section RecordingFacts.

Variable JSON_parse : jsstring -> option JsValue.
Variable Number : JsValue -> float.
Variable NumberToString : float -> jsstring.
Variable AI : Type.
Variable complete : AI -> jsstring -> AI * Completion.

Lemma getAIResponse_recording (ai : AI) (log : list jsstring)
  (prompt : jsstring) :
  getAIResponse JSON_parse (recording complete) (ai, log) prompt
  = ((fst (getAIResponse JSON_parse complete ai prompt), log ++ [prompt]),
     snd (getAIResponse JSON_parse complete ai prompt)).
Proof.
  unfold getAIResponse, recording. simpl.
  now destruct (complete ai prompt) as [ai1 reply].
Qed.

Lemma analyze_chunks_recording (file : ParsedFile) (prDetails : PRDetails)
  (l : list Chunk) :
  forall ai log comments,
    let plain_run := analyze_chunks JSON_parse Number NumberToString complete
                       file prDetails l ai comments in
    let rec_run := analyze_chunks JSON_parse Number NumberToString
                     (recording complete) file prDetails l (ai, log)
                     comments in
    fst (fst rec_run) = fst plain_run
    /\ snd rec_run = snd plain_run
    /\ exists done rest,
         l = done ++ rest
         /\ snd (fst rec_run)
            = log ++ map (fun chunk =>
                            createPrompt NumberToString file chunk prDetails)
                       done
         /\ (snd rec_run <> None -> rest = []).
Proof.
  induction l as [|chunk l IH]; intros ai log comments; cbn zeta.
  - simpl. repeat split. exists [], []. simpl. rewrite app_nil_r.
    repeat split.
  - cbn [analyze_chunks]. rewrite getAIResponse_recording.
    destruct (getAIResponse JSON_parse complete ai
                (createPrompt NumberToString file chunk prDetails))
      as [ai1 v]. cbn [fst snd].
    set (log1 := log ++ [createPrompt NumberToString file chunk prDetails]).
    assert (Hgo : forall cs,
      let plain_run := analyze_chunks JSON_parse Number NumberToString
                         complete file prDetails l ai1 cs in
      let rec_run := analyze_chunks JSON_parse Number NumberToString
                       (recording complete) file prDetails l (ai1, log1) cs in
      fst (fst rec_run) = fst plain_run
      /\ snd rec_run = snd plain_run
      /\ exists done rest,
           chunk :: l = done ++ rest
           /\ snd (fst rec_run)
              = log ++ map (fun chunk =>
                              createPrompt NumberToString file chunk prDetails)
                         done
           /\ (snd rec_run <> None -> rest = [])).
    { intros cs. cbn zeta.
      destruct (IH ai1 log1 cs) as (I1 & I2 & done & rest & I3 & I4 & I5).
      split; [exact I1|]. split; [exact I2|].
      exists (chunk :: done), rest. split; [now rewrite I3|].
      split; [|exact I5]. rewrite I4. unfold log1.
      now rewrite <- app_assoc. }
    destruct (truthy v); [|apply Hgo].
    destruct (createComment Number file chunk v) as [cs|]; [apply Hgo|].
    simpl. repeat split. exists [chunk], l. repeat split. easy.
Qed.

Lemma analyze_files_recording (prDetails : PRDetails) (l : list ParsedFile) :
  forall ai log comments,
    let plain_run := analyze_files JSON_parse Number NumberToString complete
                       prDetails l ai comments in
    let rec_run := analyze_files JSON_parse Number NumberToString
                     (recording complete) prDetails l (ai, log) comments in
    fst (fst rec_run) = fst plain_run
    /\ snd rec_run = snd plain_run
    /\ exists done rest,
         prompts_of NumberToString prDetails l = done ++ rest
         /\ snd (fst rec_run) = log ++ done
         /\ (snd rec_run <> None -> rest = []).
Proof.
  induction l as [|file l IH]; intros ai log comments; cbn zeta.
  - simpl. repeat split. exists [], []. rewrite (app_nil_r log).
    repeat split.
  - cbn [analyze_files prompts_of flat_map].
    destruct (is_deleted file) eqn:Ed.
    + destruct (IH ai log comments) as (I1 & I2 & done & rest & I3 & I4 & I5).
      split; [exact I1|]. split; [exact I2|].
      exists done, rest. repeat split; assumption.
    + destruct (analyze_chunks_recording file prDetails (Data.chunks file)
                  ai log comments)
        as (C1 & C2 & cdone & crest & C3 & C4 & C5).
      destruct (analyze_chunks JSON_parse Number NumberToString
                  (recording complete) file prDetails (Data.chunks file)
                  (ai, log) comments) as [[ai1 log1] res1].
      destruct (analyze_chunks JSON_parse Number NumberToString complete
                  file prDetails (Data.chunks file) ai comments)
        as [ai2 res2].
      cbn [fst snd] in C1, C2, C4, C5. subst ai2 res2 log1.
      destruct res1 as [cs|].
      * assert (Hr : crest = []) by (apply C5; discriminate). subst crest.
        rewrite app_nil_r in C3. rewrite <- C3.
        destruct (IH ai1
                    (log ++ map (fun chunk =>
                                   createPrompt NumberToString file chunk
                                     prDetails) (Data.chunks file)) cs)
          as (I1 & I2 & done & rest & I3 & I4 & I5).
        split; [exact I1|]. split; [exact I2|].
        exists (map (fun chunk =>
                       createPrompt NumberToString file chunk prDetails)
                  (Data.chunks file) ++ done), rest.
        fold (prompts_of NumberToString prDetails l).
        rewrite I3, I4, !app_assoc. repeat split. exact I5.
      * simpl. repeat split.
        exists (map (fun chunk =>
                       createPrompt NumberToString file chunk prDetails)
                  cdone),
          (map (fun chunk =>
                  createPrompt NumberToString file chunk prDetails) crest
           ++ prompts_of NumberToString prDetails l).
        fold (prompts_of NumberToString prDetails l).
        rewrite C3, map_app, <- app_assoc. repeat split. easy.
Qed.

End RecordingFacts.

(** X12. A reply that decodes to a value that is truthy but not an array
    ends the analysis with an exception: the value is handed to
    [createComment], which maps over it as over an array. A blank reply
    is such a reply: it is read as the text of the empty object. *)
Theorem reply_without_array_aborts_analysis
  (JSON_parse : jsstring -> option JsValue) (Number : JsValue -> float)
  (NumberToString : float -> jsstring)
  (AI : Type) (complete : AI -> jsstring -> AI * Completion)
  (prDetails : PRDetails) (file : ParsedFile) (chunk : Chunk)
  (rest : list Chunk) (others : list ParsedFile) (ai ai' : AI)
  (content : option jsstring) :
  is_deleted file = false ->
  Data.chunks file = chunk :: rest ->
  complete ai (createPrompt NumberToString file chunk prDetails)
  = (ai', Message content) ->
  truthy (decodeResponse JSON_parse content) = true ->
  (forall items, decodeResponse JSON_parse content <> JArr items) ->
  analyzeCode JSON_parse Number NumberToString complete
    (file :: others) prDetails ai
  = (ai', None)
  /\ (blank content ->
      forall fields,
        JSON_parse (lit "{}") = Some (JObj fields) ->
        lacks_reviews (JObj fields) ->
        decodeResponse JSON_parse content = JObj fields).
Proof.
  intros Hd Hch Hc Ht Hna. split.
  - unfold analyzeCode. cbn [analyze_files]. rewrite Hd, Hch.
    now rewrite (analyze_chunks_abort JSON_parse Number NumberToString AI
                   complete file prDetails chunk rest ai ai' []
                   (Message content) _ Hc eq_refl Ht Hna).
  - intros Hb fields Hp Hl.
    exact (decodeResponse_lacks JSON_parse content (lit "{}") _
             (cleanResponse_blank content Hb) Hp Hl).
Qed.

(** X13. Every comment that [analyzeCode] returns is on a file of the
    diff it analysed: its path is the new path, not empty, of a file
    that is not a deleted one. Validated against a diff that contains
    the analysed one, such a comment always finds a file, and it is kept
    exactly when the first file with its path has its line. *)
Theorem analysed_comments_find_their_file
  (JSON_parse : jsstring -> option JsValue) (Number : JsValue -> float)
  (NumberToString : float -> jsstring)
  (AI : Type) (complete : AI -> jsstring -> AI * Completion)
  (prDetails : PRDetails) (filteredDiff parsedDiff : list ParsedFile)
  (ai ai' : AI) (comments : list ReviewComment) :
  analyzeCode JSON_parse Number NumberToString complete
    filteredDiff prDetails ai = (ai', Some comments) ->
  incl filteredDiff parsedDiff ->
  Forall (on_analysed_file filteredDiff) comments
  /\ forall c, In c comments ->
       exists file,
         find (file_matches c) parsedDiff = Some file
         /\ (In c (validateCommentLine comments parsedDiff)
             <-> lineExists c file = true).
Proof.
  intros Ha Hin.
  assert (Hon : Forall (on_analysed_file filteredDiff) comments).
  { apply (analyze_files_paths JSON_parse Number NumberToString AI complete
             prDetails filteredDiff filteredDiff (incl_refl _)
             ai [] ai' comments); [constructor|exact Ha]. }
  split; [exact Hon|]. intros c Hc.
  rewrite Forall_forall in Hon.
  destruct (Hon c Hc) as (f & Hf & Hto & _ & _).
  destruct (find (file_matches c) parsedDiff) as [file|] eqn:Efind.
  - exists file. split; [reflexivity|].
    unfold validateCommentLine. rewrite filter_In. unfold keeps.
    rewrite Efind. tauto.
  - exfalso.
    pose proof (find_none _ _ Efind f (Hin f Hf)) as Hm.
    unfold file_matches in Hm. apply orb_false_iff in Hm as [Hm _].
    apply (proj2 (path_is_eq (to f) (path c))) in Hto. congruence.
Qed.

Lemma analyzeCode_recording
  (JSON_parse : jsstring -> option JsValue) (Number : JsValue -> float)
  (NumberToString : float -> jsstring)
  (AI : Type) (complete : AI -> jsstring -> AI * Completion)
  (prDetails : PRDetails) (parsedDiff : list ParsedFile) (ai : AI) :
  let run := analyzeCode JSON_parse Number NumberToString
               (recording complete) parsedDiff prDetails (ai, []) in
  let calls := snd (fst run) in
  (fst (fst run), snd run)
  = analyzeCode JSON_parse Number NumberToString complete
      parsedDiff prDetails ai
  /\ (exists rest,
        prompts_of NumberToString prDetails parsedDiff = calls ++ rest)
  /\ (snd run <> None ->
      calls = prompts_of NumberToString prDetails parsedDiff).
Proof.
  intros run calls.
  destruct (analyze_files_recording JSON_parse Number NumberToString AI
              complete prDetails parsedDiff ai [] [])
    as (R1 & R2 & done & rest & R3 & R4 & R5).
  fold (analyzeCode JSON_parse Number NumberToString (recording complete)
          parsedDiff prDetails (ai, [])) in R1, R2, R4, R5.
  fold (analyzeCode JSON_parse Number NumberToString complete
          parsedDiff prDetails ai) in R1, R2.
  fold run in R1, R2, R4, R5. simpl in R4. fold calls in R4. subst done.
  split; [|split].
  - rewrite R1, R2. now destruct (analyzeCode _ _ _ complete _ _ _).
  - now exists rest.
  - intros Hs. rewrite R3, (R5 Hs). now rewrite app_nil_r.
Qed.

(** X14. [analyzeCode] makes one completion call for each chunk of each
    file that is not a deleted one, in diff order, with the prompt built
    from that chunk; an exception ends the calls. Recording the prompts
    does not change the result. *)
Theorem one_completion_call_per_chunk
  (JSON_parse : jsstring -> option JsValue) (Number : JsValue -> float)
  (NumberToString : float -> jsstring)
  (AI : Type) (complete : AI -> jsstring -> AI * Completion)
  (prDetails : PRDetails) (parsedDiff : list ParsedFile) (ai : AI) :
  let run := analyzeCode JSON_parse Number NumberToString
               (recording complete) parsedDiff prDetails (ai, []) in
  let calls := snd (fst run) in
  (fst (fst run), snd run)
  = analyzeCode JSON_parse Number NumberToString complete
      parsedDiff prDetails ai
  /\ (exists rest,
        prompts_of NumberToString prDetails parsedDiff = calls ++ rest)
  /\ (snd run <> None ->
      calls = prompts_of NumberToString prDetails parsedDiff).
Proof.
  exact (analyzeCode_recording JSON_parse Number NumberToString AI complete
           prDetails parsedDiff ai).
Qed.

(* ------------------------------------------------------------------ *)
(** ** The validator: the first file, and lines that are not numbers *)

Section ValidatorMore.

Lemma find_first {A} (p : A -> bool) (l : list A) (x : A) :
  find p l = Some x <->
  exists pre post,
    l = pre ++ x :: post
    /\ Forall (fun y => p y = false) pre
    /\ p x = true.
Proof.
  induction l as [|a l IH]; simpl.
  - split; [discriminate|]. intros (pre & post & E & _). now destruct pre.
  - destruct (p a) eqn:Ea.
    + split.
      * intros [= <-]. exists [], l. repeat split; [constructor|assumption].
      * intros (pre & post & E & Hpre & Hx).
        destruct pre as [|b pre]; simpl in E.
        -- now injection E as <- _.
        -- injection E as <- _. inversion Hpre; subst. congruence.
    + rewrite IH. split.
      * intros (pre & post & -> & Hpre & Hx).
        exists (a :: pre), post. repeat split; [constructor|]; assumption.
      * intros (pre & post & E & Hpre & Hx).
        destruct pre as [|b pre]; simpl in E.
        -- injection E as <- _. congruence.
        -- injection E as <- ->. inversion Hpre; subst.
           now exists pre, post.
Qed.

Lemma file_matches_false (c : ReviewComment) (file : ParsedFile) :
  file_matches c file = false <->
  to file <> Some (path c) /\ from file <> Some (path c).
Proof.
  unfold file_matches. rewrite orb_false_iff.
  rewrite <- !Bool.not_true_iff_false, !path_is_eq. tauto.
Qed.

Lemma file_matches_true (c : ReviewComment) (file : ParsedFile) :
  file_matches c file = true <->
  to file = Some (path c) \/ from file = Some (path c).
Proof. unfold file_matches. now rewrite orb_true_iff, !path_is_eq. Qed.

Lemma strict_eq_nan (x n : float) : is_nan n = true -> strict_eq x n = false.
Proof.
  intros Hn. unfold strict_eq. rewrite FloatAxioms.eqb_spec.
  assert (E : FloatOps.Prim2SF n = SpecFloat.S754_nan)
    by (unfold FloatOps.Prim2SF; now rewrite Hn).
  rewrite E. unfold SpecFloat.SFeqb, SpecFloat.SFcompare.
  now destruct (FloatOps.Prim2SF x).
Qed.

Lemma change_matches_nan (n : float) (change : Change) :
  is_nan n = true -> change_matches n change = false.
Proof.
  intros Hn. destruct change; simpl; now rewrite !strict_eq_nan.
Qed.

End ValidatorMore.

(** X16. [validateCommentLine] keeps a candidate exactly when the first
    file of the diff whose new or old path is the comment's path has a
    change record for the comment's line. Files with that path further
    down the diff are not looked at. *)
Theorem validateCommentLine_first_file
  (comments : list ReviewComment) (parsedDiff : list ParsedFile)
  (c : ReviewComment) :
  In c (validateCommentLine comments parsedDiff) <->
  In c comments
  /\ exists pre file post,
       parsedDiff = pre ++ file :: post
       /\ Forall (fun f => to f <> Some (path c) /\ from f <> Some (path c))
            pre
       /\ (to file = Some (path c) \/ from file = Some (path c))
       /\ exists chunk change,
            In chunk (Data.chunks file) /\ In change (changes chunk)
            /\ addresses (line c) change.
Proof.
  unfold validateCommentLine. rewrite filter_In, keeps_spec.
  split; intros [Hc H]; (split; [exact Hc|]).
  - destruct H as (file & Hfind & Hline).
    apply find_first in Hfind as (pre & post & E & Hpre & Hm).
    exists pre, file, post. split; [exact E|]. split; [|split].
    + eapply Forall_impl; [|exact Hpre]. intros f. apply file_matches_false.
    + now apply file_matches_true.
    + now apply lineExists_spec.
  - destruct H as (pre & file & post & E & Hpre & Hm & Hline).
    exists file. split.
    + apply find_first. exists pre, post. split; [exact E|]. split.
      * eapply Forall_impl; [|exact Hpre]. intros f. apply file_matches_false.
      * now apply file_matches_true.
    + now apply lineExists_spec.
Qed.

(** X17. A comment whose line is not a number (the value of [Number] on
    a missing or malformed line number) is never kept: no change record
    equals NaN. *)
Theorem nan_line_is_never_kept
  (comments : list ReviewComment) (parsedDiff : list ParsedFile)
  (c : ReviewComment) :
  is_nan (line c) = true ->
  ~ In c (validateCommentLine comments parsedDiff).
Proof.
  intros Hn Hin. unfold validateCommentLine in Hin.
  apply filter_In in Hin as [_ Hk]. apply keeps_spec in Hk as (file & _ & Hl).
  unfold lineExists in Hl. apply existsb_exists in Hl as (chunk & _ & Hl).
  apply existsb_exists in Hl as (change & _ & Hl).
  now rewrite (change_matches_nan _ _ Hn) in Hl.
Qed.

Lemma nan_line_is_never_kept_witness :
  is_nan (line (comment_at nan)) = true
  /\ ~ In (comment_at nan)
         (validateCommentLine [comment_at nan; comment_at 2] [file_c]).
Proof.
  split; [reflexivity|].
  exact (nan_line_is_never_kept [comment_at nan; comment_at 2] [file_c]
           (comment_at nan) eq_refl).
Defined.

(* ------------------------------------------------------------------ *)
(** ** The submission loop: counts and waiting time *)

Section BatcherBounds.

Variable GitHub : Type.
Variable createReview : GitHub -> list ReviewComment -> GitHub * ApiOutcome.

Lemma pause_total_app (a b : list Event) :
  pause_total (a ++ b) = (pause_total a + pause_total b)%N.
Proof.
  induction a as [|[batch o|ms] a IH]; simpl; [reflexivity|assumption|].
  rewrite IH. lia.
Qed.

Lemma accepted_count_le (subs : list (list ReviewComment * ApiOutcome)) :
  accepted_count subs <= length (concat (map fst subs)).
Proof.
  induction subs as [|[b [|m]] subs IH]; simpl; rewrite ?length_app; lia.
Qed.

Lemma ceil_div_lt_iff (a b k : nat) :
  0 < b -> k < ceil_div a b <-> k * b < a.
Proof.
  intros Hb. split; [now apply ceil_div_lt|].
  intros H. unfold ceil_div.
  apply Nat.div_le_lower_bound; [lia|]. nia.
Qed.

(** One iteration of the submission loop waits at most the cooldown. *)
Lemma post_batch_pause (comments : list ReviewComment)
  (st : PostState GitHub) (i : nat) :
  (pause_total (events (post_batch createReview comments st i))
   <= pause_total (events st) + 10000)%N.
Proof.
  unfold post_batch.
  destruct (createReview (github st) _) as [gh [|m]]; simpl;
    rewrite pause_total_app; simpl.
  - destruct (i + Batcher.batchSize <? length comments); simpl; lia.
  - destruct (rate_limited m); simpl; lia.
Qed.

Lemma post_loop_pause (comments : list ReviewComment) (idx : list nat) :
  forall st : PostState GitHub,
    (pause_total (events (fold_left (post_batch createReview comments) idx st))
     <= pause_total (events st) + 10000 * N.of_nat (length idx))%N.
Proof.
  induction idx as [|i idx IH]; intros st; cbn [fold_left length].
  - lia.
  - specialize (IH (post_batch createReview comments st i)).
    pose proof (post_batch_pause comments st i). lia.
Qed.

Hypothesis always_accepted :
  forall gh batch, snd (createReview gh batch) = Accepted.

Lemma post_batch_accepted (comments : list ReviewComment)
  (st : PostState GitHub) (i : nat) :
  let st' := post_batch createReview comments st i in
  successCount st'
  = successCount st + length (slice i (i + Batcher.batchSize) comments)
  /\ pause_total (events st')
     = (pause_total (events st)
        + if (i + Batcher.batchSize <? length comments)%nat
          then 3000 else 0)%N.
Proof.
  unfold post_batch.
  pose proof (always_accepted (github st)
                (slice i (i + Batcher.batchSize) comments)) as Ha.
  destruct (createReview (github st) _) as [gh o]. simpl in Ha. subst o.
  simpl. rewrite pause_total_app. simpl.
  split; [reflexivity|].
  now destruct (i + Batcher.batchSize <? length comments).
Qed.

Lemma post_loop_accepted (comments : list ReviewComment) (n : nat) :
  forall a (st : PostState GitHub),
    a + n = ceil_div (length comments) Batcher.batchSize ->
    let st' := fold_left (post_batch createReview comments)
                 (map (fun k => k * Batcher.batchSize) (seq a n)) st in
    successCount st'
    = successCount st
      + length (skipn (a * Batcher.batchSize) comments)
    /\ pause_total (events st')
       = (pause_total (events st) + 3000 * N.of_nat (n - 1))%N.
Proof.
  assert (Hpos : 0 < Batcher.batchSize) by (unfold Batcher.batchSize; lia).
  induction n as [|n IH]; intros a st Ha; cbn [seq map fold_left].
  - cbv zeta. split; [|simpl; lia].
    rewrite skipn_all2; [simpl; lia|].
    destruct (Nat.lt_ge_cases (a * Batcher.batchSize) (length comments))
      as [Hlt|]; [|assumption].
    apply (ceil_div_lt_iff _ _ _ Hpos) in Hlt. lia.
  - destruct (post_batch_accepted comments st (a * Batcher.batchSize))
      as (B1 & B2).
    destruct (IH (S a) (post_batch createReview comments st
                          (a * Batcher.batchSize)))
      as (I1 & I2); [lia|].
    cbv zeta in *. rewrite I1, I2, B1, B2. split.
    + rewrite slice_length, !length_skipn. lia.
    + destruct n as [|n].
      * assert (Hlast : (a * Batcher.batchSize + Batcher.batchSize
                         <? length comments) = false).
        { apply Nat.ltb_ge.
          destruct (Nat.lt_ge_cases (S a * Batcher.batchSize)
                      (length comments)) as [Hlt|Hge];
            [|rewrite Nat.mul_succ_l in Hge; lia].
          apply (ceil_div_lt_iff _ _ _ Hpos) in Hlt. lia. }
        rewrite Hlast. simpl. lia.
      * assert (Hmore : (a * Batcher.batchSize + Batcher.batchSize
                         <? length comments) = true).
        { apply Nat.ltb_lt.
          assert (Hlt : S a < ceil_div (length comments) Batcher.batchSize)
            by lia.
          apply (ceil_div_lt_iff _ _ _ Hpos) in Hlt.
          rewrite Nat.mul_succ_l in Hlt. lia. }
        rewrite Hmore. lia.
Qed.

End BatcherBounds.

(** X18. Bounds of the submission loop: one call for each batch of five;
    the success count never exceeds the number of comments; the loop
    waits at most the cooldown for each batch. When every call is
    accepted, all comments are counted and the loop waits 3000 ms
    between two batches and not after the last. *)
Theorem postReviewComments_bounds
  (GitHub : Type)
  (createReview : GitHub -> list ReviewComment -> GitHub * ApiOutcome)
  (fs0 : FileSystem) (gh : GitHub) (comments : list ReviewComment) :
  let r := postReviewComments createReview false fs0 gh comments in
  let evs := events (posted r) in
  let n := ceil_div (length comments) Batcher.batchSize in
  length (submissions evs) = n
  /\ successCount (posted r) <= length comments
  /\ (pause_total evs <= 10000 * N.of_nat n)%N
  /\ ((forall gh' batch, snd (createReview gh' batch) = Accepted) ->
      successCount (posted r) = length comments
      /\ pause_total evs = (3000 * N.of_nat (n - 1))%N).
Proof.
  intros r evs n.
  assert (Hpos : 0 < Batcher.batchSize) by (unfold Batcher.batchSize; lia).
  set (st0 := {| github := gh; successCount := 0; events := [] |}).
  assert (Er : posted r
               = fold_left (post_batch createReview comments)
                   (loop_indices Batcher.batchSize (length comments)) st0)
    by reflexivity.
  destruct (post_loop_trace GitHub createReview comments
              (loop_indices Batcher.batchSize (length comments)) st0)
    as (_ & T2 & T3); [constructor|reflexivity|].
  rewrite <- Er in T2, T3. fold evs in T2, T3. simpl in T3.
  assert (Hlen : length (submissions evs) = n).
  { rewrite <- (length_map fst), T3, length_map.
    now apply loop_indices_length. }
  split; [exact Hlen|]. split; [|split].
  - rewrite T2. etransitivity; [apply accepted_count_le|].
    rewrite T3, slices_concat by assumption. constructor.
  - unfold evs. rewrite Er.
    pose proof (post_loop_pause GitHub createReview comments
                  (loop_indices Batcher.batchSize (length comments)) st0) as P.
    rewrite (loop_indices_length _ _ Hpos) in P. simpl in P. exact P.
  - intros Hacc.
    destruct (post_loop_accepted GitHub createReview Hacc comments n 0 st0
                eq_refl) as (A1 & A2).
    unfold n in A1, A2 at 1.
    rewrite <- (loop_indices_eq _ _ Hpos) in A1, A2.
    rewrite <- Er in A1, A2. fold evs in A2. simpl in A1, A2.
    split; assumption.
Qed.

(* ------------------------------------------------------------------ *)
(** ** Trimming at the end *)

Section TrimFacts.

Lemma dropWhileEnd_app_all (p : N -> bool) (s w : jsstring) :
  Forall (fun c => p c = true) w ->
  dropWhileEnd p (s ++ w) = dropWhileEnd p s.
Proof.
  intros H. unfold dropWhileEnd. rewrite rev_app_distr.
  now rewrite dropWhile_app_all by now apply Forall_rev.
Qed.

Lemma dropWhileEnd_split (p : N -> bool) (s : jsstring) :
  exists w, s = dropWhileEnd p s ++ w /\ Forall (fun c => p c = true) w.
Proof.
  unfold dropWhileEnd.
  assert (H : forall l, exists w,
            l = rev w ++ dropWhile p l /\ Forall (fun c => p c = true) w).
  { induction l as [|c l (w & E & Hw)]; simpl.
    - exists []. split; [reflexivity|constructor].
    - destruct (p c) eqn:Ec.
      + exists (w ++ [c]). split.
        * rewrite rev_app_distr. simpl. now rewrite <- E.
        * apply Forall_app. split; [assumption|]. now constructor.
      + exists []. split; [reflexivity|constructor]. }
  destruct (H (rev s)) as (w & E & Hw).
  exists w. split; [|assumption].
  apply (f_equal (@rev N)) in E.
  now rewrite rev_involutive, rev_app_distr, rev_involutive in E.
Qed.

Lemma dropWhileEnd_keeps (p : N -> bool) (a t : jsstring) (c : N) :
  p c = false ->
  dropWhileEnd p (a ++ c :: t) = a ++ c :: dropWhileEnd p t.
Proof.
  intros Hc. unfold dropWhileEnd.
  rewrite rev_app_distr. simpl rev at 1.
  assert (H : forall l, dropWhile p (l ++ c :: rev a)
                        = dropWhile p l ++ c :: rev a).
  { induction l as [|x l IH]; simpl; [now rewrite Hc|].
    destruct (p x); [assumption|reflexivity]. }
  rewrite <- app_assoc. simpl app at 2. rewrite H.
  rewrite rev_app_distr. simpl. now rewrite rev_involutive, <- app_assoc.
Qed.

Lemma trim_app_ws (s w : jsstring) (c : N) :
  hd_error s = Some c -> is_whitespace c = false ->
  Forall (fun x => is_whitespace x = true) w ->
  trim (s ++ w) = trim s.
Proof.
  intros Hh Hc Hw. unfold trim.
  destruct s as [|x s]; [discriminate|]. injection Hh as ->.
  simpl. rewrite Hc. now apply (dropWhileEnd_app_all _ (c :: s) w).
Qed.

End TrimFacts.

(* ------------------------------------------------------------------ *)
(** ** The incremental text *)

Section IncrementalFacts.

Lemma fold_blocks (files : list ChangedFile) :
  forall acc,
    fold_left (fun combinedDiff file => combinedDiff ++ incremental_block file)
      files acc
    = acc ++ concat (map incremental_block files).
Proof.
  induction files as [|file files IH]; intros acc; simpl.
  - now rewrite app_nil_r.
  - now rewrite IH, app_assoc.
Qed.

Lemma incremental_block_head (file : ChangedFile) :
  exists rest,
    incremental_block file = lit "diff --git a/" ++ filename file ++ rest
    /\ rest <> [].
Proof.
  unfold incremental_block, placeholder.
  destruct (patch file) as [p|]; [destruct (nonempty p)|];
    eexists; (split; [rewrite <- ?app_assoc; reflexivity|discriminate]).
Qed.

End IncrementalFacts.

(** X19. The incremental text is the blocks of the changed files, one
    after the other, less the white space at the end; it has no white
    space at either end and, with a file listed, starts with a file
    header. Without files it is empty. *)
Theorem getIncrementalChanges_text (baseSha headSha : jsstring)
  (files : list ChangedFile) :
  exists text w,
    getIncrementalChanges (JStr baseSha) (JStr headSha)
      (Compared (Some files)) = Some text
    /\ concat (map incremental_block files) = text ++ w
    /\ Forall (fun c => is_whitespace c = true) w
    /\ trim text = text
    /\ (files <> [] -> startsWith text (lit "diff --git a/") = true).
Proof.
  unfold getIncrementalChanges.
  destruct files as [|file files].
  - exists [], []. repeat split; try constructor. easy.
  - cbn [length Nat.eqb]. rewrite fold_blocks. cbn [app map concat].
    destruct (incremental_block_head file) as (rest & E & Hr).
    set (s := incremental_block file ++ concat (map incremental_block files)).
    assert (Hs : s = lit "diff --git a/"
                     ++ (filename file ++ rest
                         ++ concat (map incremental_block files)))
      by (unfold s; rewrite E; now rewrite <- !app_assoc).
    assert (Ht : trim s = dropWhileEnd is_whitespace s)
      by (unfold trim; now rewrite Hs).
    destruct (dropWhileEnd_split is_whitespace s) as (w & Ew & Hw).
    exists (trim s), w. rewrite Ht.
    split; [reflexivity|]. split; [exact Ew|]. split; [exact Hw|]. split.
    + rewrite <- Ht. apply trim_idem.
    + intros _. rewrite Hs.
      change (lit "diff --git a/" ++ ?t)
        with (firstn 12 (lit "diff --git a/") ++ 47%N :: t) at 1.
      rewrite dropWhileEnd_keeps by reflexivity. reflexivity.
Qed.

(* ------------------------------------------------------------------ *)
(** ** The two ways to build the diff *)

Section AgreementFacts.

Lemma small_patch_text (r0 : Run) (file : ChangedFile) :
  small_patch file ->
  snd (process_file r0 file) ++ nl = incremental_block file
  /\ exists rest, snd (process_file r0 file) = 100%N :: rest.
Proof.
  unfold small_patch, process_file, incremental_block, placeholder.
  destruct (patch file) as [p|].
  - intros Hs. destruct (nonempty p).
    + assert (E : (15000 <? N.of_nat (length (split_nl p)))%N = false)
        by now apply N.ltb_ge.
      rewrite E. cbn [snd]. split; [|eexists; reflexivity].
      now rewrite <- !app_assoc.
    + cbn [snd]. split; [|eexists; reflexivity]. now rewrite <- !app_assoc.
  - intros _. cbn [snd]. split; [|eexists; reflexivity].
    now rewrite <- !app_assoc.
Qed.

Lemma concat_lines (l : list jsstring) :
  l <> [] -> concat (map (fun x => x ++ nl) l) = join nl l ++ nl.
Proof.
  induction l as [|a l IH]; [easy|]. intros _.
  destruct l as [|b l]; [simpl; now rewrite app_nil_r|].
  change (join nl (a :: b :: l)) with (a ++ nl ++ join nl (b :: l)).
  cbn [map concat] in *. rewrite IH by discriminate.
  now rewrite <- !app_assoc.
Qed.

End AgreementFacts.

(** X20. For a change set of at most ten files whose patches have at
    most 15000 lines, the incremental path and a file-by-file run that
    starts a new session give the same text, up to white space at the
    end. *)
Theorem incremental_agrees_with_file_by_file
  (env : Env) (owner repo : jsstring) (pull_number : float)
  (fs0 : FileSystem) (files : list ChangedFile) (baseSha headSha : jsstring) :
  shouldResume (loadProgress fs0) pull_number (owner ++ lit "/" ++ repo)
  = false ->
  listFiles env = Some files ->
  files <> [] ->
  length files <= Assembler.batchSize ->
  Forall small_patch files ->
  getIncrementalChanges (JStr baseSha) (JStr headSha) (Compared (Some files))
  = Some (trim (diff (getIndividualFileDiffs env owner repo pull_number fs0))).
Proof.
  intros Hr Hf Hne Hlen Hsmall.
  set (r0 := {| progress := createInitialProgress pull_number [] 0 [];
                fs := fs0; history := []; handled := [] |}).
  destruct (run_outcome env owner repo pull_number fs0 files r0 Hf Hne)
    as (final & _ & O2 & _).
  rewrite (resumed_none _ _ _ Hr) in O2. cbn [seed_of todo_of app] in O2.
  assert (Hitems : work_items env files = files).
  { unfold work_items. destruct (LOCAL_TESTING env); [|reflexivity].
    unfold slice. cbn [skipn]. apply firstn_all2.
    unfold Assembler.batchSize in Hlen. lia. }
  rewrite Hitems, (batches_text_small r0 files Hlen) in O2. rewrite O2.
  unfold getIncrementalChanges.
  replace (length files =? 0) with false
    by (destruct files; [easy|reflexivity]).
  rewrite fold_blocks. cbn [app]. f_equal.
  assert (Hblocks : map incremental_block files
                    = map (fun x => x ++ nl)
                        (map (fun file => snd (process_file r0 file)) files)).
  { rewrite map_map. apply map_ext_in. intros file Hin.
    rewrite Forall_forall in Hsmall.
    now destruct (small_patch_text r0 file (Hsmall file Hin)) as [<- _]. }
  rewrite Hblocks, concat_lines
    by (destruct files; [easy|discriminate]).
  destruct files as [|file files]; [easy|].
  inversion Hsmall as [|? ? Hs _]; subst.
  destruct (small_patch_text r0 file Hs) as (_ & rest & Erest).
  apply (trim_app_ws _ nl 100%N).
  - cbn [map]. destruct (map _ files); cbn [join]; now rewrite Erest.
  - reflexivity.
  - now constructor.
Qed.

Lemma incremental_agrees_with_file_by_file_witness :
  getIncrementalChanges (JStr (lit "abc")) (JStr (lit "def"))
    (Compared (Some three_files))
  = Some (trim (diff (getIndividualFileDiffs (env_of three_files)
                        (lit "o") (lit "r") 7 empty_store))).
Proof.
  apply (incremental_agrees_with_file_by_file (env_of three_files)
           (lit "o") (lit "r") 7 empty_store three_files
           (lit "abc") (lit "def")).
  - reflexivity.
  - reflexivity.
  - discriminate.
  - unfold Assembler.batchSize. simpl. lia.
  - repeat constructor.
Defined.

(** X21. [--clear-progress] wins over the other two commands: on a
    writable store the progress file is removed and nothing is exported,
    and a run that follows handles every work item. *)
Theorem clear_command_resets_store (argv : list jsstring) (fs0 : FileSystem) :
  has_flag (skipn 2 argv) (lit "--clear-progress") = true ->
  writable fs0 = true ->
  let none := {| progress_file := Missing; writable := true |} in
  handleProgressCommands argv fs0
  = Some {| cli_handled := true; cli_store := none; cli_export := None |}
  /\ forall env owner repo pull_number files,
       listFiles env = Some files ->
       fetched (getIndividualFileDiffs env owner repo pull_number none)
       = map filename (work_items env files).
Proof.
  intros Hflag Hw none. split.
  - unfold handleProgressCommands. rewrite Hflag.
    destruct fs0 as [pf w]. simpl in Hw. subst w.
    unfold clearProgress. simpl. now destruct pf.
  - intros env owner repo pull_number files Hf.
    now apply empty_store_run_fetches_all.
Qed.

Lemma clear_command_resets_store_witness :
  handleProgressCommands
    [lit "node"; lit "main.js"; lit "--export-comments";
     lit "--clear-progress"]
    (store_of session_a)
  = Some {| cli_handled := true; cli_store := empty_store;
            cli_export := None |}.
Proof.
  exact (proj1 (clear_command_resets_store
                  [lit "node"; lit "main.js"; lit "--export-comments";
                   lit "--clear-progress"]
                  (store_of session_a) eq_refl eq_refl)).
Defined.

(** X22. [--export-comments] writes out what [postReviewComments]
    recorded: the comments of the stored session followed by the ones
    handed to the batcher, whether the service accepted them or not. *)
Theorem export_returns_recorded_comments
  (GitHub : Type)
  (createReview : GitHub -> list ReviewComment -> GitHub * ApiOutcome)
  (argv : list jsstring) (local : bool) (fs0 : FileSystem) (gh : GitHub)
  (p : ReviewProgress) (comments : list ReviewComment) :
  has_flag (skipn 2 argv) (lit "--clear-progress") = false ->
  has_flag (skipn 2 argv) (lit "--show-progress") = false ->
  has_flag (skipn 2 argv) (lit "--export-comments") = true ->
  progress_file fs0 = Saved p ->
  writable fs0 = true ->
  allComments p ++ comments <> [] ->
  let fs1 := stored (postReviewComments createReview local fs0 gh comments) in
  handleProgressCommands argv fs1
  = Some {| cli_handled := true; cli_store := fs1;
            cli_export := Some (allComments p ++ comments) |}.
Proof.
  intros H1 H2 H3 Hp Hw Hne fs1.
  assert (E : fs1 = {| progress_file := Saved (add_comments comments p);
                       writable := true |}).
  { unfold fs1, postReviewComments, loadProgress. rewrite Hp.
    rewrite (saveProgress_saved _ _ Hw). now destruct local. }
  unfold handleProgressCommands. rewrite H1, H2, H3, E. simpl.
  destruct (allComments p ++ comments); [easy|reflexivity].
Qed.

Lemma export_returns_recorded_comments_witness :
  handleProgressCommands [lit "node"; lit "main.js"; lit "--export-comments"]
    (stored (postReviewComments second_call_limited false
               (store_of session_a) 0 eleven_comments))
  = Some {| cli_handled := true;
            cli_store := stored (postReviewComments second_call_limited false
                                   (store_of session_a) 0 eleven_comments);
            cli_export := Some eleven_comments |}.
Proof.
  apply (export_returns_recorded_comments nat second_call_limited
           [lit "node"; lit "main.js"; lit "--export-comments"]
           false (store_of session_a) 0 session_a eleven_comments);
    try reflexivity.
  discriminate.
Defined.

(* ------------------------------------------------------------------ *)
(** ** From the diff text to the submission *)

Section PipelineFacts.

Variable parseDiff : jsstring -> list ParsedFile.
Variable minimatch : jsstring -> jsstring -> bool.
Variable JSON_parse : jsstring -> option JsValue.
Variable Number : JsValue -> float.
Variable NumberToString : float -> jsstring.
Variable AI : Type.
Variable complete : AI -> jsstring -> AI * Completion.
Variable GitHub : Type.
Variable createReview : GitHub -> list ReviewComment -> GitHub * ApiOutcome.

(** The run, by the stage it ends at. *)
Lemma reviewDiff_cases (exclude : jsstring) (local : bool)
  (fs0 : FileSystem) (gh : GitHub) (ai : AI) (prDetails : PRDetails)
  (diff : jsstring) :
  let r := reviewDiff parseDiff minimatch JSON_parse Number NumberToString
             complete createReview exclude local fs0 gh ai prDetails diff in
  let filteredDiff :=
    filter (not_excluded minimatch (excludePatterns exclude))
      (parseDiff diff) in
  (service r = ai /\ submission r = None)
  \/ (service r
      = fst (analyzeCode JSON_parse Number NumberToString complete
               filteredDiff prDetails ai)
      /\ (submission r = None
          \/ exists comments,
               snd (analyzeCode JSON_parse Number NumberToString complete
                      filteredDiff prDetails ai) = Some comments
               /\ submission r
                  = createReviewComment createReview local fs0 gh comments
                      (parseDiff diff))).
Proof.
  intros r filteredDiff. unfold r, reviewDiff.
  destruct (is_empty (trim diff)); [now left|].
  destruct (length (parseDiff diff) =? 0); [now left|].
  fold filteredDiff.
  destruct (length filteredDiff =? 0); [now left|].
  right.
  destruct (analyzeCode JSON_parse Number NumberToString complete
              filteredDiff prDetails ai) as [ai' [comments|]]; simpl.
  - split; [reflexivity|].
    destruct (0 <? length comments); [|now left].
    right. now exists comments.
  - split; [reflexivity|now left].
Qed.

End PipelineFacts.

(** X23. Every comment that the run submits is anchored in the parsed
    diff and is on a file of that diff that is neither excluded by the
    patterns nor a deleted file. *)
Theorem submitted_comments_are_on_reviewed_files
  (parseDiff : jsstring -> list ParsedFile)
  (minimatch : jsstring -> jsstring -> bool)
  (JSON_parse : jsstring -> option JsValue) (Number : JsValue -> float)
  (NumberToString : float -> jsstring)
  (AI : Type) (complete : AI -> jsstring -> AI * Completion)
  (GitHub : Type)
  (createReview : GitHub -> list ReviewComment -> GitHub * ApiOutcome)
  (exclude : jsstring) (local : bool) (fs0 : FileSystem) (gh : GitHub)
  (ai : AI) (prDetails : PRDetails) (diff : jsstring)
  (result : PostResult GitHub) (batch : list ReviewComment)
  (outcome : ApiOutcome) (c : ReviewComment) :
  submission (reviewDiff parseDiff minimatch JSON_parse Number NumberToString
                complete createReview exclude local fs0 gh ai prDetails diff)
  = Some result ->
  In (Submit batch outcome) (events (posted result)) ->
  In c batch ->
  anchored (parseDiff diff) c
  /\ exists file,
       In file (parseDiff diff)
       /\ to file = Some (path c)
       /\ is_deleted file = false
       /\ not_excluded minimatch (excludePatterns exclude) file = true.
Proof.
  intros Hs Hev Hc.
  destruct (reviewDiff_cases parseDiff minimatch JSON_parse Number
              NumberToString AI complete GitHub createReview exclude local
              fs0 gh ai prDetails diff)
    as [[_ Hn]|[_ [Hn|(comments & Ha & Hsub)]]];
    try (rewrite Hn in Hs; discriminate).
  rewrite Hsub in Hs. unfold createReviewComment in Hs.
  destruct (length (validateCommentLine comments (parseDiff diff)) =? 0);
    [discriminate|].
  injection Hs as <-.
  apply (submitted_incl GitHub createReview) in Hev.
  apply Hev in Hc. unfold validateCommentLine in Hc.
  apply filter_In in Hc as [Hin Hk].
  split; [now apply keeps_anchored|].
  set (filteredDiff := filter (not_excluded minimatch (excludePatterns exclude))
                         (parseDiff diff)) in *.
  destruct (analyzeCode JSON_parse Number NumberToString complete
              filteredDiff prDetails ai) as [ai' res] eqn:Ea.
  simpl in Ha. subst res.
  pose proof (analyze_files_paths JSON_parse Number NumberToString AI complete
                prDetails filteredDiff filteredDiff (incl_refl _)
                ai [] ai' comments (Forall_nil _) Ea) as Hon.
  rewrite Forall_forall in Hon.
  destruct (Hon c Hin) as (file & Hf & Hto & _ & Hd).
  apply filter_In in Hf as [Hf Hx].
  exists file. repeat split; assumption.
Qed.

(** X24. The completion calls of the run are calls for chunks of files
    that the patterns do not exclude: the prompts of the filtered diff,
    in order, up to the point where the run ends. *)
Theorem excluded_files_get_no_completion_call
  (parseDiff : jsstring -> list ParsedFile)
  (minimatch : jsstring -> jsstring -> bool)
  (JSON_parse : jsstring -> option JsValue) (Number : JsValue -> float)
  (NumberToString : float -> jsstring)
  (AI : Type) (complete : AI -> jsstring -> AI * Completion)
  (GitHub : Type)
  (createReview : GitHub -> list ReviewComment -> GitHub * ApiOutcome)
  (exclude : jsstring) (local : bool) (fs0 : FileSystem) (gh : GitHub)
  (ai : AI) (prDetails : PRDetails) (diff : jsstring) :
  let r := reviewDiff parseDiff minimatch JSON_parse Number NumberToString
             (recording complete) createReview exclude local fs0 gh
             (ai, []) prDetails diff in
  exists rest,
    prompts_of NumberToString prDetails
      (filter (not_excluded minimatch (excludePatterns exclude))
         (parseDiff diff))
    = snd (service r) ++ rest.
Proof.
  intros r.
  destruct (reviewDiff_cases parseDiff minimatch JSON_parse Number
              NumberToString (AI * list jsstring) (recording complete)
              GitHub createReview exclude local fs0 gh (ai, []) prDetails diff)
    as [[Hs _]|[Hs _]]; fold r in Hs; rewrite Hs.
  - now eexists.
  - destruct (analyzeCode_recording JSON_parse Number
                NumberToString AI complete prDetails
                (filter (not_excluded minimatch (excludePatterns exclude))
                   (parseDiff diff)) ai) as (_ & H & _).
    exact H.
Qed.

Lemma submitted_comments_are_on_reviewed_files_witness :
  anchored (sample_parseDiff (lit "diff")) (comment_at 2)
  /\ exists file,
       In file (sample_parseDiff (lit "diff"))
       /\ to file = Some (path (comment_at 2))
       /\ is_deleted file = false
       /\ not_excluded sample_minimatch (excludePatterns (lit "gen.js, x"))
            file = true.
Proof.
  apply (submitted_comments_are_on_reviewed_files sample_parseDiff
           sample_minimatch one_review_decoder sample_number
           sample_number_text (list jsstring)
           (logging_service (Message (Some (lit "x")))) nat always_accept
           (lit "gen.js, x") false empty_store 0 [] details (lit "diff")
           (postReviewComments always_accept false empty_store 0
              [comment_at 2])
           [comment_at 2] Accepted (comment_at 2)).
  - reflexivity.
  - left. reflexivity.
  - left. reflexivity.
Defined.

(* ------------------------------------------------------------------ *)
(** ** The details of the pull request *)

Section DetailsFacts.

Variable JSON_parse : jsstring -> option JsValue.
Variable parseInt : jsstring -> float.
Variable pulls_get : JsValue -> JsValue -> JsValue -> PullAnswer.

Lemma leb_false_neq (x y : float) :
  (x <=? y)%float = false -> (x =? y)%float = false.
Proof.
  rewrite FloatAxioms.leb_spec, FloatAxioms.eqb_spec.
  unfold SpecFloat.SFleb, SpecFloat.SFeqb.
  now destruct (SpecFloat.SFcompare _ _) as [[| |]|].
Qed.

Lemma manual_branch (manualPRNumber : jsstring) :
  trim manualPRNumber <> [] ->
  nonempty manualPRNumber && nonempty (trim manualPRNumber) = true.
Proof.
  intros H. destruct manualPRNumber as [|c s]; [now destruct H|].
  simpl. now destruct (trim (c :: s)).
Qed.

Lemma prNumber_of_truthy (manualPRNumber : jsstring) (eventData v : JsValue) :
  prNumber_of parseInt manualPRNumber eventData = Some v ->
  truthy v = true
  /\ (trim manualPRNumber <> [] -> v = JNum (parseInt manualPRNumber)).
Proof.
  unfold prNumber_of.
  destruct (nonempty manualPRNumber && nonempty (trim manualPRNumber)) eqn:Em.
  - destruct (is_nan (parseInt manualPRNumber)) eqn:En; [discriminate|].
    destruct (parseInt manualPRNumber <=? 0)%float eqn:El; [discriminate|].
    simpl. intros [= <-]. split; [|reflexivity].
    simpl. now rewrite (leb_false_neq _ _ El), En.
  - assert (Hb : trim manualPRNumber = []).
    { apply andb_false_iff in Em as [Em|Em].
      - now destruct manualPRNumber.
      - now destruct (trim manualPRNumber). }
    destruct (get_prop eventData (lit "number")) as [number|];
      [|discriminate].
    simpl. destruct (truthy number) eqn:Et.
    + intros [= <-]. split; [assumption|]. now intros [].
    + destruct (get_prop eventData (lit "pull_request")) as [pr|];
        [|discriminate].
      simpl. destruct (truthy (opt_prop pr (lit "number"))) eqn:Ep;
        [|discriminate].
      intros [= <-]. split; [assumption|]. now intros [].
Qed.

End DetailsFacts.

(** X25. Whatever the event data hold, details that [getPRDetails]
    returns have an owner, a repository name and a number that are not
    empty values; with a manual number given, the number is the parsed
    manual input, whatever number the event carries. *)
Theorem getPRDetails_result_is_usable
  (JSON_parse : jsstring -> option JsValue) (parseInt : jsstring -> float)
  (pulls_get : JsValue -> JsValue -> JsValue -> PullAnswer)
  (manualPRNumber : jsstring) (eventFile : option jsstring)
  (d : RawDetails) :
  getPRDetails JSON_parse parseInt pulls_get manualPRNumber eventFile
  = Some d ->
  truthy (raw_owner d) = true
  /\ truthy (raw_repo d) = true
  /\ truthy (raw_number d) = true
  /\ (trim manualPRNumber <> [] ->
      raw_number d = JNum (parseInt manualPRNumber)).
Proof.
  unfold getPRDetails.
  destruct eventFile as [text|]; [|discriminate]. simpl.
  destruct (JSON_parse text) as [eventData|]; [|discriminate]. simpl.
  destruct (prNumber_of parseInt manualPRNumber eventData) as [v|] eqn:Ev;
    [|discriminate].
  simpl.
  destruct (get_prop eventData (lit "repository")) as [repository|];
    [|discriminate].
  simpl.
  destruct (truthy (opt_prop (opt_prop repository (lit "owner")) (lit "login")))
    eqn:E1; [|discriminate].
  destruct (truthy (opt_prop repository (lit "name"))) eqn:E2; [|discriminate].
  simpl. destruct (pulls_get _ _ v) as [|title body]; [discriminate|].
  intros [= <-]. simpl.
  destruct (prNumber_of_truthy parseInt _ _ _ Ev) as [Ht Hm].
  repeat split; assumption.
Qed.

Lemma getPRDetails_result_is_usable_witness :
  exists d,
    getPRDetails sample_event sample_parseInt sample_pull (lit " 12")
      (Some (lit "{}")) = Some d
    /\ raw_number d = JNum 12.
Proof.
  eexists. split; [reflexivity|].
  refine (proj2 (proj2 (proj2
            (getPRDetails_result_is_usable sample_event sample_parseInt
               sample_pull (lit " 12") (Some (lit "{}")) _ eq_refl))) _).
  discriminate.
Defined.

(** X26. A manual number that is given but is not a positive number
    makes [getPRDetails] throw, even when the event data carry a
    number. *)
Theorem invalid_manual_number_is_an_error
  (JSON_parse : jsstring -> option JsValue) (parseInt : jsstring -> float)
  (pulls_get : JsValue -> JsValue -> JsValue -> PullAnswer)
  (manualPRNumber : jsstring) (eventFile : option jsstring) :
  trim manualPRNumber <> [] ->
  is_nan (parseInt manualPRNumber)
  || (parseInt manualPRNumber <=? 0)%float = true ->
  getPRDetails JSON_parse parseInt pulls_get manualPRNumber eventFile = None.
Proof.
  intros Hm Hbad. unfold getPRDetails.
  destruct eventFile as [text|]; [|reflexivity]. simpl.
  destruct (JSON_parse text) as [eventData|]; [|reflexivity]. simpl.
  unfold prNumber_of. now rewrite (manual_branch _ Hm), Hbad.
Qed.

Lemma invalid_manual_number_is_an_error_witness :
  getPRDetails sample_event sample_parseInt sample_pull (lit "abc")
    (Some (lit "{}")) = None
  /\ exists d,
       getPRDetails sample_event sample_parseInt sample_pull []
         (Some (lit "{}")) = Some d
       /\ raw_number d = JNum 7.
Proof.
  split.
  - apply (invalid_manual_number_is_an_error sample_event sample_parseInt
             sample_pull (lit "abc") (Some (lit "{}"))).
    + discriminate.
    + reflexivity.
  - eexists. split; reflexivity.
Defined.

(* ------------------------------------------------------------------ *)
(** ** Text before the first header *)

Section LeadingText.

Lemma regex_split_from_pre (s' : jsstring) (pre : jsstring) :
  forall piece fuel,
    length (pre ++ s') < fuel ->
    no_match_before (length pre) (pre ++ s') ->
    regex_split_from fuel piece (pre ++ s')
    = regex_split_from (fuel - length pre) (rev pre ++ piece) s'.
Proof.
  induction pre as [|c pre IH]; intros piece fuel Hf Hn.
  - simpl. now rewrite Nat.sub_0_r.
  - destruct fuel as [|fuel]; [simpl in Hf; lia|].
    cbn [regex_split_from app].
    assert (Hm : match_header (c :: pre ++ s') = None)
      by (apply (Hn 0); simpl; lia).
    rewrite Hm. rewrite IH.
    + simpl. now rewrite <- app_assoc.
    + simpl in Hf. lia.
    + intros q Hq. apply (Hn (S q)). simpl. lia.
Qed.

Lemma regex_split_leading (pre h r : jsstring) :
  no_match_before (length pre) (pre ++ h ++ r) ->
  match_header (h ++ r) = Some (h, r) ->
  regex_split (pre ++ h ++ r) = pre :: h :: regex_split r.
Proof.
  intros Hn Hm. unfold regex_split at 1.
  rewrite regex_split_from_pre by (assumption || lia).
  rewrite app_nil_r, !length_app.
  destruct (match_header_spec _ _ _ Hm) as (_ & Hh & _).
  apply header_text_nonempty in Hh.
  replace (S (length pre + (length h + length r)) - length pre)
    with (S (length h + length r)) by lia.
  cbn [regex_split_from].
  destruct (h ++ r) as [|c s] eqn:E; [now destruct h|].
  rewrite Hm, rev_involutive. f_equal. f_equal.
  unfold regex_split. apply regex_split_from_fuel; [|lia].
  destruct h; [easy|]. simpl. lia.
Qed.

End LeadingText.

(** X4. When text precedes the first header that the pattern matches (a
    hunk whose header has no line counts, for one), the units that the
    loop packs are not the hunks: the first unit is that text together
    with the first matched header, and the header's body opens the next
    unit. *)
Theorem leading_text_shifts_the_pairing (filename pre h r : jsstring) :
  pre <> [] ->
  no_match_before (length pre) (pre ++ h ++ r) ->
  match_header (h ++ r) = Some (h, r) ->
  let units := properHunks (filter nonempty (regex_split r)) in
  properHunks (filter nonempty (regex_split (pre ++ h ++ r)))
  = (pre ++ h) :: units
  /\ concat units = r
  /\ splitLargeFilePatch filename (pre ++ h ++ r)
     = map (fun g => fileHeader filename ++ concat g)
         (groups_of ((pre ++ h) :: units)).
Proof.
  intros Hpre Hn Hm units.
  destruct (match_header_spec _ _ _ Hm) as (_ & Hh & _).
  apply header_text_nonempty in Hh.
  assert (E : filter nonempty (regex_split (pre ++ h ++ r))
              = pre :: h :: filter nonempty (regex_split r)).
  { rewrite (regex_split_leading _ _ _ Hn Hm). cbn [filter].
    destruct pre; [easy|]. destruct h; [easy|]. reflexivity. }
  assert (Eu : properHunks (filter nonempty (regex_split (pre ++ h ++ r)))
               = (pre ++ h) :: units)
    by now rewrite E.
  split; [exact Eu|]. split.
  - unfold units.
    now rewrite properHunks_concat, filter_nonempty_same_concat,
      regex_split_concat.
  - assert (Hlen : 1 < length (filter nonempty (regex_split (pre ++ h ++ r))))
      by (rewrite E; simpl; lia).
    destruct (hunk_path filename _ Hlen) as (Hp & _).
    now rewrite Hp, Eu.
Qed.

(* ------------------------------------------------------------------ *)
(** ** Review items and comments *)

Section CommentFacts.

Variable Number : JsValue -> float.

Lemma get_prop_opt (item : JsValue) (key : jsstring) :
  item <> JNull -> item <> JUndefined ->
  get_prop item key = Some (opt_prop item key).
Proof.
  intros H1 H2. unfold opt_prop.
  destruct item; try easy; simpl; now destruct (find _ _).
Qed.

End CommentFacts.

(** X15. [createComment] makes one comment for each review item, in
    order: its body is the item's [reviewComment], its line [Number] of
    the item's [lineNumber], its path the file's new path. An item that
    is [null] makes it throw. For a file without a new path it returns
    no comment, whatever the items. *)
Theorem createComment_one_comment_per_item
  (Number : JsValue -> float) (file : ParsedFile) (chunk : Chunk)
  (items : list JsValue) (new_path : jsstring) :
  to file = Some new_path ->
  new_path <> [] ->
  (Forall (fun item => item <> JNull /\ item <> JUndefined) items ->
   createComment Number file chunk (JArr items)
   = Some (map (fun item =>
                  {| body := opt_prop item (lit "reviewComment");
                     path := new_path;
                     line := Number (opt_prop item (lit "lineNumber")) |})
             items))
  /\ (In JNull items -> createComment Number file chunk (JArr items) = None)
  /\ (forall file',
        to_falsy file' = true ->
        createComment Number file' chunk (JArr items) = Some []).
Proof.
  intros Hto Hne.
  assert (Hf : to_falsy file = false)
    by (unfold to_falsy; rewrite Hto; now destruct new_path).
  split; [|split].
  - intros Hall. unfold createComment.
    induction Hall as [|item items [H1 H2] _ IH]; [reflexivity|].
    cbn [flatMap_opt map]. rewrite IH. unfold comment_of at 1.
    rewrite Hf, !get_prop_opt by assumption. simpl.
    unfold show_opt. now rewrite Hto.
  - intros Hin. unfold createComment.
    induction items as [|item items IH]; [easy|].
    cbn [flatMap_opt]. destruct Hin as [->|Hin].
    + unfold comment_of. now rewrite Hf.
    + rewrite (IH Hin). now destruct (comment_of Number file item).
  - intros file' Hf'. unfold createComment.
    induction items as [|item items IH]; [reflexivity|].
    cbn [flatMap_opt]. rewrite IH. unfold comment_of. now rewrite Hf'.
Qed.

Lemma createComment_one_comment_per_item_witness :
  createComment sample_number file_c
    {| chunk_content := []; changes := [] |}
    (JArr [JObj [(lit "lineNumber", JNum 2);
                 (lit "reviewComment", JStr (lit "check this"))];
           JObj []])
  = Some [comment_at 2;
          {| body := JUndefined; path := text_c; line := nan |}].
Proof.
  refine (proj1 (createComment_one_comment_per_item sample_number file_c
                   {| chunk_content := []; changes := [] |}
                   [JObj [(lit "lineNumber", JNum 2);
                          (lit "reviewComment", JStr (lit "check this"))];
                    JObj []]
                   text_c eq_refl _) _).
  - discriminate.
  - repeat constructor; discriminate.
Defined.

(* ------------------------------------------------------------------ *)
(** ** Scenarios of the chunker, the run and the analysis *)


Lemma leading_text_shifts_the_pairing_witness :
  properHunks
    (filter nonempty
       (regex_split (uncounted_hunk ++ counted_header ++ counted_body)))
  = [uncounted_hunk ++ counted_header; counted_body].
Proof.
  assert (Hn : no_match_before (length uncounted_hunk)
                 (uncounted_hunk ++ counted_header ++ counted_body)).
  { intros q Hq.
    do 18 (destruct q as [|q]; [reflexivity|]).
    vm_compute in Hq. lia. }
  exact (proj1 (leading_text_shifts_the_pairing (lit "f") uncounted_hunk
                  counted_header counted_body ltac:(discriminate) Hn
                  eq_refl)).
Defined.

Lemma listing_failure_keeps_store_witness :
  disk (getIndividualFileDiffs env_without_listing (lit "o") (lit "r") 7
          (store_of session_other))
  = store_of session_other.
Proof.
  exact (proj2 (proj2 (proj2
           (listing_failure_keeps_store env_without_listing (lit "o")
              (lit "r") 7 (store_of session_other) eq_refl)))).
Defined.

Lemma fresh_run_completes_witness :
  exists final,
    loadProgress
      (disk (getIndividualFileDiffs (env_of three_files) (lit "o") (lit "r")
               7 empty_store)) = Some final
    /\ completed final = true
    /\ processedFiles final = [lit "a"; lit "b"; lit "c"].
Proof.
  destruct (fresh_run_completes (env_of three_files) (lit "o") (lit "r") 7
              empty_store three_files eq_refl eq_refl
              ltac:(discriminate) eq_refl)
    as (final & _ & H2 & H3 & H4 & _).
  exists final. split; [exact H2|]. split; [exact H3|exact H4].
Defined.

Lemma completed_session_starts_over_witness :
  fetched
    (getIndividualFileDiffs (env_of three_files) (lit "o") (lit "r") 7
       (disk (getIndividualFileDiffs (env_of [file_named "a"; file_named "b"])
                (lit "o") (lit "r") 7 empty_store)))
  = [lit "a"; lit "b"; lit "c"].
Proof.
  exact (proj2 (completed_session_starts_over
                  (env_of [file_named "a"; file_named "b"])
                  (env_of three_files) (lit "o") (lit "r") 7 empty_store
                  [file_named "a"; file_named "b"] three_files
                  eq_refl eq_refl ltac:(discriminate) eq_refl eq_refl)).
Defined.

Lemma batch_counter_adds_batch_numbers_witness :
  exists final,
    session (getIndividualFileDiffs (env_of (numbered_files 25)) (lit "o")
               (lit "r") 7 empty_store) = Some final
    /\ currentBatch final = 6.
Proof.
  destruct (batch_counter_adds_batch_numbers (env_of (numbered_files 25))
              (lit "o") (lit "r") 7 empty_store (numbered_files 25)
              eq_refl ltac:(discriminate))
    as (final & H1 & H2).
  exists final. split; [exact H1|].
  assert (E : 2 * currentBatch final = 12) by exact H2.
  lia.
Defined.

Lemma diff_text_by_batches_witness :
  diff (getIndividualFileDiffs (env_of three_files) (lit "o") (lit "r") 7
          empty_store)
  = join nl (map (fun file => snd (process_file first_run_cut_short file))
               three_files).
Proof.
  destruct (diff_text_by_batches (env_of three_files) (lit "o") (lit "r") 7
              empty_store three_files first_run_cut_short eq_refl
              ltac:(discriminate))
    as (H1 & H2 & _).
  rewrite H1. apply (H2 three_files). unfold Assembler.batchSize. simpl. lia.
Defined.

Lemma reply_without_array_aborts_analysis_witness :
  analyzeCode sample_decoder sample_number sample_number_text
    (logging_service (Message None)) [file_c] details []
  = ([createPrompt sample_number_text file_c
        {| chunk_content := lit "@@ -1,7 +1,2 @@";
           changes := [ NormalChange 1 1 (lit " a");
                        DeleteChange 7 (lit "-b");
                        AddChange 2 (lit "+c") ] |} details],
     None).
Proof.
  refine (proj1 (reply_without_array_aborts_analysis sample_decoder
                   sample_number sample_number_text (list jsstring)
                   (logging_service (Message None)) details file_c
                   _ [] [] [] _ None eq_refl eq_refl eq_refl eq_refl _)).
  intros items. vm_compute. discriminate.
Defined.

Lemma analysed_comments_find_their_file_witness :
  Forall (on_analysed_file [file_c]) [comment_at 2].
Proof.
  refine (proj1 (analysed_comments_find_their_file one_review_decoder
                   sample_number sample_number_text (list jsstring)
                   (logging_service (Message (Some (lit "x")))) details
                   [file_c] (sample_parseDiff []) [] _ [comment_at 2]
                   eq_refl _)).
  intros file [<-|[]]. right. left. reflexivity.
Defined.

(* ------------------------------------------------------------------ *)
(** ** Files handled by a run *)

Section OnceFacts.

Lemma NoDup_firstn {A} (n : nat) (l : list A) : NoDup l -> NoDup (firstn n l).
Proof.
  intros H. rewrite <- (firstn_skipn n l) in H.
  now apply NoDup_app_remove_r in H.
Qed.

Lemma remaining_names_distinct (stored : ReviewProgress)
  (items : list ChangedFile) :
  NoDup (map filename items) ->
  NoDup (map filename (remaining stored items)).
Proof.
  unfold remaining.
  set (keep := fun file : ChangedFile =>
                 negb (existsb (str_eqb (filename file))
                         (processedFiles stored))).
  induction items as [|file items IH]; intros Hnd; cbn [filter map];
    [constructor|].
  inversion Hnd as [|? ? Hfresh Hrest]; subst.
  destruct (keep file); [|now apply IH].
  cbn [map]. constructor; [|now apply IH].
  intros Hin. apply Hfresh. apply in_map_iff in Hin as (x & E & Hx).
  apply filter_In in Hx as [Hx _]. apply in_map_iff. now exists x.
Qed.

Lemma work_items_incl (env : Env) (files : list ChangedFile) :
  incl (work_items env files) files.
Proof.
  unfold work_items. destruct (LOCAL_TESTING env); [|apply incl_refl].
  apply slice_incl.
Qed.

Lemma work_items_NoDup (env : Env) (files : list ChangedFile) :
  NoDup (map filename files) -> NoDup (map filename (work_items env files)).
Proof.
  unfold work_items. destruct (LOCAL_TESTING env); [|easy].
  unfold slice. cbn [skipn]. rewrite <- firstn_map. apply NoDup_firstn.
Qed.

End OnceFacts.

(** X27. A run handles only files of the listing, none of them twice
    (the names of the listing being distinct), and on resume none that
    the stored session records as processed. *)
Theorem run_handles_listed_files_once (env : Env) (owner repo : jsstring)
  (pull_number : float) (fs0 : FileSystem) (files : list ChangedFile) :
  listFiles env = Some files ->
  NoDup (map filename files) ->
  let out := getIndividualFileDiffs env owner repo pull_number fs0 in
  NoDup (fetched out)
  /\ incl (fetched out) (map filename files)
  /\ forall p name,
       resumed fs0 pull_number (owner ++ lit "/" ++ repo) = Some p ->
       In name (fetched out) -> ~ In name (processedFiles p).
Proof.
  intros Hf Hnd out.
  destruct files as [|file files].
  - unfold out, getIndividualFileDiffs. rewrite Hf. simpl.
    destruct (resumeDecision _ _ _). simpl.
    repeat split; [constructor|easy|easy].
  - assert (Hne : file :: files <> []) by discriminate.
    destruct (run_outcome env owner repo pull_number fs0 (file :: files)
                {| progress := createInitialProgress pull_number [] 0 [];
                   fs := fs0; history := []; handled := [] |} Hf Hne)
      as (final & _ & _ & O3 & _).
    fold out in O3. rewrite O3.
    pose proof (work_items_NoDup env _ Hnd) as Hw.
    pose proof (work_items_incl env (file :: files)) as Hi.
    unfold todo_of.
    destruct (resumed fs0 pull_number (owner ++ lit "/" ++ repo)) as [p|].
    + split; [now apply remaining_names_distinct|]. split.
      * intros name Hin. apply in_map_iff in Hin as (x & <- & Hx).
        unfold remaining in Hx. apply filter_In in Hx as [Hx _].
        apply in_map. now apply Hi.
      * intros p' name [= <-]. apply remaining_fresh.
    + split; [assumption|]. split; [|discriminate].
      intros name Hin. apply in_map_iff in Hin as (x & <- & Hx).
      apply in_map. now apply Hi.
Qed.

Lemma run_handles_listed_files_once_witness :
  NoDup (fetched (getIndividualFileDiffs (env_of three_files) (lit "o")
                    (lit "r") 7 (store_of session_a)))
  /\ ~ In (lit "a")
         (fetched (getIndividualFileDiffs (env_of three_files) (lit "o")
                     (lit "r") 7 (store_of session_a))).
Proof.
  assert (Hn : NoDup (map filename three_files))
    by (repeat (constructor; [simpl; intuition discriminate|]); constructor).
  destruct (run_handles_listed_files_once (env_of three_files) (lit "o")
              (lit "r") 7 (store_of session_a) three_files eq_refl Hn)
    as (H1 & _ & H3).
  split; [exact H1|].
  intros Hin. apply (H3 session_a (lit "a") eq_refl Hin).
  left. reflexivity.
Defined.

(* ------------------------------------------------------------------ *)
(** ** Inline code spans *)

Section BacktickFacts.

Lemma dropWhile_eq_all (c : N) (b s : jsstring) :
  Forall (fun x => x = c) b ->
  dropWhile (N.eqb c) (b ++ s) = dropWhile (N.eqb c) s.
Proof.
  intros H. apply dropWhile_app_all.
  eapply Forall_impl; [|exact H]. intros x ->. apply N.eqb_refl.
Qed.

Lemma startsWith_cons (c : N) (s p : jsstring) :
  startsWith (c :: s) (c :: p) = startsWith s p.
Proof. unfold startsWith. simpl. now rewrite N.eqb_refl. Qed.

Lemma strip_backticks_around (b1 b2 t : jsstring) :
  Forall (fun x => x = backtick) b1 ->
  Forall (fun x => x = backtick) b2 ->
  hd_error t <> Some backtick ->
  hd_error (rev t) <> Some backtick ->
  strip_backticks (b1 ++ t ++ b2) = t.
Proof.
  intros H1 H2 Hh Hl. unfold strip_backticks.
  rewrite (dropWhile_eq_all _ _ _ H1).
  assert (Eb : Forall (fun c => N.eqb backtick c = true) b2)
    by (eapply Forall_impl; [|exact H2]; intros x ->; apply N.eqb_refl).
  destruct t as [|c t].
  - simpl. rewrite <- (app_nil_r b2), dropWhile_app_all by assumption.
    reflexivity.
  - assert (Hc : N.eqb backtick c = false)
      by (apply N.eqb_neq; intros <-; now apply Hh).
    cbn [app dropWhile]. rewrite Hc.
    change (c :: t ++ b2) with ((c :: t) ++ b2).
    rewrite (dropWhileEnd_app_all _ (c :: t) b2 Eb).
    apply dropWhileEnd_id. intros x Hx. apply N.eqb_neq. intros <-.
    now apply Hl.
Qed.

End BacktickFacts.

(** X28. One or two backticks before the content and any number of them
    after it (an inline code span) are stripped: the reply is parsed as
    the content alone. *)
Theorem inline_backticks_are_stripped
  (JSON_parse : jsstring -> option JsValue) (content b1 b2 : jsstring) :
  plain content ->
  Forall (fun x => x = backtick) b1 ->
  length b1 < 3 ->
  Forall (fun x => x = backtick) b2 ->
  decodeResponse JSON_parse (Some (b1 ++ trim content ++ b2))
  = decodeResponse JSON_parse (Some content).
Proof.
  intros Hp H1 Hlen H2. pose proof Hp as (Hne & Hh & Hl).
  set (t := trim content) in *.
  assert (Hws : forall c, hd_error t = Some c -> is_whitespace c = false)
    by (intros c; apply trim_hd).
  assert (Hwe : forall c, hd_error (rev t) = Some c -> is_whitespace c = false)
    by (intros c; apply trim_last).
  assert (Htrim : trim (b1 ++ t ++ b2) = b1 ++ t ++ b2).
  { apply trim_id.
    - intros c Hc. destruct b1 as [|x b1].
      + destruct t as [|y t']; [easy|]. apply Hws. exact Hc.
      + inversion H1; subst. now injection Hc as <-.
    - intros c Hc. rewrite !rev_app_distr in Hc.
      destruct (rev b2) as [|x r2] eqn:E2.
      + simpl in Hc. destruct (rev t) as [|y r] eqn:Er.
        * apply (f_equal (@rev N)) in Er. rewrite rev_involutive in Er.
          now destruct Hne.
        * apply Hwe. exact Hc.
      + apply Forall_rev in H2. rewrite E2 in H2. inversion H2; subst.
        now injection Hc as <-. }
  assert (Hstart : startsWith (b1 ++ t ++ b2) fence = false
                   /\ startsWith (b1 ++ t ++ b2) (lit "```json") = false).
  { change fence with (backtick :: backtick :: [backtick]).
    change (lit "```json")
      with (backtick :: backtick :: backtick :: lit "json").
    destruct t as [|y t']; [easy|].
    assert (Hy : forall s p, startsWith (y :: s) (backtick :: p) = false).
    { intros s p. apply (startsWith_hd _ _ backtick); [reflexivity|].
      simpl. intros [= ->]. now apply Hh. }
    destruct b1 as [|x1 [|x2 [|x3 b1]]]; try (simpl in Hlen; lia);
      repeat match goal with
             | H : Forall _ (_ :: _) |- _ => inversion H; subst; clear H
             end;
      cbn [app]; rewrite ?startsWith_cons; split; apply Hy. }
  destruct Hstart as [Hs1 Hs2].
  assert (E : cleanResponse (Some (b1 ++ t ++ b2)) = Some t).
  { unfold cleanResponse. rewrite Htrim.
    replace (nonempty (b1 ++ t ++ b2)) with true
      by (destruct b1; [destruct t; [easy|reflexivity]|reflexivity]).
    rewrite Hs1, Hs2. simpl.
    rewrite (strip_backticks_around b1 b2 t H1 H2 Hh Hl).
    unfold t. now rewrite trim_idem. }
  unfold decodeResponse. now rewrite E, (cleanResponse_plain content Hp).
Qed.

Lemma inline_backticks_are_stripped_witness :
  decodeResponse sample_decoder (Some (lit "``[]`")) = JArr [].
Proof.
  assert (Hp : plain (lit "[]")) by (repeat split; discriminate).
  exact (inline_backticks_are_stripped sample_decoder (lit "[]")
           (lit "``") (lit "`") Hp
           ltac:(repeat constructor) ltac:(simpl; lia)
           ltac:(repeat constructor)).
Defined.
